(** * Video-Captioning: a shallow embedding of [utils.py] and [models.py]

    The Python sources are embedded as Rocq functions.  Python 3 semantics
    is followed: [/] on numbers is true division, [dict.keys()] is a view,
    a [dict] keeps insertion order.  Exceptions are values of [exn] carried
    by the [result] monad.  A finite floating-point number is modelled by
    the rational ([Q]) it denotes; infinities and NaN are left out.  In
    [beam_search], where scores are accumulated and compared, every
    arithmetic operation rounds its result ([rnd], with [round_f32] for the
    single precision of a [FloatTensor]); elsewhere the arithmetic is
    exact.  The kernels that are not rational functions (softmax, the
    recurrent decoder, real powers, the BLEU scorer) are section
    variables. *)

From stdpp Require Import gmap strings list fin_maps.
From Stdlib Require Import QArith Qpower Qround Qabs.

#[local] Set Warnings "-register-all".
#[local] Open Scope Q_scope.
#[local] Open Scope string_scope.
#[local] Open Scope nat_scope.
#[local] Open Scope list_scope.

(** ** Exceptions and the result monad *)

Inductive exn : Type :=
| IndexError
| KeyError
| AssertionError
| NameError (name : string)
| AttributeError (obj attr : string)
| TypeError (msg : string)
| ZeroDivisionError
| ValueError (msg : string)
| RuntimeError (msg : string).

Inductive result (A : Type) : Type :=
| Ok (a : A)
| Raise (e : exn).
Arguments Ok {A} a.
Arguments Raise {A} e.

#[global] Instance result_ret : MRet result := fun A a => Ok a.
#[global] Instance result_bind : MBind result := fun A B k m =>
  match m with
  | Ok a => k a
  | Raise e => Raise e
  end.

Definition result_to_option {A} (r : result A) : option A :=
  match r with
  | Ok a => Some a
  | Raise _ => None
  end.

(** [assert c] *)
Definition py_assert (c : bool) : result unit :=
  if c then Ok tt else Raise AssertionError.

(** [l[i]] on a Python list or along a tensor axis. *)
Definition getitem {A} (l : list A) (i : nat) : result A :=
  match l !! i with
  | Some a => Ok a
  | None => Raise IndexError
  end.

(** [l[start:]] with Python's treatment of negative and oversized starts. *)
Definition py_slice_from {A} (start : Z) (l : list A) : list A :=
  let len := Z.of_nat (length l) in
  let s := if (start <? 0)%Z then Z.max 0 (start + len) else Z.min start len in
  drop (Z.to_nat s) l.

(** [sum(l)] on numbers. *)
Definition py_sum (l : list Q) : Q := fold_left Qplus l (0%Q).

(** [d[k]] on a mapping. *)
Definition dict_get `{Countable K} {V} (d : gmap K V) (k : K) : result V :=
  match d !! k with
  | Some v => Ok v
  | None => Raise KeyError
  end.

(** ** [LossChecker] *)

Module LossChecker.

Record t : Type := mk { num_losses : nat; losses : list (list Q) }.

(** [__init__]: one empty history per component. *)
Definition init (num_losses : nat) : t :=
  mk num_losses (replicate num_losses []).

(** The loop of [update]: [self.losses[i].append(loss_val)]. *)
Fixpoint update_loop (i : nat) (loss_vals : list Q) (ls : list (list Q))
  : result (list (list Q)) :=
  match loss_vals with
  | [] => Ok ls
  | loss_val :: rest =>
      l ← getitem ls i;
      update_loop (S i) rest (<[i := l ++ [loss_val]]> ls)
  end.

Definition update (self : t) (loss_vals : list Q) : result t :=
  _ ← py_assert (bool_decide (length loss_vals = num_losses self));
  ls ← update_loop 0 loss_vals (losses self);
  Ok (mk (num_losses self) ls).

(** [sum(_loss) / len(_loss)] *)
Definition mean_of (_loss : list Q) : result Q :=
  match length _loss with
  | O => Raise ZeroDivisionError
  | S _ => Ok (py_sum _loss / inject_Z (Z.of_nat (length _loss)))%Q
  end.

(** The loop of [mean]: [mean_losses[i] = sum(_loss) / len(_loss)]. *)
Fixpoint mean_loop (last : Z) (i : nat) (ls : list (list Q)) (mean_losses : list Q)
  : result (list Q) :=
  match ls with
  | [] => Ok mean_losses
  | loss :: rest =>
      let _loss := py_slice_from (- last) loss in
      m ← mean_of _loss;
      _ ← getitem mean_losses i;
      mean_loop last (S i) rest (<[i := m]> mean_losses)
  end.

Definition mean (self : t) (last : Z) : result (list Q) :=
  mean_loop last 0 (losses self) (replicate (num_losses self) 0%Q).

(** The trailing window in the words of the specification: the whole
    history for [last = 0], the most recent [last] entries otherwise. *)
Definition spec_window {A} (last : nat) (l : list A) : list A :=
  match last with
  | O => l
  | S _ => drop (length l - last) l
  end.

(** The mean in the words of the specification. *)
Definition spec_mean (last : nat) (loss : list Q) : Q :=
  (py_sum (spec_window last loss) / inject_Z (Z.of_nat (length (spec_window last loss))))%Q.

(** Every checker built by [init] and [update] keeps one history per
    component. *)
Definition wf (self : t) : Prop := length (losses self) = num_losses self.

End LossChecker.

(** ** Vocabulary and batches *)

Record Vocab : Type := mkVocab {
  word2idx : gmap string nat;
  idx2word : gmap nat string;
  n_vocabs : nat
}.

(** A raw batch: video ids, one tensor per feature stream, and the caption
    tensor, time-major: [captions[t][b]]. *)
Record Batch (Stream : Type) : Type := mkBatch {
  batch_vids : list string;
  batch_feats : list Stream;
  batch_captions : list (list nat)
}.
Arguments mkBatch {Stream} _ _ _.
Arguments batch_vids {Stream} _.
Arguments batch_feats {Stream} _.
Arguments batch_captions {Stream} _.

(** The names bound at module level in [utils.py]: its imports, classes and
    functions. *)
Definition utils_globals : list string :=
  [ "inspect"; "math"; "os"; "torch"; "nn"; "F"; "tqdm"; "Bleu";
    "LossChecker"; "parse_batch"; "entropy_loss"; "train"; "test";
    "get_predicted_captions"; "get_groundtruth_captions"; "score";
    "calc_scores"; "evaluate"; "get_lr"; "idxs_to_sentence"; "cls_to_dict";
    "Struct"; "dict_to_cls"; "load_checkpoint"; "save_checkpoint";
    "save_result" ].

(** Reading a name that is not local to the function: found among the
    module's globals, or [NameError]. *)
Definition load_global (name : string) : result unit :=
  if bool_decide (name ∈ utils_globals) then Ok tt else Raise (NameError name).

(** ** Tensors as nested lists

    A tensor of shape (T, B, V) is a list of T lists of B lists of V
    numbers.  The element-wise operations are written with [zip_with]; they
    are used on operands of equal shape, where the tensor library accepts
    them (on other shapes it raises, which the theorems exclude by their
    shape hypotheses). *)

Definition shape2 {A} (n m : nat) (x : list (list A)) : Prop :=
  length x = n ∧ Forall (λ row, length row = m) x.

Definition shape3 {A} (n m k : nat) (x : list (list (list A))) : Prop :=
  length x = n ∧ Forall (shape2 m k) x.

Definition same_shape2 {A B} (x : list (list A)) (y : list (list B)) : bool :=
  bool_decide (length <$> x = length <$> y).

(** [a * b], element-wise, on tensors of equal shape. *)
Definition mul3 (a b : list (list (list Q))) : list (list (list Q)) :=
  zip_with (zip_with (zip_with Qmult)) a b.

(** [b.sum(dim=2)] *)
Definition sum_dim2 (b : list (list (list Q))) : list (list Q) :=
  (λ row : list (list Q), py_sum <$> row) <$> b.

(** [b[ignore_mask] = 0]: the mask has the shape of [b]. *)
Definition masked_zero (b : list (list Q)) (ignore_mask : list (list bool))
  : result (list (list Q)) :=
  if same_shape2 b ignore_mask
  then Ok (zip_with (zip_with (λ (m : bool) v, if m then 0%Q else v)) ignore_mask b)
  else Raise IndexError.

(** [b.sum(dim=0)] on a tensor with [ncols] columns. *)
Definition sum_dim0 (ncols : nat) (b : list (list Q)) : list Q :=
  fold_left (zip_with Qplus) b (replicate ncols 0%Q).

(** [v.mean()] *)
Definition tensor_mean (v : list Q) : Q :=
  (py_sum v / inject_Z (Z.of_nat (length v)))%Q.

Section EntropyLoss.

(** [F.softmax(x, dim=1)] and [F.log_softmax(x, dim=1)]. *)
Variable softmax_dim1 log_softmax_dim1 : list (list (list Q)) → list (list (list Q)).

(** [entropy_loss(x, ignore_mask)]; the batch size is [x.size(1)]. *)
Definition entropy_loss (x : list (list (list Q))) (ignore_mask : list (list bool))
  : result Q :=
  let b := mul3 (softmax_dim1 x) (log_softmax_dim1 x) in
  let b := sum_dim2 b in
  b ← masked_zero b ignore_mask;
  Ok (- (1) * tensor_mean (sum_dim0 (length (hd [] x)) b))%Q.

End EntropyLoss.

(** ** [parse_batch], [train] *)

Section Training.

Context {Model Optimizer Stream Feat : Type}.

(** [torch.cat(feats, dim=2)], indexed by batch element. *)
Variable torch_cat_dim2 : list Stream → list Feat.
(** [model(feats, captions, teacher_forcing_ratio)]: the (T, B, V) buffer
    of log-probabilities. *)
Variable forward : Model → list Feat → list (list nat) → Q → list (list (list Q)).
(** [F.nll_loss(input, target, ignore_index)] *)
Variable nll_loss : list (list Q) → list nat → nat → Q.
Variable softmax_dim1 log_softmax_dim1 : list (list (list Q)) → list (list (list Q)).
(** [optimizer.zero_grad()] *)
Variable zero_grad : Optimizer → Optimizer.
(** [loss.backward()], the optional [clip_grad_norm_] and
    [optimizer.step()], as one update driven by the loss value. *)
Variable backward_step : Model → Optimizer → Q → option Q → Model * Optimizer.

Definition parse_batch (batch : Batch Stream)
  : list string * list Feat * list (list nat) :=
  (batch_vids batch, torch_cat_dim2 (batch_feats batch), batch_captions batch).

(** The end of the body of the loop of [train], from the entropy term on:
    the total loss, the update of the parameters and the three values
    recorded. *)
Definition train_batch_record (reg_lambda : Q) (gradient_clip : option Q) (PAD_idx : nat)
    (model : Model) (optimizer : Optimizer) (loss_checker : LossChecker.t)
    (output : list (list (list Q))) (captions : list (list nat)) (cross_entropy_loss : Q)
  : result (Model * Optimizer * LossChecker.t) :=
  entropy_loss ← entropy_loss softmax_dim1 log_softmax_dim1 (drop 1 output)
                   ((λ row : list nat, (λ c, bool_decide (c = PAD_idx)) <$> row) <$> drop 1 captions);
  let loss := (cross_entropy_loss + reg_lambda * entropy_loss)%Q in
  let '(model, optimizer) := backward_step model optimizer loss gradient_clip in
  loss_checker ← LossChecker.update loss_checker [loss; cross_entropy_loss; entropy_loss];
  (* the progress line shows [loss_checker.mean(last=10)] *)
  _ ← LossChecker.mean loss_checker 10;
  Ok (model, optimizer, loss_checker).

(** The body of the loop of [train]. *)
Definition train_batch (vocab : Vocab) (teacher_forcing_ratio reg_lambda : Q)
    (gradient_clip : option Q) (PAD_idx : nat)
    (st : Model * Optimizer * LossChecker.t) (batch : Batch Stream)
  : result (Model * Optimizer * LossChecker.t) :=
  let '(model, optimizer, loss_checker) := st in
  let '(_, feats, captions) := parse_batch batch in
  let optimizer := zero_grad optimizer in
  let output := forward model feats captions teacher_forcing_ratio in
  let cross_entropy_loss :=
    nll_loss (concat (drop 1 output)) (concat (drop 1 captions)) PAD_idx in
  (* [losses.entropy_loss(...)]: the name [losses] is read first *)
  _ ← load_global "losses";
  train_batch_record reg_lambda gradient_clip PAD_idx model optimizer loss_checker
    output captions cross_entropy_loss.

Fixpoint train_loop (vocab : Vocab) (teacher_forcing_ratio reg_lambda : Q)
    (gradient_clip : option Q) (PAD_idx : nat)
    (train_iter : list (Batch Stream)) (st : Model * Optimizer * LossChecker.t)
  : result (Model * Optimizer * LossChecker.t) :=
  match train_iter with
  | [] => Ok st
  | batch :: rest =>
      st ← train_batch vocab teacher_forcing_ratio reg_lambda gradient_clip PAD_idx st batch;
      train_loop vocab teacher_forcing_ratio reg_lambda gradient_clip PAD_idx rest st
  end.

(** The dictionary returned by [train]. *)
Record Losses : Type := mkLosses { total : Q; cross_entropy : Q; entropy : Q }.

(** [train(e, model, optimizer, train_iter, vocab, teacher_forcing_ratio,
    reg_lambda, gradient_clip)]; the epoch number [e] is only displayed. *)
Definition train (e : nat) (model : Model) (optimizer : Optimizer)
    (train_iter : list (Batch Stream)) (vocab : Vocab)
    (teacher_forcing_ratio reg_lambda : Q) (gradient_clip : option Q)
  : result (Model * Optimizer * Losses) :=
  let loss_checker := LossChecker.init 3 in
  PAD_idx ← dict_get (word2idx vocab) "<PAD>";
  '(model, optimizer, loss_checker) ←
    train_loop vocab teacher_forcing_ratio reg_lambda gradient_clip PAD_idx
      train_iter (model, optimizer, loss_checker);
  means ← LossChecker.mean loss_checker 0;
  match means with
  | [total_loss; cross_entropy_loss; entropy_loss] =>
      Ok (model, optimizer, mkLosses total_loss cross_entropy_loss entropy_loss)
  | _ => Raise (RuntimeError "ValueError: unpacking")
  end.

End Training.

(** ** [models.py]: construction of the [Decoder] *)

(** The values stored in the attributes of a module: plain numbers and
    strings, and the [torch.nn] sub-modules with the sizes they are built
    with. *)
Inductive attr : Type :=
| AInt (n : nat)
| AFloat (q : Q)
| AStr (s : string)
| AEmbedding (num_embeddings embedding_dim : nat)
| AAttention (hidden_size feat_size bottleneck_size : nat)
| ARNN (cell : string) (input_size hidden_size num_layers : nat)
       (dropout : Q) (bidirectional : bool)
| ALinear (in_features out_features : nat).

Definition is_module (a : attr) : bool :=
  match a with
  | AInt _ | AFloat _ | AStr _ => false
  | _ => true
  end.

(** An instance of a subclass of [nn.Module]: its attributes, and whether
    [nn.Module.__init__] has run on it. *)
Record module_obj : Type := mkModule {
  class_name : string;
  initialized : bool;
  attrs : gmap string attr
}.

(** [self.name = v]: [nn.Module.__setattr__] refuses a sub-module before
    [nn.Module.__init__]. *)
Definition setattr (self : module_obj) (name : string) (v : attr) : result module_obj :=
  if is_module v && negb (initialized self)
  then Raise (AttributeError (class_name self) "cannot assign module before Module.__init__() call")
  else Ok (mkModule (class_name self) (initialized self) (<[name := v]> (attrs self))).

(** [self.name] *)
Definition getattr (self : module_obj) (name : string) : result attr :=
  match attrs self !! name with
  | Some v => Ok v
  | None => Raise (AttributeError (class_name self) name)
  end.

Definition as_int (a : attr) : result nat :=
  match a with
  | AInt n => Ok n
  | _ => Raise (TypeError "an integer is required")
  end.

Definition as_float (a : attr) : result Q :=
  match a with
  | AFloat q => Ok q
  | AInt n => Ok (inject_Z (Z.of_nat n))
  | _ => Raise (TypeError "a number is required")
  end.

(** [a == s] for a string literal [s]. *)
Definition attr_eq_str (a : attr) (s : string) : bool :=
  match a with
  | AStr s' => bool_decide (s' = s)
  | _ => false
  end.

(** [Attention.__init__]: the projections are determined by the three
    sizes. *)
Definition Attention_init (hidden_size feat_size bottleneck_size : nat) : attr :=
  AAttention hidden_size feat_size bottleneck_size.

(** [Decoder.__init__], statement by statement. *)
Definition Decoder_init (rnn_type : string)
    (num_layers num_directions feat_size feat_len embedding_size
     hidden_size attn_size output_size : nat) (rnn_dropout : Q)
  : result module_obj :=
  let self := mkModule "Decoder" false ∅ in
  self ← setattr self "hidden_size" (AInt hidden_size);
  self ← setattr self "attn_size" (AInt attn_size);
  self ← setattr self "output_size" (AInt output_size);
  self ← setattr self "rnn_dropout_p" (AFloat rnn_dropout);
  (* self.embedding = nn.Embedding(self.output_size, self.embedding_size) *)
  n ← getattr self "output_size" ≫= as_int;
  d ← getattr self "embedding_size" ≫= as_int;
  self ← setattr self "embedding" (AEmbedding n d);
  (* self.attention = Attention(...) *)
  nd ← getattr self "num_directions" ≫= as_int;
  hs ← getattr self "hidden_size" ≫= as_int;
  fs ← getattr self "feat_size" ≫= as_int;
  bs ← getattr self "attn_size" ≫= as_int;
  self ← setattr self "attention" (Attention_init (nd * hs) fs bs);
  (* RNN = nn.LSTM if self.rnn_type == 'LSTM' else nn.GRU *)
  rt ← getattr self "rnn_type";
  let RNN := if attr_eq_str rt "LSTM" then "LSTM" else "GRU" in
  es ← getattr self "embedding_size" ≫= as_int;
  fs ← getattr self "feat_size" ≫= as_int;
  hs ← getattr self "hidden_size" ≫= as_int;
  nl ← getattr self "num_layers" ≫= as_int;
  dp ← getattr self "rnn_dropout_p" ≫= as_float;
  nd ← getattr self "num_directions" ≫= as_int;
  self ← setattr self "rnn" (ARNN RNN (es + fs) hs nl dp (bool_decide (nd = 2)));
  (* self.out = nn.Linear(self.num_directions * self.hidden_size, self.output_size) *)
  nd ← getattr self "num_directions" ≫= as_int;
  hs ← getattr self "hidden_size" ≫= as_int;
  os ← getattr self "output_size" ≫= as_int;
  setattr self "out" (ALinear (nd * hs) os).

(** ** [models.py]: [CaptionGenerator] *)

Definition Qlt_bool (a b : Q) : bool := negb (Qle_bool b a).

(** [enumerate(l)] *)
Definition enumerate {A} (l : list A) : list (nat * A) := imap pair l.

(** [row.argsort(descending=True)]: the indices by decreasing value, equal
    values in their original order. *)
Fixpoint insert_desc (x : nat * Q) (l : list (nat * Q)) : list (nat * Q) :=
  match l with
  | [] => [x]
  | y :: l' => if Qle_bool x.2 y.2 then y :: insert_desc x l' else x :: l
  end.

Definition argsort_desc (row : list Q) : list nat :=
  fst <$> fold_left (λ acc x, insert_desc x acc) (enumerate row) [].

(** [row.max(0)[1]]: the index of the first greatest entry. *)
Fixpoint argmax_from (best : nat) (best_val : Q) (i : nat) (row : list Q) : nat :=
  match row with
  | [] => best
  | v :: row' =>
      if Qlt_bool best_val v then argmax_from i v (S i) row'
      else argmax_from best best_val (S i) row'
  end.

Definition argmax (row : list Q) : result nat :=
  match row with
  | [] => Raise (RuntimeError "max(): cannot reduce over an empty dimension")
  | v :: row' => Ok (argmax_from 0 v 1 row')
  end.

(** [torch.cat(ts, dim=1)] on tensors with [nrows] rows. *)
Definition cat_dim1 {A} (nrows : nat) (ts : list (list (list A))) : result (list (list A)) :=
  match ts with
  | [] => Raise (ValueError "torch.cat(): expected a non-empty list of Tensors")
  | _ => Ok (foldr (zip_with app) (replicate nrows []) ts)
  end.

(** [index(EOS_idx) + 1 if EOS_idx in caption else t + 1] *)
Definition caption_len (EOS_idx t : nat) (caption : list nat) : nat :=
  match list_find (λ idx, idx = EOS_idx) caption with
  | Some (i, _) => i + 1
  | None => t + 1
  end.

(** The working lists of [beam_search]: one entry per beam slot, each
    indexed by batch element; [output_list[b][i]] is the path of slot [i] of
    batch element [b]. *)
Record beam_state (Hidden : Type) : Type := mkBeam {
  input_list : list (list nat);
  hidden_list : list (list Hidden);
  cum_prob_list : list (list Q);
  output_list : list (list (list nat))
}.
Arguments mkBeam {Hidden} _ _ _ _.
Arguments input_list {Hidden} _.
Arguments hidden_list {Hidden} _.
Arguments cum_prob_list {Hidden} _.
Arguments output_list {Hidden} _.

(** ** Single-precision rounding

    [round_f32 x] is the single-precision number nearest to [x], ties to
    the even significand: 24 significant bits, exponents from -126
    (subnormal numbers below).  Overflow is not modelled. *)

(** [floor (log2 a)] for [a > 0]. *)
Definition Qlog2_floor (a : Q) : Z :=
  let l := (Z.log2 (Qnum a) - Z.log2 (Zpos (Qden a)))%Z in
  if Qle_bool (2 ^ l) a then l else (l - 1)%Z.

Definition round_half_even (q : Q) : Z :=
  let f := Qfloor q in
  match (q - inject_Z f ?= 1 # 2)%Q with
  | Lt => f
  | Gt => (f + 1)%Z
  | Eq => if Z.even f then f else (f + 1)%Z
  end.

(** The distance between the floats around [x]. *)
Definition ulp_f32 (x : Q) : Q := (2 ^ (Z.max (Qlog2_floor (Qabs x)) (-126) - 23))%Q.

Definition round_f32 (x : Q) : Q :=
  Qred (inject_Z (round_half_even (x / ulp_f32 x)) * ulp_f32 x).

Section CaptionGenerator.

Context {Hidden Feat : Type}.

(** [self.decoder(input, hidden, feats)]: the (B, V) log-probabilities and
    the next recurrent state, one entry per batch element.  [Hidden] is one
    batch column of the state: a tensor for a GRU, a pair for an LSTM. *)
Variable decoder : list nat → list Hidden → list Feat → list (list Q) * list Hidden.
(** [self.decoder.output_size] *)
Variable output_size : nat.
(** One batch column of the zero state of [get_rnn_init_hidden]. *)
Variable zero_hidden : Hidden.
Variable max_caption_len : nat.
Variable vocab : Vocab.
(** [x ** alpha] on floating-point numbers. *)
Variable fpow : Q → Q → Q.
(** The rounding of the exact result of an operation on [FloatTensor]s. *)
Variable rnd : Q → Q.

Definition get_rnn_init_hidden (batch_size : nat) : list Hidden :=
  replicate batch_size zero_hidden.

(** The loop of [forward_decoder]; [rand t] is the value drawn by
    [random.random()] at step [t]. *)
Fixpoint forward_decoder_loop (ts : list nat) (feats : list Feat)
    (captions : option (list (list nat))) (teacher_forcing_ratio : Q) (rand : nat → Q)
    (outputs : list (list (list Q))) (output : list nat) (hidden : list Hidden)
  : result (list (list (list Q))) :=
  match ts with
  | [] => Ok outputs
  | t :: ts' =>
      let '(out, hidden) := decoder output hidden feats in
      _ ← getitem outputs t;
      let outputs := <[t := out]> outputs in
      let is_teacher := Qlt_bool (rand t) teacher_forcing_ratio in
      top1 ← mapM argmax out;
      output ← (if is_teacher
                then match captions with
                     | Some c => getitem c t
                     | None => Raise (AttributeError "NoneType" "data")
                     end
                else Ok top1);
      forward_decoder_loop ts' feats captions teacher_forcing_ratio rand outputs output hidden
  end.

Definition forward_decoder (batch_size vocab_size : nat) (hidden : list Hidden)
    (feats : list Feat) (captions : option (list (list nat)))
    (teacher_forcing_ratio : Q) (rand : nat → Q)
  : result (list (list (list Q))) :=
  let outputs := replicate (max_caption_len + 2) (replicate batch_size (replicate vocab_size 0%Q)) in
  SOS_idx ← dict_get (word2idx vocab) "<SOS>";
  forward_decoder_loop (seq 1 (max_caption_len + 1)) feats captions teacher_forcing_ratio rand
    outputs (replicate batch_size SOS_idx) hidden.

Definition forward (feats : list Feat) (captions : option (list (list nat)))
    (teacher_forcing_ratio : Q) (rand : nat → Q)
  : result (list (list (list Q))) :=
  let batch_size := length feats in
  let vocab_size := output_size in
  let hidden := get_rnn_init_hidden batch_size in
  forward_decoder batch_size vocab_size hidden feats captions teacher_forcing_ratio rand.

(** Greedy decoding in the words of the specification: from [<SOS>] and
    the zero state, [max_caption_len + 1] steps, the token chosen at each
    step being the argmax of that step's decoder output. *)
Fixpoint greedy_loop (n : nat) (feats : list Feat) (output : list nat)
    (hidden : list Hidden) (paths : list (list nat)) : result (list (list nat)) :=
  match n with
  | O => Ok paths
  | S n' =>
      let '(out, hidden) := decoder output hidden feats in
      top1 ← mapM argmax out;
      greedy_loop n' feats top1 hidden (zip_with (λ p tok, p ++ [tok]) paths top1)
  end.

Definition greedy_decode (feats : list Feat) : result (list (list nat)) :=
  let batch_size := length feats in
  SOS_idx ← dict_get (word2idx vocab) "<SOS>";
  paths ← greedy_loop (max_caption_len + 1) feats (replicate batch_size SOS_idx)
            (get_rnn_init_hidden batch_size) (replicate batch_size []);
  Ok ((λ p : list nat, SOS_idx :: p) <$> (paths : list (list nat))).

(** The scores of one beam slot, from the decoder's output, the paths of
    the slot and its cumulative log-probabilities: the masked and
    accumulated scores, and the length-normalised scores.  Each tensor
    operation rounds its results. *)
Definition slot_scores (alpha : Q) (EOS_idx t : nat) (caption_list : list (list nat))
    (output : list (list Q)) (cum_prob : list Q) : list (list Q) * list (list Q) :=
  let EOS_mask :=
    (λ caption : list nat, if bool_decide (EOS_idx ∈ caption) then 0%Q else 1%Q) <$> caption_list in
  let output := zip_with (λ m (row : list Q), (λ x, rnd (m * x))%Q <$> row) EOS_mask output in
  let output := zip_with (λ c (row : list Q), (λ x, rnd (x + c))%Q <$> row) cum_prob output in
  let caption_lens := caption_len EOS_idx t <$> caption_list in
  let normalizing_factor :=
    (λ len : nat, rnd (fpow (rnd (5 + inject_Z (Z.of_nat len))) alpha / fpow 6 alpha))%Q
    <$> caption_lens in
  let normalized_output :=
    zip_with (λ f (row : list Q), (λ x, rnd (x / f))%Q <$> row) normalizing_factor output in
  (output, normalized_output).

(** The body of the loop over beam slots, for slot [i]. *)
Definition beam_slot (batch_size : nat) (feats : list Feat) (alpha : Q) (EOS_idx t : nat)
    (output_list : list (list (list nat)))
    (slot : nat * (list nat * (list Hidden * list Q)))
  : result (list (list Q) * list (list Q) * list Hidden) :=
  let '(i, (input, (hidden, cum_prob))) := slot in
  let '(output, next_hidden) := decoder input hidden feats in
  caption_list ← mapM (λ b, ol ← getitem output_list b; getitem ol i) (seq 0 batch_size);
  let '(output, normalized_output) :=
    slot_scores alpha EOS_idx t caption_list output cum_prob in
  Ok (output, normalized_output, next_hidden).

(** The selection loop for batch element [i]: for each chosen candidate
    the source slot's state, its unnormalised score and its path extended
    by the chosen token. *)
Definition beam_gather (vocab_size : nat)
    (beam_hidden_list : list (list Hidden)) (beam_output_list : list (list Q))
    (output_list : list (list (list nat)))
    (row : nat * (list nat * list nat))
  : result (list (Hidden * Q * list nat)) :=
  let '(i, (beam_index, output_index)) := row in
  mapM (λ '(bi, oi),
          h ← (hb ← getitem beam_hidden_list bi; getitem hb i);
          c ← (r ← getitem beam_output_list i; getitem r (vocab_size * bi + oi));
          p ← (ol ← getitem output_list i; getitem ol bi);
          Ok (h, c, p ++ [oi]))
       (zip beam_index output_index).

(** One iteration of the loop over [t] in [beam_search]. *)
Definition beam_step (batch_size vocab_size : nat) (feats : list Feat)
    (width : nat) (alpha : Q) (EOS_idx t : nat) (st : beam_state Hidden)
  : result (beam_state Hidden) :=
  _ ← py_assert (bool_decide (length (input_list st) = length (hidden_list st))
                 && bool_decide (length (hidden_list st) = length (cum_prob_list st)));
  slots ← mapM (beam_slot batch_size feats alpha EOS_idx t (output_list st))
             (enumerate (zip (input_list st) (zip (hidden_list st) (cum_prob_list st))));
  let beam_hidden_list := (λ s, s.2) <$> slots in
  beam_output_list ← cat_dim1 batch_size ((λ s, s.1.1) <$> slots);
  normalized_beam_output_list ← cat_dim1 batch_size ((λ s, s.1.2) <$> slots);
  let beam_topk_output_index_list :=
    (λ row, take width (argsort_desc row)) <$> normalized_beam_output_list in
  let topk_beam_index :=
    (λ row : list nat, (λ x, x `div` vocab_size) <$> row) <$> beam_topk_output_index_list in
  let topk_output_index :=
    (λ row : list nat, (λ x, x `mod` vocab_size) <$> row) <$> beam_topk_output_index_list in
  topk_output_list ←
    mapM (λ i, mapM (λ row : list nat, getitem row i) topk_output_index) (seq 0 width);
  gathered ← mapM (beam_gather vocab_size beam_hidden_list beam_output_list (output_list st))
                (enumerate (zip topk_beam_index topk_output_index));
  let column {A} (proj : Hidden * Q * list nat → A) (k : nat) : list A :=
    omap (λ row : list (Hidden * Q * list nat), proj <$> row !! k) gathered in
  Ok (mkBeam topk_output_list
             (column (λ g, g.1.1) <$> seq 0 width)
             (column (λ g, g.1.2) <$> seq 0 width)
             ((λ row : list (Hidden * Q * list nat), (λ g, g.2) <$> row) <$> gathered)).

Fixpoint beam_loop (batch_size vocab_size : nat) (feats : list Feat)
    (width : nat) (alpha : Q) (EOS_idx : nat) (ts : list nat) (st : beam_state Hidden)
  : result (beam_state Hidden) :=
  match ts with
  | [] => Ok st
  | t :: ts' =>
      st ← beam_step batch_size vocab_size feats width alpha EOS_idx t st;
      beam_loop batch_size vocab_size feats width alpha EOS_idx ts' st
  end.

(** The lists before the first step: one slot, [<SOS>], the zero state,
    [log 1 = 0] and an empty path. *)
Definition beam_init (batch_size SOS_idx : nat) : beam_state Hidden :=
  mkBeam [replicate batch_size SOS_idx]
         [get_rnn_init_hidden batch_size]
         [replicate batch_size 0%Q]
         (replicate batch_size [[]]).

Definition beam_search (batch_size vocab_size : nat) (feats : list Feat)
    (width : nat) (alpha : Q) : result (list (list nat)) :=
  SOS_idx ← dict_get (word2idx vocab) "<SOS>";
  EOS_idx ← dict_get (word2idx vocab) "<EOS>";
  st ← beam_loop batch_size vocab_size feats width alpha EOS_idx
         (seq 0 (max_caption_len + 1)) (beam_init batch_size SOS_idx);
  SOS_idx ← dict_get (word2idx vocab) "<SOS>";
  mapM (λ o : list (list nat), p ← getitem o 0; Ok (SOS_idx :: p)) (output_list st).

Definition describe (feats : list Feat) (beam_width : nat) (beam_alpha : Q)
  : result (list (list nat)) :=
  let batch_size := length feats in
  let vocab_size := output_size in
  beam_search batch_size vocab_size feats beam_width beam_alpha.

End CaptionGenerator.

(** ** Python dictionaries, in insertion order *)

Section PyDict.

Context {K : Type} `{EqDecision K} {V : Type}.

(** [k in d] *)
Definition pd_contains (d : list (K * V)) (k : K) : bool :=
  bool_decide (k ∈ d.*1).

(** [d[k] = v]: in place for a known key, at the end for a new one. *)
Fixpoint pd_set (d : list (K * V)) (k : K) (v : V) : list (K * V) :=
  match d with
  | [] => [(k, v)]
  | (k', v') :: d' => if decide (k = k') then (k, v) :: d' else (k', v') :: pd_set d' k v
  end.

(** [d[k]] *)
Fixpoint pd_get (d : list (K * V)) (k : K) : result V :=
  match d with
  | [] => Raise KeyError
  | (k', v') :: d' => if decide (k = k') then Ok v' else pd_get d' k
  end.

(** [{ k: v for k, v in l }] and [d.update(l)] *)
Definition pd_update (d : list (K * V)) (l : list (K * V)) : list (K * V) :=
  fold_left (λ d kv, pd_set d kv.1 kv.2) l d.

Definition pd_of_list (l : list (K * V)) : list (K * V) := pd_update [] l.

End PyDict.

(** A sequence value: a list, or a view on a dictionary ([dict_keys],
    [dict_values]).  Both have a length and can be iterated; only a list
    can be sliced. *)
Inductive pyseq (A : Type) : Type :=
| PyList (l : list A)
| PyView (kind : string) (l : list A).
Arguments PyList {A} l.
Arguments PyView {A} kind l.

Definition pyseq_iter {A} (s : pyseq A) : list A :=
  match s with
  | PyList l | PyView _ l => l
  end.

Definition pyseq_len {A} (s : pyseq A) : nat := length (pyseq_iter s).

Definition not_subscriptable (kind : string) : exn :=
  TypeError ("'" +:+ kind +:+ "' object is not subscriptable").

(** [s[:n]] *)
Definition getslice_to {A} (s : pyseq A) (n : nat) : result (list A) :=
  match s with
  | PyList l => Ok (take n l)
  | PyView kind _ => Raise (not_subscriptable kind)
  end.

(** [s[n:]] *)
Definition getslice_from {A} (s : pyseq A) (n : nat) : result (pyseq A) :=
  match s with
  | PyList l => Ok (PyList (drop n l))
  | PyView kind _ => Raise (not_subscriptable kind)
  end.

(** [d.keys()], [d.values()] *)
Definition pd_keys {K V} (d : list (K * V)) : pyseq K := PyView "dict_keys" d.*1.
Definition pd_values {K V} (d : list (K * V)) : pyseq V := PyView "dict_values" d.*2.

(** [set(d.keys())] *)
Definition key_set {V} (d : list (string * V)) : gset string :=
  list_to_set (pyseq_iter (pd_keys d)).

(** ** [utils.py]: captions, scores and reports *)

(** The loop of [idxs_to_sentence], up to the first [EOS_idx]. *)
Fixpoint idxs_words (idxs : list nat) (idx2word : gmap nat string) (EOS_idx : nat)
  : result (list string) :=
  match idxs with
  | [] => Ok []
  | idx :: rest =>
      if bool_decide (idx = EOS_idx) then Ok []
      else word ← dict_get idx2word idx;
           words ← idxs_words rest idx2word EOS_idx;
           Ok (word :: words)
  end.

Definition idxs_to_sentence (idxs : list nat) (idx2word : gmap nat string) (EOS_idx : nat)
  : result string :=
  words ← idxs_words (drop 1 idxs) idx2word EOS_idx;
  Ok (String.concat " " words).

(** [captions.transpose(0, 1)] *)
Definition transpose {A} (m : list (list A)) : list (list A) :=
  (λ b, omap (λ row : list A, row !! b) m) <$> seq 0 (length (hd [] m)).

Section Pipeline.

Context {Model Stream Feat : Type}.

Variable torch_cat_dim2 : list Stream → list Feat.
(** [model.describe(feats, beam_width, beam_alpha)] *)
Variable describe : Model → list Feat → nat → Q → result (list (list nat)).
(** [Bleu(4).compute_score(ref, hypo)[0]]: the four corpus scores. *)
Variable Bleu_compute_score :
  list (nat * list string) → list (nat * list string) → list Q.

(** The first loop of [build_onlyonce_iter]: the first feature tensor
    seen for a video id is kept. *)
Definition onlyonce_add (onlyonce_dataset : list (string * Feat)) (vf : string * Feat)
  : list (string * Feat) :=
  if pd_contains onlyonce_dataset vf.1 then onlyonce_dataset
  else pd_set onlyonce_dataset vf.1 vf.2.

Definition onlyonce_add_batch (onlyonce_dataset : list (string * Feat))
    (batch : Batch Stream) : list (string * Feat) :=
  let '(vids, feats, _) := parse_batch torch_cat_dim2 batch in
  fold_left onlyonce_add (zip vids feats) onlyonce_dataset.

Definition build_onlyonce_dataset (data_iter : list (Batch Stream)) : list (string * Feat) :=
  fold_left onlyonce_add_batch data_iter [].

(** The [while len(vids) > 0] loop of [build_onlyonce_iter]. *)
Fixpoint rebatch_loop (fuel batch_size : nat) (vids : pyseq string) (feats : pyseq Feat)
    (onlyonce_iter : list (list string * list Feat))
  : result (list (list string * list Feat)) :=
  if bool_decide (0 < pyseq_len vids) then
    match fuel with
    | O => Raise (RuntimeError "the loop did not end")
    | S fuel' =>
        v ← getslice_to vids batch_size;
        f ← getslice_to feats batch_size;
        vids ← getslice_from vids batch_size;
        feats ← getslice_from feats batch_size;
        rebatch_loop fuel' batch_size vids feats (onlyonce_iter ++ [(v, f)])
    end
  else Ok onlyonce_iter.

Definition build_onlyonce_iter (data_iter : list (Batch Stream))
  : result (list (list string * list Feat)) :=
  let onlyonce_dataset := build_onlyonce_dataset data_iter in
  let vids := pd_keys onlyonce_dataset in
  let feats := pd_values onlyonce_dataset in
  let batch_size := 100 in
  rebatch_loop (pyseq_len vids) batch_size vids feats [].

(** The loop of [get_predicted_captions] over the re-batched videos. *)
Fixpoint predict_loop (model : Model) (vocab : Vocab) (beam_width : nat) (beam_alpha : Q)
    (EOS_idx : nat) (onlyonce_iter : list (list string * list Feat))
    (vid2pred : list (string * string)) : result (list (string * string)) :=
  match onlyonce_iter with
  | [] => Ok vid2pred
  | (vids, feats) :: rest =>
      captions ← describe model feats beam_width beam_alpha;
      captions ← mapM (λ caption, idxs_to_sentence caption (idx2word vocab) EOS_idx) captions;
      predict_loop model vocab beam_width beam_alpha EOS_idx rest
        (pd_update vid2pred (zip vids captions))
  end.

Definition get_predicted_captions (data_iter : list (Batch Stream)) (model : Model)
    (vocab : Vocab) (beam_width : nat) (beam_alpha : Q)
  : result (list (string * string)) :=
  onlyonce_iter ← build_onlyonce_iter data_iter;
  EOS_idx ← dict_get (word2idx vocab) "<EOS>";
  predict_loop model vocab beam_width beam_alpha EOS_idx onlyonce_iter [].

(** The inner loop of [get_groundtruth_captions]. *)
Fixpoint groundtruth_batch (vocab : Vocab) (EOS_idx : nat)
    (pairs : list (string * list nat)) (vid2GTs : list (string * list string))
  : result (list (string * list string)) :=
  match pairs with
  | [] => Ok vid2GTs
  | (vid, caption) :: rest =>
      let vid2GTs := if pd_contains vid2GTs vid then vid2GTs else pd_set vid2GTs vid [] in
      caption ← idxs_to_sentence caption (idx2word vocab) EOS_idx;
      GTs ← pd_get vid2GTs vid;
      groundtruth_batch vocab EOS_idx rest (pd_set vid2GTs vid (GTs ++ [caption]))
  end.

Fixpoint groundtruth_loop (vocab : Vocab) (EOS_idx : nat)
    (data_iter : list (Batch Stream)) (vid2GTs : list (string * list string))
  : result (list (string * list string)) :=
  match data_iter with
  | [] => Ok vid2GTs
  | batch :: rest =>
      let '(vids, _, captions) := parse_batch torch_cat_dim2 batch in
      let captions := transpose captions in
      vid2GTs ← groundtruth_batch vocab EOS_idx (zip vids captions) vid2GTs;
      groundtruth_loop vocab EOS_idx rest vid2GTs
  end.

Definition get_groundtruth_captions (data_iter : list (Batch Stream)) (vocab : Vocab)
  : result (list (string * list string)) :=
  EOS_idx ← dict_get (word2idx vocab) "<EOS>";
  groundtruth_loop vocab EOS_idx data_iter [].

(** [calc_scores(ref, hypo)]: the scores of the one scorer, under its
    four names. *)
Definition calc_scores (ref hypo : list (nat * list string)) : list (string * Q) :=
  let method := ["Bleu_1"; "Bleu_2"; "Bleu_3"; "Bleu_4"] in
  let score := Bleu_compute_score ref hypo in
  pd_update [] (zip method score).

Definition score (vid2pred : list (string * string)) (vid2GTs : list (string * list string))
  : result (list (string * Q)) :=
  _ ← py_assert (bool_decide (key_set vid2pred = key_set vid2GTs));
  let vid2idx := pd_of_list ((λ iv : nat * string, (iv.2, iv.1))
                               <$> enumerate (pyseq_iter (pd_keys vid2pred))) in
  refs ← mapM (λ item : string * list string,
                 i ← pd_get vid2idx item.1; Ok (i, item.2)) vid2GTs;
  hypos ← mapM (λ item : string * string,
                  i ← pd_get vid2idx item.1; Ok (i, [item.2])) vid2pred;
  Ok (calc_scores (pd_of_list refs) (pd_of_list hypos)).

Definition evaluate (data_iter : list (Batch Stream)) (model : Model) (vocab : Vocab)
    (beam_width : nat) (beam_alpha : Q) : result (list (string * Q)) :=
  vid2pred ← get_predicted_captions data_iter model vocab 5 0%Q;
  vid2GTs ← get_groundtruth_captions data_iter vocab;
  score vid2pred vid2GTs.

End Pipeline.

(** ** [save_result] *)

Section SaveResult.

(** The file system and the operations [save_result] performs on it. *)
Context {FS : Type}.
Variable dirname : string → string.
Variable path_exists : FS → string → bool.
Variable makedirs : FS → string → result FS.
Variable open_w : FS → string → result FS.
Variable write : FS → string → string → result FS.

(** One line of the report: [', '.join([str(vid), pred, GTs])]. *)
Definition report_line (vid2pred : list (string * string))
    (vid2GTs : list (string * list string)) (vid : string) : result string :=
  GTs ← pd_get vid2GTs vid;
  let GTs := String.concat " / " GTs in
  pred ← pd_get vid2pred vid;
  let line := String.concat ", " [vid; pred; GTs] in
  Ok (line +:+ String (Ascii.ascii_of_nat 10) "").

Fixpoint write_lines (vid2pred : list (string * string))
    (vid2GTs : list (string * list string)) (save_fpath : string)
    (vids : list string) (fs : FS) : result FS :=
  match vids with
  | [] => Ok fs
  | vid :: rest =>
      line ← report_line vid2pred vid2GTs vid;
      fs ← write fs save_fpath line;
      write_lines vid2pred vid2GTs save_fpath rest fs
  end.

Definition save_result (vid2pred : list (string * string))
    (vid2GTs : list (string * list string)) (save_fpath : string) (fs : FS)
  : result FS :=
  _ ← py_assert (bool_decide (key_set vid2pred = key_set vid2GTs));
  let save_dpath := dirname save_fpath in
  fs ← (if path_exists fs save_dpath then Ok fs else makedirs fs save_dpath);
  let vids := pd_keys vid2pred in
  fs ← open_w fs save_fpath;
  write_lines vid2pred vid2GTs save_fpath (pyseq_iter vids) fs.

(** What [save_result] does to the file system once the lines are known. *)
Fixpoint write_all (save_fpath : string) (lines : list string) (fs : FS) : result FS :=
  match lines with
  | [] => Ok fs
  | line :: rest => fs ← write fs save_fpath line; write_all save_fpath rest fs
  end.

Definition write_report (save_fpath : string) (lines : list string) (fs : FS) : result FS :=
  fs ← (if path_exists fs (dirname save_fpath) then Ok fs
        else makedirs fs (dirname save_fpath));
  fs ← open_w fs save_fpath;
  write_all save_fpath lines fs.

End SaveResult.

(** ** [cls_to_dict], [Struct], [dict_to_cls] *)

(** The Python values that occur in configurations: numbers, strings,
    dictionaries with string keys, class objects and [Struct] instances.
    A class object and an instance are given by the attributes that
    [dir] lists and [getattr] reads. *)
Inductive value : Type :=
| VNone
| VBool (b : bool)
| VInt (n : Z)
| VFloat (q : Q)
| VStr (s : string)
| VDict (d : gmap string value)
| VClass (attrs : gmap string value)
| VStruct (attrs : gmap string value).

(** [p.startswith("__")] *)
Definition dunder (p : string) : bool := String.prefix "__" p.

(** The truth value of [v] in a condition. *)
Definition truthy (v : value) : bool :=
  match v with
  | VNone => false
  | VBool b => b
  | VInt n => negb (n =? 0)%Z
  | VFloat q => negb (Qeq_bool q 0)
  | VStr s => negb (bool_decide (s = ""))
  | VDict d => negb (bool_decide (size d = 0))
  | VClass _ | VStruct _ => true
  end.

(** The loop of [cls_to_dict] over the properties: names starting with two
    underscores are dropped, the others get the value computed by [f]. *)
Definition over_properties (f : value → value) (attrs : gmap string value)
  : gmap string value :=
  map_imap (λ p v, if dunder p then None else Some (f v)) attrs.

(** The value stored at [d[p]] by [cls_to_dict]: a class becomes its own
    dictionary, with the marker. *)
Fixpoint cls_to_dict_value (v : value) : value :=
  match v with
  | VClass attrs =>
      VDict (<["was_class" := VBool true]> (over_properties cls_to_dict_value attrs))
  | _ => v
  end.

Definition cls_to_dict (cls : gmap string value) : gmap string value :=
  over_properties cls_to_dict_value cls.

(** A traversal of a mapping by a function that may raise. *)
Definition map_mapM {A B} (f : string → A → result B) (m : gmap string A)
  : result (gmap string B) :=
  map_fold (λ k a acc, m' ← acc; b ← f k a; Ok (<[k := b]> m')) (Ok ∅) m.

(** [Struct] called with the entries as keyword arguments: they become
    the attributes; an entry named like the constructor's own parameter is
    refused. *)
Definition Struct (entries : gmap string value) : result (gmap string value) :=
  match entries !! "self" with
  | Some _ => Raise (TypeError "__init__() got multiple values for argument 'self'")
  | None => Ok entries
  end.

(** [isinstance(v, dict) and 'was_class' in v and v['was_class']] *)
Definition was_class (v : value) : option (gmap string value) :=
  match v with
  | VDict d =>
      match d !! "was_class" with
      | Some w => if truthy w then Some d else None
      | None => None
      end
  | _ => None
  end.

(** The value set back by the loop of [dict_to_cls]; the attributes of
    [Struct(d)], when it is built, are the entries of [d]. *)
Fixpoint dict_to_cls_value (v : value) : result value :=
  match v with
  | VDict d =>
      match d !! "was_class" with
      | Some w =>
          if truthy w then
            _ ← Struct d;
            cls ← map_mapM (λ p v', if dunder p then Ok v' else dict_to_cls_value v') d;
            Ok (VStruct cls)
          else Ok v
      | None => Ok v
      end
  | _ => Ok v
  end.

Definition dict_to_cls (d : gmap string value) : result value :=
  _ ← Struct d;
  cls ← map_mapM (λ p v', if dunder p then Ok v' else dict_to_cls_value v') d;
  Ok (VStruct cls).

(** The public attributes of an object, level by level, whether it is a
    class or a [Struct]. *)
Fixpoint public_tree (v : value) : value :=
  match v with
  | VClass attrs | VStruct attrs => VStruct (over_properties public_tree attrs)
  | _ => v
  end.

(** Does some [Struct] inside [v] have an attribute [was_class]? *)
Fixpoint has_marker (v : value) : bool :=
  match v with
  | VStruct attrs =>
      bool_decide (is_Some (attrs !! "was_class"))
      || map_fold (λ _ v' acc, has_marker v' || acc) false attrs
  | _ => false
  end.

(** The round trip as the specification states it. *)
Definition roundtrip_as_specified (cls : gmap string value) : Prop :=
  ∃ s, dict_to_cls (cls_to_dict cls) = Ok s
       ∧ public_tree s = public_tree (VClass cls)
       ∧ has_marker s = false.

(** What the round trip builds: the [Struct] with the public attributes of
    the class, each nested class rebuilt in the same way and given the
    attribute [was_class = True]. *)
Fixpoint rebuilt_value (v : value) : value :=
  match v with
  | VClass attrs =>
      VStruct (<["was_class" := VBool true]> (over_properties rebuilt_value attrs))
  | _ => v
  end.

Definition rebuilt (cls : gmap string value) : value :=
  VStruct (over_properties rebuilt_value cls).

(** Configuration classes: every public attribute is a plain value or a
    nested configuration class, and none is called [self]. *)
Definition plain (v : value) : bool :=
  match v with
  | VNone | VBool _ | VInt _ | VFloat _ | VStr _ => true
  | _ => false
  end.

Fixpoint config_value (v : value) : bool :=
  match v with
  | VClass attrs =>
      bool_decide (attrs !! "self" = None)
      && map_fold (λ p v' acc, (dunder p || config_value v') && acc) true attrs
  | _ => plain v
  end.

Definition config_class (cls : gmap string value) : bool := config_value (VClass cls).

(** A measure for induction on values. *)
Fixpoint value_size (v : value) : nat :=
  match v with
  | VDict d | VClass d | VStruct d => S (map_fold (λ _ v' acc, value_size v' + acc) 0 d)
  | _ => 0
  end.

(** ** The values computed by one step of [beam_search]

    When no index is out of range, one iteration of the loop of
    [beam_search] computes the following values. *)

(** [tok] is a position of a greatest entry of [row]. *)
Definition is_argmax (row : list Q) (tok : nat) : Prop :=
  ∃ v, row !! tok = Some v ∧ ∀ j w, row !! j = Some w → (w <= v)%Q.


Section BeamValues.

Context {Hidden Feat : Type}.
Variable decoder : list nat → list Hidden → list Feat → list (list Q) * list Hidden.
Variable zero_hidden : Hidden.
Variable fpow : Q → Q → Q.
Variable rnd : Q → Q.

(** The decoder returns one row of [V] log-probabilities and one state per
    batch element. *)
Definition decoder_shape (V : nat) : Prop :=
  ∀ input hidden feats,
    length input = length feats → length hidden = length feats →
    shape2 (length feats) V (decoder input hidden feats).1
    ∧ length (decoder input hidden feats).2 = length feats.




(** [[ output_list[b][i] for b in range(batch_size) ]] *)
Definition path_column (output_list : list (list (list nat))) (i : nat) : list (list nat) :=
  (λ ol : list (list nat), default [] (ol !! i)) <$> output_list.

Definition slot_value (feats : list Feat) (alpha : Q) (EOS_idx t : nat)
    (output_list : list (list (list nat)))
    (slot : nat * (list nat * (list Hidden * list Q)))
  : list (list Q) * list (list Q) * list Hidden :=
  let dec := decoder slot.2.1 slot.2.2.1 feats in
  (slot_scores fpow rnd alpha EOS_idx t (path_column output_list slot.1) dec.1 slot.2.2.2, dec.2).

Definition cat_value {A} (nrows : nat) (ts : list (list (list A))) : list (list A) :=
  foldr (zip_with app) (replicate nrows []) ts.

Definition gather_value (vocab_size : nat)
    (beam_hidden_list : list (list Hidden)) (beam_output_list : list (list Q))
    (output_list : list (list (list nat)))
    (row : nat * (list nat * list nat)) : list (Hidden * Q * list nat) :=
  (λ bo : nat * nat,
     (default zero_hidden (beam_hidden_list !! bo.1 ≫= λ hb, hb !! row.1),
      default 0%Q (beam_output_list !! row.1 ≫= λ r, r !! (vocab_size * bo.1 + bo.2)),
      default [] (output_list !! row.1 ≫= λ ol, ol !! bo.1) ++ [bo.2]))
  <$> zip row.2.1 row.2.2.

Definition beam_step_value (batch_size vocab_size : nat) (feats : list Feat)
    (width : nat) (alpha : Q) (EOS_idx t : nat) (st : beam_state Hidden)
  : beam_state Hidden :=
  let slots := slot_value feats alpha EOS_idx t (output_list st)
                 <$> enumerate (zip (input_list st) (zip (hidden_list st) (cum_prob_list st))) in
  let beam_hidden_list := (λ s, s.2) <$> slots in
  let beam_output_list := cat_value batch_size ((λ s, s.1.1) <$> slots) in
  let normalized_beam_output_list := cat_value batch_size ((λ s, s.1.2) <$> slots) in
  let beam_topk_output_index_list :=
    (λ row, take width (argsort_desc row)) <$> normalized_beam_output_list in
  let topk_beam_index :=
    (λ row : list nat, (λ x, x `div` vocab_size) <$> row) <$> beam_topk_output_index_list in
  let topk_output_index :=
    (λ row : list nat, (λ x, x `mod` vocab_size) <$> row) <$> beam_topk_output_index_list in
  let topk_output_list :=
    (λ i, (λ row : list nat, default 0 (row !! i)) <$> topk_output_index) <$> seq 0 width in
  let gathered := gather_value vocab_size beam_hidden_list beam_output_list (output_list st)
                    <$> enumerate (zip topk_beam_index topk_output_index) in
  let column {A} (proj : Hidden * Q * list nat → A) (k : nat) : list A :=
    omap (λ row : list (Hidden * Q * list nat), proj <$> row !! k) gathered in
  mkBeam topk_output_list
         (column (λ g, g.1.1) <$> seq 0 width)
         (column (λ g, g.1.2) <$> seq 0 width)
         ((λ row : list (Hidden * Q * list nat), (λ g, g.2) <$> row) <$> gathered).



(** The shape of the working lists before step [t]: [nb] slots over a
    batch of [B], every path of length [t]. *)
Definition beam_inv (B nb t : nat) (st : beam_state Hidden) : Prop :=
  shape2 nb B (input_list st)
  ∧ shape2 nb B (hidden_list st)
  ∧ shape2 nb B (cum_prob_list st)
  ∧ shape3 B nb t (output_list st).

End BeamValues.

(** ** Example inputs *)

(** A vocabulary of four words. *)
Definition example_vocab : Vocab :=
  mkVocab (list_to_map [("<PAD>", 0); ("<SOS>", 1); ("<EOS>", 2); ("a", 3)])
          (list_to_map [(0, "<PAD>"); (1, "<SOS>"); (2, "<EOS>"); (3, "a")])
          4.

(** A decoder without state whose scores depend on the previous token
    only: after [<SOS>] it prefers [<EOS>], after [<EOS>] it prefers ["a"]. *)
Definition example_row (token : nat) : list Q :=
  match token with
  | 2 => [-4 # 1; -3 # 1; -2 # 1; -1 # 1]%Q
  | _ => [-4 # 1; -3 # 1; -1 # 1; -2 # 1]%Q
  end.

Definition example_decoder (input : list nat) (hidden : list unit) (feats : list unit)
  : list (list Q) * list unit :=
  (example_row <$> input, hidden).

(** [x ** 0], the power at the default [beam_alpha = 0]. *)
Definition fpow_zero (x alpha : Q) : Q := 1%Q.

(** A decoder without state that returns the same scores at every step:
    two single-precision numbers that differ in the last place, the
    greater at index 1, and two small ones. *)
Definition close_row : list Q :=
  [- (11629081 # 16777216); - (11629080 # 16777216); - (30 # 1); - (30 # 1)]%Q.

Definition close_decoder (input : list nat) (hidden : list unit) (feats : list unit)
  : list (list Q) * list unit :=
  ((λ _, close_row) <$> input, hidden).

(** A configuration class with a nested class. *)
Definition example_config : gmap string value :=
  {[ "lr" := VFloat (1 # 1000);
     "decoder" := VClass {[ "hidden_size" := VInt 512; "rnn_type" := VStr "LSTM" ]} ]}.

(** ** [test] *)

Section Validation.

Context {Model Stream Feat : Type}.

Variable torch_cat_dim2 : list Stream → list Feat.
Variable forward : Model → list Feat → list (list nat) → Q → list (list (list Q)).
Variable nll_loss : list (list Q) → list nat → nat → Q.
Variable softmax_dim1 log_softmax_dim1 : list (list (list Q)) → list (list (list Q)).

(** The body of the loop of [test]: [model(feats, captions)] leaves the
    teacher-forcing ratio at its default 0. *)
Definition test_batch (reg_lambda : Q) (PAD_idx : nat) (model : Model)
    (loss_checker : LossChecker.t) (batch : Batch Stream) : result LossChecker.t :=
  let '(_, feats, captions) := parse_batch torch_cat_dim2 batch in
  let output := forward model feats captions 0%Q in
  let cross_entropy_loss :=
    nll_loss (concat (drop 1 output)) (concat (drop 1 captions)) PAD_idx in
  (* [losses.entropy_loss(...)]: the name [losses] is read first *)
  _ ← load_global "losses";
  entropy_loss ← entropy_loss softmax_dim1 log_softmax_dim1 (drop 1 output)
                   ((λ row : list nat, (λ c, bool_decide (c = PAD_idx)) <$> row) <$> drop 1 captions);
  let loss := (cross_entropy_loss + reg_lambda * entropy_loss)%Q in
  LossChecker.update loss_checker [loss; cross_entropy_loss; entropy_loss].

Fixpoint test_loop (reg_lambda : Q) (PAD_idx : nat) (model : Model)
    (val_iter : list (Batch Stream)) (loss_checker : LossChecker.t)
  : result LossChecker.t :=
  match val_iter with
  | [] => Ok loss_checker
  | batch :: rest =>
      loss_checker ← test_batch reg_lambda PAD_idx model loss_checker batch;
      test_loop reg_lambda PAD_idx model rest loss_checker
  end.

(** [test(model, val_iter, vocab, reg_lambda)] *)
Definition test (model : Model) (val_iter : list (Batch Stream)) (vocab : Vocab)
    (reg_lambda : Q) : result Losses :=
  let loss_checker := LossChecker.init 3 in
  PAD_idx ← dict_get (word2idx vocab) "<PAD>";
  loss_checker ← test_loop reg_lambda PAD_idx model val_iter loss_checker;
  means ← LossChecker.mean loss_checker 0;
  match means with
  | [total_loss; cross_entropy_loss; entropy_loss] =>
      Ok (mkLosses total_loss cross_entropy_loss entropy_loss)
  | _ => Raise (RuntimeError "ValueError: unpacking")
  end.

End Validation.

(** ** Teacher forcing *)

(** At step [t] the captions are consulted only when the draw is below the
    ratio; they then have a row [t], of the width [B] of the batch. *)
Definition teacher_row_available (B : nat) (captions : option (list (list nat)))
    (ratio : Q) (rand : nat → Q) (t : nat) : Prop :=
  Qlt_bool (rand t) ratio = true →
  ∃ c row, captions = Some c ∧ c !! t = Some row ∧ length row = B.

(** ** Beam paths *)


(** ** The streams read by the evaluation *)

Section Streams.

Context {Stream Feat : Type}.
Variable torch_cat_dim2 : list Stream → list Feat.

(** The pairs [(vid, feat)] in the order in which [build_onlyonce_iter]
    meets them. *)
Definition video_pairs (data_iter : list (Batch Stream)) : list (string * Feat) :=
  concat ((λ batch, let '(vids, feats, _) := parse_batch torch_cat_dim2 batch in
                    zip vids feats) <$> data_iter).

(** The pairs [(vid, caption)] in the order in which
    [get_groundtruth_captions] meets them. *)
Definition caption_pairs (data_iter : list (Batch Stream)) : list (string * list nat) :=
  concat ((λ batch, let '(vids, _, captions) := parse_batch torch_cat_dim2 batch in
                    zip vids (transpose captions)) <$> data_iter).

(** A batch as the data loader yields it: at least one feature stream
    (for [torch.cat]) and a caption tensor with at least one time step,
    all its rows of one width. *)
Definition batch_wf (batch : Batch Stream) : Prop :=
  batch_feats batch ≠ []
  ∧ batch_captions batch ≠ []
  ∧ ∃ B, Forall (λ row, length row = B) (batch_captions batch).

End Streams.

(** [d.get(k, [])]: the list stored under [k], empty for a missing key. *)
Definition pd_get_list {V} (d : list (string * list V)) (k : string) : list V :=
  match pd_get d k with
  | Ok l => l
  | Raise _ => []
  end.

(** ** Attributes named [self] *)

(** The exception of [Struct] on an entry named [self]. *)
Definition Struct_TypeError : exn :=
  TypeError "__init__() got multiple values for argument 'self'".

(** Some class reached from [v] through public attributes has an attribute
    [self].  An attribute [was_class] is not followed: in the dictionary of
    a nested class it is overwritten by the marker. *)
Fixpoint has_self (v : value) : bool :=
  match v with
  | VClass attrs =>
      bool_decide (is_Some (attrs !! "self"))
      || map_fold (λ p v' acc,
                     (negb (dunder p) && negb (bool_decide (p = "was_class")) && has_self v')
                     || acc) false attrs
  | _ => false
  end.

(** Some entry of [d] under a name that [dict_to_cls] visits satisfies [g]. *)
Definition some_visited (g : value → bool) (d : gmap string value) : bool :=
  map_fold (λ p v acc, (negb (dunder p) && g v) || acc) false d.

(** A dictionary that [dict_to_cls] turns into an object on its way has
    an entry [self]: [v] is a marked dictionary with such an entry, or one
    of the entries it visits is. *)
Fixpoint dict_has_self (v : value) : bool :=
  match v with
  | VDict d =>
      match d !! "was_class" with
      | Some w =>
          truthy w
          && (bool_decide (is_Some (d !! "self"))
              || map_fold (λ p v' acc, (negb (dunder p) && dict_has_self v') || acc) false d)
      | None => false
      end
  | _ => false
  end.

(** The same for the dictionary given to [dict_to_cls], which is turned
    into an object whether it is marked or not. *)
Definition self_entry (d : gmap string value) : bool :=
  bool_decide (is_Some (d !! "self")) || some_visited dict_has_self d.

(** ** Entries of a tensor *)

(** Every entry of a (T, B, V) tensor satisfies [P]. *)
Definition entries3 (P : Q → Prop) (x : list (list (list Q))) : Prop :=
  Forall (Forall (Forall P)) x.

(** A stand-in for softmax in examples: the same value at every entry. *)
Definition constant_entries (c : Q) (x : list (list (list Q))) : list (list (list Q)) :=
  (λ m : list (list Q), (λ row : list Q, (λ _, c) <$> row) <$> m) <$> x.

(** ** [models.py]: [Decoder.get_last_hidden]

    A contiguous tensor is its shape and its entries in row-major order. *)

Module Tensor.

Record t : Type := mk {
  shape : list nat;
  data : list Q
}.

Definition numel (s : list nat) : nat := foldr Nat.mul 1 s.

(** The number of entries agrees with the shape. *)
Definition wf (x : t) : Prop := length (data x) = numel (shape x).

(** [x.size(i)] *)
Definition size (x : t) (i : nat) : result nat := getitem (shape x) i.

(** [x.view(s1, ..., sn)] on a contiguous tensor: the same entries under another
    shape of the same number of entries. *)
Definition view (x : t) (s : list nat) : result t :=
  if bool_decide (numel s = numel (shape x)) then Ok (mk s (data x))
  else Raise (RuntimeError "shape is invalid for input size").

(** [x.transpose(2, 1).contiguous()] on a tensor of four axes: the entry
    at [(l, b, d, h)] is the entry of [x] at [(l, d, b, h)]. *)
Definition transpose_2_1 (x : t) : t :=
  match shape x with
  | [L; D; B; H] =>
      mk [L; B; D; H]
        (l ← seq 0 L; b ← seq 0 B; d ← seq 0 D; h ← seq 0 H;
         [default 0%Q (data x !! (((l * D + d) * B + b) * H + h))])
  | _ => x
  end.

(** [x[-1]]: the last slice along the first axis. *)
Definition last_slice (x : t) : result t :=
  match shape x with
  | [] => Raise IndexError
  | n :: rest =>
      if bool_decide (n = 0) then Raise IndexError
      else Ok (mk rest (take (numel rest) (drop ((n - 1) * numel rest) (data x))))
  end.

(** The entry of a tensor of three axes at [(i, j, k)], and of two axes at
    [(i, j)]. *)
Definition entry3 (x : t) (i j k : nat) : option Q :=
  match shape x with
  | [_; n1; n2] => data x !! ((i * n1 + j) * n2 + k)
  | _ => None
  end.

Definition entry2 (x : t) (i j : nat) : option Q :=
  match shape x with
  | [_; n1] => data x !! (i * n1 + j)
  | _ => None
  end.

End Tensor.


(** The state of the recurrent cell: [(h, c)] for an LSTM, [h] for a GRU. *)
Inductive rnn_hidden : Type :=
| HiddenTuple (h c : Tensor.t)
| HiddenTensor (h : Tensor.t).

(** [Decoder.get_last_hidden(self, hidden)] *)
Definition get_last_hidden (self : module_obj) (hidden : rnn_hidden) : result Tensor.t :=
  let last_hidden := match hidden with HiddenTuple h _ => h | HiddenTensor h => h end in
  num_layers ← getattr self "num_layers" ≫= as_int;
  num_directions ← getattr self "num_directions" ≫= as_int;
  size1 ← Tensor.size last_hidden 1;
  size2 ← Tensor.size last_hidden 2;
  last_hidden ← Tensor.view last_hidden [num_layers; num_directions; size1; size2];
  let last_hidden := Tensor.transpose_2_1 last_hidden in
  num_layers ← getattr self "num_layers" ≫= as_int;
  size1 ← Tensor.size last_hidden 1;
  num_directions ← getattr self "num_directions" ≫= as_int;
  size3 ← Tensor.size last_hidden 3;
  last_hidden ← Tensor.view last_hidden [num_layers; size1; num_directions * size3];
  Tensor.last_slice last_hidden.

(** * Properties *)

(** ** The result monad *)

Lemma bind_Ok {A B} (m : result A) (k : A → result B) (a : A) :
  m = Ok a → m ≫= k = k a.
Proof. by intros ->. Qed.

Lemma bind_Ok_inv {A B} (m : result A) (k : A → result B) (b : B) :
  m ≫= k = Ok b → ∃ a, m = Ok a ∧ k a = Ok b.
Proof. destruct m as [a|e]; [by exists a | done]. Qed.

Lemma getitem_Ok {A} (l : list A) (i : nat) (a : A) :
  l !! i = Some a → getitem l i = Ok a.
Proof. unfold getitem. by intros ->. Qed.

Lemma getitem_lt {A} (l : list A) (i : nat) :
  i < length l → ∃ a, l !! i = Some a ∧ getitem l i = Ok a.
Proof.
  intros Hi. destruct (lookup_lt_is_Some_2 l i Hi) as [a Ha].
  exists a. split; [done | by apply getitem_Ok].
Qed.

Lemma getitem_Ok_inv {A} (l : list A) (i : nat) (a : A) :
  getitem l i = Ok a → l !! i = Some a.
Proof. unfold getitem. destruct (l !! i); congruence. Qed.

(** [mapM] succeeds exactly when every call does. *)
Lemma mapM_Ok {A B} (f : A → result B) (g : A → B) (l : list A) :
  Forall (λ a, f a = Ok (g a)) l → mapM f l = Ok (g <$> l).
Proof.
  induction 1 as [|a l Ha _ IH]; [done|].
  cbn. rewrite Ha. cbn. by rewrite IH.
Qed.

Lemma mapM_Ok_length {A B} (f : A → result B) (l : list A) (k : list B) :
  mapM f l = Ok k → length k = length l.
Proof.
  revert k. induction l as [|a l IH]; intros k; cbn.
  - by intros [= <-].
  - destruct (f a) as [b|]; [|done]. cbn.
    destruct (mapM f l) as [bs|]; [|done]. cbn.
    intros [= <-]. cbn. f_equal. by apply IH.
Qed.

Lemma mapM_Ok_lookup {A B} (f : A → result B) (l : list A) (k : list B) i a :
  mapM f l = Ok k → l !! i = Some a → ∃ b, k !! i = Some b ∧ f a = Ok b.
Proof.
  revert k i. induction l as [|a' l IH]; intros k i; cbn; [done|].
  destruct (f a') as [b|] eqn:Hb; [|done]. cbn.
  destruct (mapM f l) as [bs|]; [|done]. cbn.
  intros [= <-]. destruct i as [|i]; cbn.
  - intros [= ->]. by exists b.
  - intros Hi. by apply IH.
Qed.

Lemma mapM_Ok_ex {A B} (f : A → result B) (l : list A) :
  Forall (λ a, ∃ b, f a = Ok b) l → ∃ k, mapM f l = Ok k.
Proof.
  induction 1 as [|a l [b Hb] _ [k IH]]; [by exists []|].
  exists (b :: k). cbn. rewrite Hb. cbn. by rewrite IH.
Qed.


(** ** [LossChecker] *)

Section LossCheckerFacts.

Import LossChecker.

Lemma py_slice_from_window {A} (last : nat) (l : list A) :
  py_slice_from (- Z.of_nat last) l = spec_window last l.
Proof.
  unfold py_slice_from, spec_window. destruct last as [|n].
  - cbn. by rewrite Z.min_l by lia.
  - replace (- Z.of_nat (S n) <? 0)%Z with true by (symmetry; apply Z.ltb_lt; lia).
    f_equal. lia.
Qed.

Lemma spec_window_nonempty {A} (last : nat) (l : list A) :
  l ≠ [] → spec_window last l ≠ [].
Proof.
  intros Hl. unfold spec_window. destruct last as [|n]; [done|].
  intros Hd. apply (f_equal length) in Hd. rewrite length_drop in Hd.
  destruct l; [done|]. cbn in Hd. lia.
Qed.

Lemma mean_of_nonempty (l : list Q) :
  l ≠ [] → mean_of l = Ok (py_sum l / inject_Z (Z.of_nat (length l)))%Q.
Proof. unfold mean_of. by destruct l. Qed.

Lemma mean_loop_spec (last : nat) (ls : list (list Q)) :
  Forall (λ loss, loss ≠ []) ls →
  ∀ i mean_losses, length mean_losses = i + length ls →
    mean_loop (Z.of_nat last) i ls mean_losses
    = Ok (take i mean_losses ++ (spec_mean last <$> ls)).
Proof.
  induction 1 as [|loss ls Hloss _ IH]; intros i ml Hlen; cbn.
  - rewrite take_ge by (cbn in Hlen; lia). by rewrite app_nil_r.
  - rewrite py_slice_from_window.
    rewrite mean_of_nonempty by by apply spec_window_nonempty.
    cbn. destruct (getitem_lt ml i) as (x & Hx & ->); [cbn in Hlen; lia|]. cbn.
    rewrite IH by (rewrite length_insert; cbn in Hlen; lia).
    f_equal. rewrite (take_S_r _ _ (spec_mean last loss)).
    + rewrite take_insert_ge by lia. by rewrite <- app_assoc.
    + apply list_lookup_insert_eq. cbn in Hlen. lia.
Qed.

Lemma update_loop_length (loss_vals : list Q) :
  ∀ i ls ls', update_loop i loss_vals ls = Ok ls' → length ls' = length ls.
Proof.
  induction loss_vals as [|v vs IH]; intros i ls ls'; cbn.
  - by intros [= <-].
  - destruct (getitem ls i) as [l|]; [|done]. cbn.
    intros H. apply IH in H. by rewrite length_insert in H.
Qed.

(** [init] and [update] keep one history per component. *)
Lemma wf_init (n : nat) : wf (init n).
Proof. unfold wf, init. cbn. apply length_replicate. Qed.

Lemma wf_update (lc lc' : t) (loss_vals : list Q) :
  wf lc → update lc loss_vals = Ok lc' → wf lc'.
Proof.
  unfold wf, update. intros Hwf H.
  apply bind_Ok_inv in H as (_ & _ & H).
  apply bind_Ok_inv in H as (ls & Hls & [= <-]). cbn.
  apply update_loop_length in Hls. congruence.
Qed.

(** C7. With two components, after [update(1,10)], [update(2,20)],
    [update(3,30)], [mean(last=2)] is [[2.5, 25.0]] and [mean()] is
    [[2.0, 20.0]]; the slice [loss[-last:]] that [mean] takes is the whole
    history for [last = 0] and the most recent [last] entries for
    [last > 0], and [mean] returns the mean of that window for every
    component. *)
Theorem C7_loss_checker_mean :
  (∃ lc m2 m0,
      (lc1 ← update (init 2) [1; 10]%Q;
       lc2 ← update lc1 [2; 20]%Q;
       update lc2 [3; 30]%Q) = Ok lc
      ∧ mean lc 2 = Ok m2 ∧ Forall2 Qeq m2 [5 # 2; 25 # 1]%Q
      ∧ mean lc 0 = Ok m0 ∧ Forall2 Qeq m0 [2 # 1; 20 # 1]%Q)
  ∧ (∀ loss : list Q, py_slice_from (- 0) loss = loss)
  ∧ (∀ (last : nat) (loss : list Q), 0 < last →
       py_slice_from (- Z.of_nat last) loss = drop (length loss - last) loss)
  ∧ (∀ (lc : t) (last : nat), wf lc → Forall (λ loss, loss ≠ []) (losses lc) →
       mean lc (Z.of_nat last) = Ok (spec_mean last <$> losses lc)).
Proof.
  repeat split.
  - eexists _, _, _. split; [vm_compute; reflexivity|].
    split; [vm_compute; reflexivity|].
    split; [repeat constructor|].
    split; [vm_compute; reflexivity | repeat constructor].
  - intros loss. apply (py_slice_from_window 0).
  - intros last loss Hlast. rewrite py_slice_from_window. by destruct last; [lia|].
  - intros lc last Hwf Hne. unfold mean.
    rewrite (mean_loop_spec last _ Hne 0); [done|].
    rewrite length_replicate. unfold wf in Hwf. lia.
Qed.

End LossCheckerFacts.

(** ** [entropy_loss] *)

Section EntropyFacts.

Variable softmax_dim1 log_softmax_dim1 : list (list (list Q)) → list (list (list Q)).

(** Softmax and log-softmax keep the shape of their argument. *)
Hypothesis softmax_shape :
  ∀ T B V x, shape3 T B V x → shape3 T B V (softmax_dim1 x).
Hypothesis log_softmax_shape :
  ∀ T B V x, shape3 T B V x → shape3 T B V (log_softmax_dim1 x).

Lemma shape2_lengths {A} (n m : nat) (x : list (list A)) :
  shape2 n m x → length <$> x = replicate n m.
Proof.
  intros [<- Hrows]. induction Hrows as [|row x Hrow _ IH]; [done|].
  cbn. by rewrite Hrow, IH.
Qed.

Lemma shape2_sum_mul (T B V : nat) (a b : list (list (list Q))) :
  shape3 T B V a → shape3 T B V b → shape2 T B (sum_dim2 (mul3 a b)).
Proof.
  intros [<- Ha] [Hlen Hb]. revert b Hlen Hb.
  induction Ha as [|ra a [Hra _] _ IH]; intros b Hlen Hb.
  - destruct b; [|done]. by split.
  - destruct Hb as [|rb b [Hrb _] Hb]; [done|].
    injection Hlen as Hlen. destruct (IH b Hlen Hb) as [IH1 IH2].
    split; cbn; [by f_equal|]. constructor; [|done].
    rewrite length_fmap, length_zip_with. lia.
Qed.

Lemma masked_zero_all (T B : nat) (b : list (list Q)) (mask : list (list bool)) :
  shape2 T B b → shape2 T B mask → Forall (Forall (λ m, m = true)) mask →
  masked_zero b mask = Ok (replicate T (replicate B 0%Q)).
Proof.
  intros Hb Hm Hall. unfold masked_zero, same_shape2.
  rewrite (shape2_lengths _ _ _ Hb), (shape2_lengths _ _ _ Hm).
  rewrite bool_decide_eq_true_2 by done. f_equal.
  destruct Hb as [<- Hb]. destruct Hm as [Hlen Hm].
  revert mask Hlen Hm Hall.
  induction Hb as [|rb b Hrb _ IH]; intros mask Hlen Hm Hall.
  - by destruct mask.
  - destruct Hm as [|rm mask Hrm Hm]; [done|].
    apply Forall_cons in Hall as [Hrow Hall]. injection Hlen as Hlen.
    cbn. f_equal; [|by apply IH].
    clear -Hrb Hrm Hrow. subst B. revert rb Hrm.
    induction Hrow as [|m rm Hmt _ IHr]; intros [|v rb]; try done.
    cbn. intros [= Hl]. subst m. f_equal. by apply IHr.
Qed.

Lemma sum_dim0_zeros (n T B : nat) :
  (T = 0 ∨ n = B) → sum_dim0 n (replicate T (replicate B 0%Q)) = replicate n 0%Q.
Proof.
  intros H. unfold sum_dim0. induction T as [|T IH]; [done|].
  destruct H as [H | ->]; [done|]. cbn.
  replace (zip_with Qplus (replicate B 0%Q) (replicate B 0%Q)) with (replicate B 0%Q).
  - apply IH. by right.
  - clear. induction B as [|B IH]; [done|]. cbn. by rewrite <- IH.
Qed.

Lemma py_sum_zeros (n : nat) : py_sum (replicate n 0%Q) = 0%Q.
Proof. unfold py_sum. induction n as [|n IH]; [done|]. cbn. apply IH. Qed.

(** C8. When every (time, batch) position is flagged by the ignore mask,
    [entropy_loss] returns exactly 0, whatever the logits and whatever
    softmax computes from them: the positions are zeroed after the sum over
    the vocabulary.  The batch is not empty (on an empty batch the mean is
    not a number). *)
Theorem C8_entropy_loss_all_masked (T B V : nat)
    (x : list (list (list Q))) (ignore_mask : list (list bool)) :
  0 < B →
  shape3 T B V x → shape2 T B ignore_mask →
  Forall (Forall (λ m, m = true)) ignore_mask →
  ∃ r, entropy_loss softmax_dim1 log_softmax_dim1 x ignore_mask = Ok r ∧ (r == 0)%Q.
Proof.
  intros _ Hx Hm Hall. unfold entropy_loss.
  rewrite (masked_zero_all T B); [| |done|done].
  - cbn. eexists. split; [done|].
    rewrite sum_dim0_zeros.
    + unfold tensor_mean. rewrite py_sum_zeros.
      unfold Qdiv. rewrite Qmult_0_l. reflexivity.
    + destruct Hx as [<- Hx]. destruct Hx as [|r x' [Hr _] _]; [by left|by right].
  - apply shape2_sum_mul with V; [by apply softmax_shape | by apply log_softmax_shape].
Qed.

End EntropyFacts.

(** C8 at a concrete input: two time steps, a batch of two, three words, all
    positions padding; softmax is replaced by the identity. *)
Lemma C8_entropy_loss_all_masked_witness :
  ∃ r, entropy_loss id id
         [[[1; 2; 3]; [4; 5; 6]]; [[7; 8; 9]; [1; 1; 1]]]%Q
         [[true; true]; [true; true]] = Ok r ∧ (r == 0)%Q.
Proof.
  apply (C8_entropy_loss_all_masked id id (λ _ _ _ _ H, H) (λ _ _ _ _ H, H) 2 2 3).
  - lia.
  - split; [done|]. repeat constructor.
  - split; [done|]. repeat constructor.
  - repeat constructor.
Defined.

(** ** [train] *)

Section TrainFacts.

Context {Model Optimizer Stream Feat : Type}.
Variable torch_cat_dim2 : list Stream → list Feat.
Variable forward : Model → list Feat → list (list nat) → Q → list (list (list Q)).
Variable nll_loss : list (list Q) → list nat → nat → Q.
Variable softmax_dim1 log_softmax_dim1 : list (list (list Q)) → list (list (list Q)).
Variable zero_grad : Optimizer → Optimizer.
Variable backward_step : Model → Optimizer → Q → option Q → Model * Optimizer.

Lemma load_global_losses : load_global "losses" = Raise (NameError "losses").
Proof. reflexivity. Qed.

(** The name the loop body needs is the one bound in the module. *)
Lemma load_global_entropy_loss : load_global "entropy_loss" = Ok tt.
Proof. reflexivity. Qed.

(** What the statements after the failing name would record: the total
    [cross_entropy + reg_lambda * entropy] and its two terms, one value per
    component. *)
Lemma train_batch_record_spec (reg_lambda : Q) (clip : option Q) (PAD_idx : nat)
    (model : Model) (optimizer : Optimizer) (lc : LossChecker.t)
    (output : list (list (list Q))) (captions : list (list nat)) (ce ent : Q) :
  LossChecker.wf lc → LossChecker.num_losses lc = 3 →
  entropy_loss softmax_dim1 log_softmax_dim1 (drop 1 output)
    ((λ row : list nat, (λ c, bool_decide (c = PAD_idx)) <$> row) <$> drop 1 captions)
  = Ok ent →
  ∃ lc',
    train_batch_record softmax_dim1 log_softmax_dim1 backward_step
      reg_lambda clip PAD_idx model optimizer lc output captions ce
    = Ok (backward_step model optimizer (ce + reg_lambda * ent)%Q clip, lc')
    ∧ LossChecker.losses lc'
      = zip_with (λ l v, l ++ [v]) (LossChecker.losses lc)
          [(ce + reg_lambda * ent)%Q; ce; ent].
Proof.
  intros Hwf Hn Hent. unfold train_batch_record. rewrite Hent.
  cbn [mbind result_bind].
  destruct (backward_step model optimizer (ce + reg_lambda * ent)%Q clip) as [model' optimizer'].
  destruct lc as [n ls]. unfold LossChecker.wf in Hwf. cbn in Hwf, Hn. subst n.
  destruct ls as [|l0 [|l1 [|l2 [|]]]]; try done.
  exists (LossChecker.mk 3 [l0 ++ [(ce + reg_lambda * ent)%Q]; l1 ++ [ce]; l2 ++ [ent]]).
  split; [|done].
  unfold LossChecker.update. cbn [LossChecker.num_losses LossChecker.losses length].
  rewrite bool_decide_eq_true_2 by done. cbn [py_assert mbind result_bind].
  cbn [LossChecker.update_loop getitem lookup list_lookup mbind result_bind
       insert list_insert].
  unfold LossChecker.mean. cbn [LossChecker.num_losses LossChecker.losses].
  change 10%Z with (Z.of_nat 10).
  rewrite (mean_loop_spec 10 _) with (i := 0); [done| |done].
  repeat constructor; by destruct l0, l1, l2.
Qed.

(** C1 (what the code does). The body of the loop of [train] raises
    [NameError] for every batch, before [loss_checker.update] is reached:
    [losses] is not bound in [utils.py].  So [train] on a non-empty
    iterator records nothing and raises (a [KeyError] when the vocabulary
    has no [<PAD>], the [NameError] otherwise). *)
Theorem C1_train_raises_NameError :
  (∀ vocab ratio reg_lambda clip PAD_idx st (batch : Batch Stream),
     train_batch torch_cat_dim2 forward nll_loss softmax_dim1 log_softmax_dim1
       zero_grad backward_step vocab ratio reg_lambda clip PAD_idx st batch
     = Raise (NameError "losses"))
  ∧ (∀ e model optimizer (batch : Batch Stream) rest vocab ratio reg_lambda clip,
       train torch_cat_dim2 forward nll_loss softmax_dim1 log_softmax_dim1
         zero_grad backward_step e model optimizer (batch :: rest) vocab ratio reg_lambda clip
       = match word2idx vocab !! "<PAD>" with
         | Some _ => Raise (NameError "losses")
         | None => Raise KeyError
         end).
Proof.
  assert (Hbody : ∀ vocab ratio reg_lambda clip PAD_idx st (batch : Batch Stream),
     train_batch torch_cat_dim2 forward nll_loss softmax_dim1 log_softmax_dim1
       zero_grad backward_step vocab ratio reg_lambda clip PAD_idx st batch
     = Raise (NameError "losses")).
  { intros vocab ratio reg_lambda clip PAD_idx [[model optimizer] lc] batch.
    unfold train_batch. by destruct (parse_batch torch_cat_dim2 batch) as [[vids feats] captions]. }
  split; [exact Hbody|].
  intros e model optimizer batch rest vocab ratio reg_lambda clip.
  unfold train, dict_get. destruct (word2idx vocab !! "<PAD>") as [PAD_idx|]; [|done].
  cbn [mbind result_bind train_loop]. by rewrite Hbody.
Qed.

End TrainFacts.

(** ** [Decoder.__init__] *)

(** C2 (what the code does). For every choice of the parameters the
    constructor raises [AttributeError]: it reads [self.embedding_size],
    which it never assigned ([rnn_type], [num_layers], [num_directions],
    [feat_size] and [feat_len] are not assigned either). *)
Theorem C2_Decoder_init_raises (rnn_type : string)
    (num_layers num_directions feat_size feat_len embedding_size
     hidden_size attn_size output_size : nat) (rnn_dropout : Q) :
  Decoder_init rnn_type num_layers num_directions feat_size feat_len embedding_size
    hidden_size attn_size output_size rnn_dropout
  = Raise (AttributeError "Decoder" "embedding_size").
Proof. reflexivity. Qed.

(** ** Dictionaries *)

Section PyDictFacts.

Context {K : Type} `{EqDecision K} {V : Type}.

Lemma pd_get_elem_of (d : list (K * V)) (k : K) :
  k ∈ d.*1 → ∃ v, pd_get d k = Ok v.
Proof.
  induction d as [|[k' v'] d IH]; cbn.
  - by intros ?%elem_of_nil.
  - intros Hk. destruct (decide (k = k')) as [->|Hne]; [by exists v'|].
    apply IH. apply elem_of_cons in Hk as [?|?]; [done|done].
Qed.

Lemma pd_get_not_elem_of (d : list (K * V)) (k : K) :
  k ∉ d.*1 → pd_get d k = Raise KeyError.
Proof.
  induction d as [|[k' v'] d IH]; cbn; [done|].
  intros Hk. apply not_elem_of_cons in Hk as [Hne Hk].
  destruct (decide (k = k')); [done|]. by apply IH.
Qed.

Lemma elem_of_pd_set (d : list (K * V)) (k k0 : K) (v : V) :
  k0 ∈ (pd_set d k v).*1 ↔ k0 = k ∨ k0 ∈ d.*1.
Proof.
  induction d as [|[k' v'] d IH]; cbn.
  - rewrite list_elem_of_singleton, elem_of_nil. tauto.
  - destruct (decide (k = k')) as [->|Hne]; cbn.
    + rewrite elem_of_cons. tauto.
    + rewrite !elem_of_cons, IH. tauto.
Qed.

Lemma elem_of_pd_update (l d : list (K * V)) (k0 : K) :
  k0 ∈ (pd_update d l).*1 ↔ k0 ∈ d.*1 ∨ k0 ∈ l.*1.
Proof.
  unfold pd_update. revert d. induction l as [|[k v] l IH]; intros d; cbn.
  - rewrite elem_of_nil. tauto.
  - rewrite IH, elem_of_pd_set, elem_of_cons. tauto.
Qed.

End PyDictFacts.

Lemma enumerate_swap_keys {A} (l : list A) :
  ((λ iv : nat * A, (iv.2, iv.1)) <$> enumerate l).*1 = l.
Proof.
  unfold enumerate.
  assert (Hgen : ∀ (f : nat → A → nat * A), (∀ i a, (f i a).2 = a) →
            ((λ iv : nat * A, (iv.2, iv.1)) <$> imap f l).*1 = l).
  { induction l as [|a l IH]; intros f Hf; [done|].
    cbn. rewrite Hf. f_equal. apply IH. intros i b. apply Hf. }
  by apply Hgen.
Qed.

Lemma elem_of_key_set {V} (d : list (string * V)) (k : string) :
  k ∈ key_set d ↔ k ∈ d.*1.
Proof. unfold key_set, pd_keys. cbn. apply elem_of_list_to_set. Qed.

(** ** [get_predicted_captions], [evaluate], [score] *)

Section PipelineFacts.

Context {Model Stream Feat : Type}.
Variable torch_cat_dim2 : list Stream → list Feat.
Variable describe : Model → list Feat → nat → Q → result (list (list nat)).
Variable Bleu_compute_score :
  list (nat * list string) → list (nat * list string) → list Q.

Lemma rebatch_loop_view (fuel batch_size : nat) (vids : list string) (feats : pyseq Feat)
    (acc : list (list string * list Feat)) :
  vids ≠ [] → length vids ≤ fuel →
  rebatch_loop fuel batch_size (PyView "dict_keys" vids) feats acc
  = Raise (not_subscriptable "dict_keys").
Proof.
  intros Hne Hfuel. destruct vids as [|v vids]; [done|].
  destruct fuel as [|fuel]; [cbn in Hfuel; lia|]. done.
Qed.

(** What the loop computes when it is given lists: the successive slices
    of [batch_size] entries. *)
Lemma rebatch_loop_lists (batch_size : nat) (fuel : nat) :
  0 < batch_size →
  ∀ (vids : list string) (feats : list Feat) acc,
    length vids ≤ fuel →
    ∃ chunks, rebatch_loop fuel batch_size (PyList vids) (PyList feats) acc = Ok (acc ++ chunks)
              ∧ concat (chunks.*1) = vids
              ∧ Forall (λ c, length c.1 ≤ batch_size) chunks.
Proof.
  intros Hbs. induction fuel as [|fuel IH]; intros vids feats acc Hlen.
  - destruct vids; [|cbn in Hlen; lia]. exists []. by rewrite app_nil_r.
  - destruct vids as [|v vids].
    { exists []. by rewrite app_nil_r. }
    cbn [rebatch_loop]. unfold pyseq_len. cbn [pyseq_iter].
    rewrite bool_decide_eq_true_2 by (cbn; lia).
    cbn [getslice_to getslice_from mbind result_bind].
    destruct (IH (drop batch_size (v :: vids)) (drop batch_size feats)
                 (acc ++ [(take batch_size (v :: vids), take batch_size feats)]))
      as (chunks & -> & Hcat & Hall).
    { rewrite length_drop. cbn in *. lia. }
    exists ((take batch_size (v :: vids), take batch_size feats) :: chunks).
    split; [by rewrite <- app_assoc|]. split.
    + cbn [fmap list_fmap fst concat]. rewrite Hcat. apply take_drop.
    + constructor; [|done]. cbn [fst]. rewrite length_take. lia.
Qed.

Lemma onlyonce_add_nonempty (l : list (string * Feat)) :
  ∀ d, d ≠ [] → fold_left onlyonce_add l d ≠ [].
Proof.
  induction l as [|[k v] l IH]; intros d Hd; [done|]. cbn [fold_left]. apply IH.
  unfold onlyonce_add. cbn [fst snd]. destruct (pd_contains d k); [done|].
  destruct d as [|[k' v'] d]; [done|]. cbn. by destruct (decide (k = k')).
Qed.

Lemma onlyonce_dataset_nonempty (bs : list (Batch Stream)) :
  ∀ d, d ≠ [] → fold_left (onlyonce_add_batch torch_cat_dim2) bs d ≠ [].
Proof.
  induction bs as [|b bs IH]; intros d Hd; [done|]. cbn [fold_left]. apply IH.
  unfold onlyonce_add_batch.
  destruct (parse_batch torch_cat_dim2 b) as [[vids fs] caps].
  by apply onlyonce_add_nonempty.
Qed.

(** The first feature tensor seen for a video id is the one kept. *)
Lemma onlyonce_add_keeps_first (l : list (string * Feat)) :
  ∀ d vid feat, pd_get d vid = Ok feat → pd_get (fold_left onlyonce_add l d) vid = Ok feat.
Proof.
  induction l as [|[k v] l IH]; intros d vid feat Hd; [done|]. cbn [fold_left]. apply IH.
  unfold onlyonce_add. cbn [fst snd].
  destruct (pd_contains d k) eqn:Hk; [done|].
  apply bool_decide_eq_false in Hk.
  induction d as [|[k' v'] d IHd]; [done|]. cbn in *.
  destruct (decide (vid = k')) as [->|Hne].
  - destruct (decide (k = k')) as [->|Hne']; cbn.
    + exfalso. apply Hk. apply elem_of_cons. by left.
    + by rewrite decide_True.
  - destruct (decide (k = k')) as [->|Hne']; cbn.
    + exfalso. apply Hk. apply elem_of_cons. by left.
    + rewrite decide_False by done. apply IHd; [done|].
      intros Hin. apply Hk. apply elem_of_cons. by right.
Qed.

(** C6 (what the code does). [get_predicted_captions] keeps the first
    feature tensor seen for each video id, but [vids] is then the view
    returned by [keys()], and the first [vids[:batch_size]] raises
    [TypeError] as soon as there is one video: no chunk is built and beam
    search is never run.  Only for an iterator without any video does the
    function return, with an empty mapping. *)
Theorem C6_get_predicted_captions_raises :
  (∀ (data_iter : list (Batch Stream)) model vocab beam_width beam_alpha,
     get_predicted_captions torch_cat_dim2 describe data_iter model vocab beam_width beam_alpha
     = match build_onlyonce_dataset torch_cat_dim2 data_iter with
       | [] => _ ← dict_get (word2idx vocab) "<EOS>"; Ok []
       | _ :: _ => Raise (TypeError "'dict_keys' object is not subscriptable")
       end)
  ∧ (∀ vid streams captions feat feats rest model vocab beam_width beam_alpha,
       torch_cat_dim2 streams = feat :: feats →
       get_predicted_captions torch_cat_dim2 describe
         (mkBatch (vid :: []) streams captions :: rest) model vocab beam_width beam_alpha
       = Raise (TypeError "'dict_keys' object is not subscriptable")).
Proof.
  assert (Hgen : ∀ (data_iter : list (Batch Stream)) model vocab beam_width beam_alpha,
     get_predicted_captions torch_cat_dim2 describe data_iter model vocab beam_width beam_alpha
     = match build_onlyonce_dataset torch_cat_dim2 data_iter with
       | [] => _ ← dict_get (word2idx vocab) "<EOS>"; Ok []
       | _ :: _ => Raise (TypeError "'dict_keys' object is not subscriptable")
       end).
  { intros data_iter model vocab beam_width beam_alpha.
    unfold get_predicted_captions, build_onlyonce_iter.
    destruct (build_onlyonce_dataset torch_cat_dim2 data_iter) as [|[vid feat] d] eqn:Hd.
    - cbn. by destruct (dict_get (word2idx vocab) "<EOS>").
    - unfold pd_keys. rewrite rebatch_loop_view; [done|done|]. by unfold pyseq_len. }
  split; [exact Hgen|].
  intros vid streams captions feat feats rest model vocab beam_width beam_alpha Hcat.
  rewrite Hgen. unfold build_onlyonce_dataset. cbn [fold_left].
  assert (Hfirst : onlyonce_add_batch torch_cat_dim2 [] (mkBatch [vid] streams captions) ≠ []).
  { unfold onlyonce_add_batch, parse_batch. cbn [batch_vids batch_feats batch_captions].
    rewrite Hcat. cbn [zip zip_with fold_left].
    unfold onlyonce_add, pd_contains. cbn [fst snd fmap list_fmap].
    by rewrite bool_decide_eq_false_2 by (by intros ?%elem_of_nil). }
  pose proof (onlyonce_dataset_nonempty rest _ Hfirst) as Hne.
  by destruct (fold_left _ rest _).
Qed.

(** C10. [evaluate] ignores its [beam_width] and [beam_alpha]: it calls
    [get_predicted_captions] with width 5 and alpha 0, so two calls that
    differ only in these arguments give the same result. *)
Theorem C10_evaluate_ignores_beam_arguments
    (data_iter : list (Batch Stream)) (model : Model) (vocab : Vocab)
    (beam_width1 beam_width2 : nat) (beam_alpha1 beam_alpha2 : Q) :
  evaluate torch_cat_dim2 describe Bleu_compute_score data_iter model vocab beam_width1 beam_alpha1
  = evaluate torch_cat_dim2 describe Bleu_compute_score data_iter model vocab beam_width2 beam_alpha2
  ∧ evaluate torch_cat_dim2 describe Bleu_compute_score data_iter model vocab beam_width1 beam_alpha1
    = (vid2pred ← get_predicted_captions torch_cat_dim2 describe data_iter model vocab 5 0%Q;
       vid2GTs ← get_groundtruth_captions torch_cat_dim2 data_iter vocab;
       score Bleu_compute_score vid2pred vid2GTs).
Proof. split; reflexivity. Qed.

End PipelineFacts.

(** ** [score], [save_result] *)

Section KeySetFacts.

Context {FS : Type}.
Variable Bleu_compute_score :
  list (nat * list string) → list (nat * list string) → list Q.
Variable dirname : string → string.
Variable path_exists : FS → string → bool.
Variable makedirs : FS → string → result FS.
Variable open_w : FS → string → result FS.
Variable write : FS → string → string → result FS.

(** Once the key sets agree, every lookup by video id succeeds. *)
Lemma key_set_lookup {V W} (d : list (string * V)) (d' : list (string * W)) (k : string) :
  key_set d = key_set d' → k ∈ d.*1 → ∃ w, pd_get d' k = Ok w.
Proof.
  intros Heq Hk. apply pd_get_elem_of.
  apply elem_of_key_set. rewrite <- Heq. by apply elem_of_key_set.
Qed.

Lemma vid2idx_lookup {V} (vid2pred : list (string * V)) (vid : string) :
  vid ∈ vid2pred.*1 →
  ∃ i, pd_get (pd_of_list ((λ iv : nat * string, (iv.2, iv.1))
                             <$> enumerate (pyseq_iter (pd_keys vid2pred)))) vid = Ok i.
Proof.
  intros Hvid. apply pd_get_elem_of. unfold pd_of_list.
  apply elem_of_pd_update. right. by rewrite enumerate_swap_keys.
Qed.

Lemma score_proceeds (vid2pred : list (string * string))
    (vid2GTs : list (string * list string)) :
  key_set vid2pred = key_set vid2GTs →
  ∃ refs hypos, length refs = length vid2GTs ∧ length hypos = length vid2pred
    ∧ score Bleu_compute_score vid2pred vid2GTs
      = Ok (calc_scores Bleu_compute_score (pd_of_list refs) (pd_of_list hypos)).
Proof.
  intros Heq. unfold score. rewrite bool_decide_eq_true_2 by done.
  cbn [py_assert mbind result_bind].
  set (vid2idx := pd_of_list _).
  destruct (mapM_Ok_ex (λ item : string * list string,
              i ← pd_get vid2idx item.1; Ok (i, item.2)) vid2GTs) as [refs Hrefs].
  { apply Forall_forall. intros [vid GTs] Hin. cbn [fst snd].
    destruct (vid2idx_lookup vid2pred vid) as [i Hi].
    - apply elem_of_key_set. rewrite Heq. apply elem_of_key_set.
      apply list_elem_of_fmap. by exists (vid, GTs).
    - exists (i, GTs). subst vid2idx. by rewrite Hi. }
  destruct (mapM_Ok_ex (λ item : string * string,
              i ← pd_get vid2idx item.1; Ok (i, [item.2])) vid2pred) as [hypos Hhypos].
  { apply Forall_forall. intros [vid pred] Hin. cbn [fst snd].
    destruct (vid2idx_lookup vid2pred vid) as [i Hi].
    - apply list_elem_of_fmap. by exists (vid, pred).
    - exists (i, [pred]). subst vid2idx. by rewrite Hi. }
  exists refs, hypos. rewrite Hrefs, Hhypos.
  split; [by eapply mapM_Ok_length|]. split; [by eapply mapM_Ok_length|]. done.
Qed.

Lemma write_lines_write_all (vid2pred : list (string * string))
    (vid2GTs : list (string * list string)) (save_fpath : string) (vids : list string) :
  ∀ lines fs, mapM (report_line vid2pred vid2GTs) vids = Ok lines →
    write_lines write vid2pred vid2GTs save_fpath vids fs = write_all write save_fpath lines fs.
Proof.
  induction vids as [|vid vids IH]; intros lines fs; cbn.
  - by intros [= <-].
  - destruct (report_line vid2pred vid2GTs vid) as [line|]; [|done]. cbn.
    destruct (mapM (report_line vid2pred vid2GTs) vids) as [ls|]; [|done]. cbn.
    intros [= <-]. cbn. destruct (write fs save_fpath line) as [fs'|]; [|done].
    cbn. by apply IH.
Qed.

Lemma save_result_proceeds (vid2pred : list (string * string))
    (vid2GTs : list (string * list string)) (save_fpath : string) (fs : FS) :
  key_set vid2pred = key_set vid2GTs →
  ∃ lines, mapM (report_line vid2pred vid2GTs) vid2pred.*1 = Ok lines
    ∧ save_result dirname path_exists makedirs open_w write vid2pred vid2GTs save_fpath fs
      = write_report dirname path_exists makedirs open_w write save_fpath lines fs.
Proof.
  intros Heq.
  destruct (mapM_Ok_ex (report_line vid2pred vid2GTs) vid2pred.*1) as [lines Hlines].
  { apply Forall_forall. intros vid Hvid. unfold report_line.
    destruct (key_set_lookup vid2pred vid2GTs vid Heq Hvid) as [GTs ->].
    destruct (pd_get_elem_of vid2pred vid Hvid) as [pred ->]. by eexists. }
  exists lines. split; [done|].
  unfold save_result, write_report. rewrite bool_decide_eq_true_2 by done.
  cbn [py_assert mbind result_bind].
  destruct (if path_exists fs (dirname save_fpath) then Ok fs
            else makedirs fs (dirname save_fpath)) as [fs1|]; [|done].
  cbn [mbind result_bind].
  destruct (open_w fs1 save_fpath) as [fs2|]; [|done].
  cbn [mbind result_bind pd_keys pyseq_iter]. by apply write_lines_write_all.
Qed.

(** C9. [score] and [save_result] raise [AssertionError] whenever the key
    set of the prediction map differs from that of the reference map.
    When the key sets agree both proceed: [score] returns the scores of the
    re-indexed maps, and [save_result] writes one line per predicted video,
    no lookup failing.  For predictions on ["v1"] only against references
    for ["v1"] and ["v2"], both fail. *)
Theorem C9_key_set_enforcement :
  (∀ (vid2pred : list (string * string)) (vid2GTs : list (string * list string)),
     key_set vid2pred ≠ key_set vid2GTs →
     score Bleu_compute_score vid2pred vid2GTs = Raise AssertionError
     ∧ ∀ save_fpath fs,
         save_result dirname path_exists makedirs open_w write vid2pred vid2GTs save_fpath fs
         = Raise AssertionError)
  ∧ (∀ (vid2pred : list (string * string)) (vid2GTs : list (string * list string)),
       key_set vid2pred = key_set vid2GTs →
       (∃ refs hypos, length refs = length vid2GTs ∧ length hypos = length vid2pred
          ∧ score Bleu_compute_score vid2pred vid2GTs
            = Ok (calc_scores Bleu_compute_score (pd_of_list refs) (pd_of_list hypos)))
       ∧ ∀ save_fpath fs,
           ∃ lines, mapM (report_line vid2pred vid2GTs) vid2pred.*1 = Ok lines
             ∧ save_result dirname path_exists makedirs open_w write
                 vid2pred vid2GTs save_fpath fs
               = write_report dirname path_exists makedirs open_w write save_fpath lines fs)
  ∧ (score Bleu_compute_score [("v1", "a man is singing")]
       [("v1", ["a man sings"]); ("v2", ["a dog runs"])] = Raise AssertionError
     ∧ ∀ save_fpath fs,
         save_result dirname path_exists makedirs open_w write
           [("v1", "a man is singing")]
           [("v1", ["a man sings"]); ("v2", ["a dog runs"])] save_fpath fs
         = Raise AssertionError).
Proof.
  split; [|split].
  - intros vid2pred vid2GTs Hne. unfold score, save_result.
    rewrite bool_decide_eq_false_2 by done. done.
  - intros vid2pred vid2GTs Heq. split.
    + by apply score_proceeds.
    + intros save_fpath fs. by apply save_result_proceeds.
  - assert (Hne : key_set [("v1", "a man is singing")]
                  ≠ key_set [("v1", ["a man sings"]); ("v2", ["a dog runs"])]).
    { intros Heq. assert (Hin : "v2" ∈ key_set [("v1", "a man is singing")]).
      { rewrite Heq. apply elem_of_key_set. cbn. apply elem_of_cons. right.
        apply elem_of_cons. by left. }
      apply elem_of_key_set in Hin. cbn in Hin.
      apply list_elem_of_singleton in Hin. done. }
    unfold score, save_result. rewrite bool_decide_eq_false_2 by done. done.
Qed.

End KeySetFacts.

(** ** [cls_to_dict] and [dict_to_cls] *)

Lemma map_mapM_lookup {A B} (f : string → A → result B) (m : gmap string A) :
  (∀ k a, m !! k = Some a → ∃ b, f k a = Ok b) →
  ∃ m', map_mapM f m = Ok m'
        ∧ ∀ k, m' !! k = m !! k ≫= λ a, result_to_option (f k a).
Proof.
  unfold map_mapM.
  apply (map_fold_weak_ind
    (λ (r : result (gmap string B)) (m : gmap string A),
       (∀ k a, m !! k = Some a → ∃ b, f k a = Ok b) →
       ∃ m', r = Ok m' ∧ ∀ k, m' !! k = m !! k ≫= λ a, result_to_option (f k a))).
  - intros _. exists ∅. split; [done|]. intros k. by rewrite !lookup_empty.
  - intros i x m0 r Hi IH Hall.
    destruct IH as (m' & -> & Hm').
    { intros k a Hk. apply Hall. rewrite lookup_insert_ne; [done|]. by intros ->; congruence. }
    destruct (Hall i x) as [b Hb]; [by rewrite lookup_insert_eq|].
    exists (<[i := b]> m'). cbn. rewrite Hb. cbn. split; [done|].
    intros k. destruct (decide (i = k)) as [->|Hne].
    + rewrite !lookup_insert_eq. cbn. by rewrite Hb.
    + rewrite !lookup_insert_ne by done. apply Hm'.
Qed.

Lemma map_mapM_pointwise {A B} (f : string → A → result B)
    (m : gmap string A) (m' : gmap string B) :
  (∀ k, match m !! k with
        | Some a => ∃ b, f k a = Ok b ∧ m' !! k = Some b
        | None => m' !! k = None
        end) →
  map_mapM f m = Ok m'.
Proof.
  intros Hpt. destruct (map_mapM_lookup f m) as (m1 & -> & Hm1).
  - intros k a Hk. specialize (Hpt k). rewrite Hk in Hpt.
    destruct Hpt as (b & Hb & _). by exists b.
  - f_equal. apply map_eq. intros k. rewrite Hm1. specialize (Hpt k).
    destruct (m !! k) as [a|]; cbn; [|done].
    destruct Hpt as (b & -> & ->). done.
Qed.

Lemma lookup_over_properties (f : value → value) (attrs : gmap string value) (p : string) :
  over_properties f attrs !! p
  = if dunder p then None else f <$> attrs !! p.
Proof.
  unfold over_properties. rewrite map_lookup_imap.
  destruct (attrs !! p); cbn; by destruct (dunder p).
Qed.

Lemma value_size_lookup (d : gmap string value) (k : string) (v : value) :
  d !! k = Some v →
  value_size v < S (map_fold (λ _ v' acc, value_size v' + acc) 0 d).
Proof.
  enough (H : ∀ k v, d !! k = Some v →
              value_size v ≤ map_fold (λ _ v' acc, value_size v' + acc) 0 d).
  { intros Hk. specialize (H k v Hk). lia. }
  clear k v.
  apply (map_fold_weak_ind
    (λ (r : nat) (m : gmap string value), ∀ k v, m !! k = Some v → value_size v ≤ r)).
  - intros k v. by rewrite lookup_empty.
  - intros i x m r Hi IH k v. destruct (decide (i = k)) as [->|Hne].
    + rewrite lookup_insert_eq. intros [= ->]. lia.
    + rewrite lookup_insert_ne by done. intros Hk. specialize (IH k v Hk). lia.
Qed.

Lemma config_value_class (attrs : gmap string value) :
  config_value (VClass attrs) = true →
  attrs !! "self" = None
  ∧ ∀ p v, attrs !! p = Some v → dunder p = false → config_value v = true.
Proof.
  cbn [config_value]. intros [Hself Hall]%andb_true_iff.
  split; [by apply bool_decide_eq_true in Hself|].
  revert Hall.
  apply (map_fold_weak_ind
    (λ (r : bool) (m : gmap string value),
       r = true → ∀ p v, m !! p = Some v → dunder p = false → config_value v = true)).
  - intros _ p v. by rewrite lookup_empty.
  - intros i x m r Hi IH [Hx Hr]%andb_true_iff p v.
    destruct (decide (i = p)) as [->|Hne].
    + rewrite lookup_insert_eq. intros [= ->] Hp. by rewrite Hp in Hx.
    + rewrite lookup_insert_ne by done. by apply IH.
Qed.

Lemma dunder_was_class : dunder "was_class" = false.
Proof. reflexivity. Qed.

Lemma dunder_self : dunder "self" = false.
Proof. reflexivity. Qed.

(** The traversal of [dict_to_cls] over the dictionary of a class whose
    attributes are rebuilt correctly. *)
Lemma traverse_cls_to_dict (attrs : gmap string value) :
  (∀ p v, attrs !! p = Some v → dunder p = false →
     dict_to_cls_value (cls_to_dict_value v) = Ok (rebuilt_value v)) →
  map_mapM (λ p v', if dunder p then Ok v' else dict_to_cls_value v')
    (over_properties cls_to_dict_value attrs)
  = Ok (over_properties rebuilt_value attrs)
  ∧ map_mapM (λ p v', if dunder p then Ok v' else dict_to_cls_value v')
      (<["was_class" := VBool true]> (over_properties cls_to_dict_value attrs))
    = Ok (<["was_class" := VBool true]> (over_properties rebuilt_value attrs)).
Proof.
  intros IH. split; apply map_mapM_pointwise; intros k.
  - rewrite !lookup_over_properties. destruct (dunder k) eqn:Hk; [done|].
    destruct (attrs !! k) as [v|] eqn:Hv; cbn; [|done].
    exists (rebuilt_value v). split; [by apply (IH k) | done].
  - destruct (decide ("was_class" = k)) as [<-|Hne].
    + rewrite !lookup_insert_eq. by exists (VBool true).
    + rewrite !lookup_insert_ne by done.
      rewrite !lookup_over_properties. destruct (dunder k) eqn:Hk; [done|].
      destruct (attrs !! k) as [v|] eqn:Hv; cbn; [|done].
      exists (rebuilt_value v). split; [by apply (IH k) | done].
Qed.

Lemma roundtrip_value (n : nat) :
  ∀ v, value_size v < n → config_value v = true →
    dict_to_cls_value (cls_to_dict_value v) = Ok (rebuilt_value v).
Proof.
  induction n as [|n IH]; intros v Hsize Hcfg; [lia|].
  destruct v as [| | | | |d|attrs|attrs]; try done.
  apply config_value_class in Hcfg as [Hself Hall].
  cbn [cls_to_dict_value dict_to_cls_value rebuilt_value].
  rewrite lookup_insert_eq. cbn [truthy].
  unfold Struct. rewrite lookup_insert_ne by done.
  rewrite lookup_over_properties, Hself. cbn [dunder fmap option_fmap option_map mbind result_bind].
  rewrite dunder_self. cbn [mbind result_bind].
  destruct (traverse_cls_to_dict attrs) as [_ ->]; [|done].
  intros p v Hp Hd. apply IH; [|by eapply Hall].
  pose proof (value_size_lookup attrs p v Hp) as Hlt. cbn [value_size] in Hsize. lia.
Qed.

(** The marker leaks: a nested class comes back as an object that has the
    attribute [was_class]. *)
Lemma C3_marker_leaks : ¬ roundtrip_as_specified example_config.
Proof.
  intros (s & Hs & _ & Hmarker).
  vm_compute in Hs. injection Hs as <-.
  vm_compute in Hmarker. discriminate.
Qed.

(** C3 (as the code has it). For every configuration class, [dict_to_cls(cls_to_dict(x))]
    returns an object with the public attributes of [x]: a plain value is
    the same value, a nested class is rebuilt in the same way, and every
    rebuilt nested object has in addition the attribute [was_class = True];
    the object returned has no attribute that [x] has not. *)
Theorem C3_roundtrip_keeps_marker (cls : gmap string value) :
  config_class cls = true →
  dict_to_cls (cls_to_dict cls) = Ok (rebuilt cls)
  ∧ ∀ p, dunder p = false →
      match cls !! p with
      | None => over_properties rebuilt_value cls !! p = None
      | Some (VClass attrs) =>
          ∃ s, over_properties rebuilt_value cls !! p = Some (VStruct s)
               ∧ s !! "was_class" = Some (VBool true)
               ∧ ∀ q, q ≠ "was_class" → s !! q = over_properties rebuilt_value attrs !! q
      | Some v => over_properties rebuilt_value cls !! p = Some v
      end.
Proof.
  intros Hcfg. apply config_value_class in Hcfg as [Hself Hall]. split.
  - unfold dict_to_cls, cls_to_dict, rebuilt, Struct.
    rewrite lookup_over_properties, Hself. rewrite dunder_self. cbn [fmap option_fmap option_map mbind result_bind].
    destruct (traverse_cls_to_dict cls) as [-> _]; [|done].
    intros p v Hp Hd. apply (roundtrip_value (S (value_size v))); [lia | by eapply Hall].
  - intros p Hp. rewrite lookup_over_properties, Hp.
    destruct (cls !! p) as [v|] eqn:Hv; [|done]. cbn.
    specialize (Hall p v Hv Hp).
    destruct v as [| | | | |d|attrs|attrs]; try done.
    eexists. split; [done|]. split; [by rewrite lookup_insert_eq|].
    intros q Hq. by rewrite lookup_insert_ne.
Qed.

(** C3 at a concrete input: the example configuration. *)
Lemma C3_roundtrip_keeps_marker_witness :
  config_class example_config = true
  ∧ dict_to_cls (cls_to_dict example_config) = Ok (rebuilt example_config).
Proof.
  split; [reflexivity|].
  apply (C3_roundtrip_keeps_marker example_config). reflexivity.
Defined.

(** ** Sorting and maxima *)

Lemma Qle_bool_false (a b : Q) : Qle_bool a b = false → (b < a)%Q.
Proof.
  intros Hf. apply Qnot_le_lt. intros Hle.
  apply Qle_bool_iff in Hle. congruence.
Qed.

Lemma insert_desc_perm (x : nat * Q) (l : list (nat * Q)) :
  insert_desc x l ≡ₚ x :: l.
Proof.
  induction l as [|y l IH]; [done|]. cbn.
  destruct (Qle_bool x.2 y.2); [|done].
  rewrite IH. apply perm_swap.
Qed.

Lemma sort_desc_perm (l acc : list (nat * Q)) :
  fold_left (λ acc x, insert_desc x acc) l acc ≡ₚ l ++ acc.
Proof.
  revert acc. induction l as [|x l IH]; intros acc; [done|].
  cbn. rewrite IH, insert_desc_perm. by rewrite Permutation_middle.
Qed.



Lemma elem_of_enumerate {A} (l : list A) (i : nat) (a : A) :
  (i, a) ∈ enumerate l ↔ l !! i = Some a.
Proof.
  unfold enumerate. rewrite elem_of_lookup_imap. split.
  - by intros (j & y & [= -> ->] & Hj).
  - intros Hi. by exists i, a.
Qed.

Lemma length_enumerate {A} (l : list A) : length (enumerate l) = length l.
Proof. unfold enumerate. apply length_imap. Qed.

Lemma lookup_enumerate {A} (l : list A) (i : nat) :
  enumerate l !! i = pair i <$> l !! i.
Proof. unfold enumerate. apply list_lookup_imap. Qed.

Lemma length_argsort_desc (row : list Q) : length (argsort_desc row) = length row.
Proof.
  unfold argsort_desc. rewrite length_fmap, sort_desc_perm, app_nil_r.
  apply length_enumerate.
Qed.

Lemma argsort_desc_bound (row : list Q) :
  Forall (λ i, i < length row) (argsort_desc row).
Proof.
  unfold argsort_desc. apply Forall_fmap. apply Forall_forall. intros [i v] Hin.
  rewrite sort_desc_perm, app_nil_r in Hin. apply elem_of_enumerate in Hin.
  cbn. by eapply lookup_lt_Some.
Qed.



(** The maximum is kept by a monotone change of the scores. *)
Lemma is_argmax_fmap (g : Q → Q) (row : list Q) (tok : nat) :
  (∀ a b, (g a <= g b)%Q → (a <= b)%Q) →
  is_argmax (g <$> row) tok → is_argmax row tok.
Proof.
  intros Hg (v & Hv & Hmax). rewrite list_lookup_fmap in Hv.
  destruct (row !! tok) as [u|] eqn:Hu; [|done]. injection Hv as <-.
  exists u. split; [done|]. intros j w Hj. apply Hg. apply (Hmax j).
  by rewrite list_lookup_fmap, Hj.
Qed.

(** [output.max(1)[1]] returns a position of a greatest entry. *)
Lemma argmax_from_spec (row : list Q) :
  ∀ (pre : list Q) best best_val,
    pre !! best = Some best_val →
    (∀ j w, pre !! j = Some w → (w <= best_val)%Q) →
    is_argmax (pre ++ row) (argmax_from best best_val (length pre) row).
Proof.
  induction row as [|v row IH]; intros pre best best_val Hbest Hmax; cbn.
  - rewrite app_nil_r. by exists best_val.
  - replace (pre ++ v :: row) with ((pre ++ [v]) ++ row) by by rewrite <- app_assoc.
    replace (S (length pre)) with (length (pre ++ [v])) by (rewrite length_app; cbn; lia).
    unfold Qlt_bool. destruct (Qle_bool v best_val) eqn:Hv; cbn.
    + apply IH.
      * rewrite lookup_app_l; [done|]. by eapply lookup_lt_Some.
      * intros j w Hj. apply lookup_app_Some in Hj as [Hj|[_ Hj]]; [by eapply Hmax|].
        apply list_lookup_singleton_Some in Hj as [_ <-]. by apply Qle_bool_iff.
    + apply Qle_bool_false in Hv. apply IH.
      * rewrite lookup_app_r by lia.
        by replace (length pre - length pre) with 0 by lia.
      * intros j w Hj. apply lookup_app_Some in Hj as [Hj|[_ Hj]].
        -- apply Qle_trans with best_val; [by eapply Hmax | by apply Qlt_le_weak].
        -- apply list_lookup_singleton_Some in Hj as [_ <-]. apply Qle_refl.
Qed.

Lemma argmax_spec (row : list Q) (tok : nat) :
  argmax row = Ok tok → is_argmax row tok.
Proof.
  destruct row as [|v row]; [done|]. cbn. intros [= <-].
  apply (argmax_from_spec row [v] 0 v); [done|].
  intros j w Hj. apply list_lookup_singleton_Some in Hj as [_ <-]. apply Qle_refl.
Qed.

(** ** Single-precision rounding keeps the order *)

























(** ** [beam_search] *)

Lemma getitem_default {A} (d : A) (l : list A) (i : nat) :
  i < length l → getitem l i = Ok (default d (l !! i)).
Proof. intros Hi. destruct (getitem_lt l i Hi) as (a & -> & ->). done. Qed.

Lemma shape2_length {A} (n m : nat) (x : list (list A)) : shape2 n m x → length x = n.
Proof. by intros [? _]. Qed.

Lemma shape2_lookup {A} (n m : nat) (x : list (list A)) (i : nat) (row : list A) :
  shape2 n m x → x !! i = Some row → length row = m.
Proof. intros [_ Hrows] Hi. rewrite Forall_lookup in Hrows. by eapply Hrows. Qed.

Lemma shape2_zip_with_rows {A B} (f : A → list B → list B) (n m : nat)
    (a : list A) (x : list (list B)) :
  (∀ c row, length (f c row) = length row) →
  length a = n → shape2 n m x → shape2 n m (zip_with f a x).
Proof.
  intros Hf Ha [Hx Hrows]. split.
  - rewrite length_zip_with. lia.
  - apply Forall_lookup. intros i row Hi.
    apply lookup_zip_with_Some in Hi as (c & r & -> & _ & Hr).
    rewrite Hf. rewrite Forall_lookup in Hrows. by eapply Hrows.
Qed.

Lemma shape2_zip_with_app {A} (n m1 m2 : nat) (x y : list (list A)) :
  shape2 n m1 x → shape2 n m2 y → shape2 n (m1 + m2) (zip_with app x y).
Proof.
  intros [Hx Hxr] [Hy Hyr]. split.
  - rewrite length_zip_with. lia.
  - apply Forall_lookup. intros i row Hi.
    apply lookup_zip_with_Some in Hi as (r1 & r2 & -> & H1 & H2).
    rewrite length_app. rewrite Forall_lookup in Hxr, Hyr.
    by rewrite (Hxr _ _ H1), (Hyr _ _ H2).
Qed.

Lemma shape2_cat_value {A} (n m : nat) (ts : list (list (list A))) :
  Forall (shape2 n m) ts → shape2 n (m * length ts) (cat_value n ts).
Proof.
  unfold cat_value. induction 1 as [|t ts Ht _ IH]; cbn.
  - rewrite Nat.mul_0_r. split; [apply length_replicate|].
    apply Forall_forall. by intros row ->%elem_of_replicate_inv.
  - replace (m * S (length ts)) with (m + m * length ts) by lia.
    by apply shape2_zip_with_app.
Qed.

Lemma cat_dim1_value {A} (n : nat) (ts : list (list (list A))) :
  ts ≠ [] → cat_dim1 n ts = Ok (cat_value n ts).
Proof. by destruct ts. Qed.

Section BeamFacts.

Context {Hidden Feat : Type}.
Variable decoder : list nat → list Hidden → list Feat → list (list Q) * list Hidden.
Variable zero_hidden : Hidden.
Variable fpow : Q → Q → Q.
Variable rnd : Q → Q.

Lemma path_column_ok (B nb i : nat) (output_list : list (list (list nat))) :
  length output_list = B → Forall (λ ol, length ol = nb) output_list → i < nb →
  mapM (λ b, ol ← getitem output_list b; getitem ol i) (seq 0 B)
  = Ok (path_column output_list i).
Proof.
  intros HB Hnb Hi.
  rewrite (mapM_Ok _ (λ b, default [] (output_list !! b ≫= λ ol, ol !! i))).
  - f_equal. unfold path_column. apply list_eq. intros j.
    rewrite !list_lookup_fmap. destruct (decide (j < B)) as [Hj|Hj].
    + rewrite lookup_seq_lt by done. cbn.
      destruct (lookup_lt_is_Some_2 output_list j) as [ol ->]; [lia|]. done.
    + rewrite lookup_seq_ge by lia. by rewrite lookup_ge_None_2 by lia.
  - apply Forall_forall. intros b Hb%elem_of_seq.
    destruct (lookup_lt_is_Some_2 output_list b) as [ol Hol]; [lia|].
    rewrite (getitem_Ok _ _ _ Hol), Hol. cbn.
    rewrite Forall_lookup in Hnb. apply getitem_default. by rewrite (Hnb _ _ Hol).
Qed.

Lemma beam_slot_value (B nb : nat) (feats : list Feat) (alpha : Q) (EOS_idx t : nat)
    (output_list : list (list (list nat)))
    (slot : nat * (list nat * (list Hidden * list Q))) :
  length output_list = B → Forall (λ ol, length ol = nb) output_list → slot.1 < nb →
  beam_slot decoder fpow rnd B feats alpha EOS_idx t output_list slot
  = Ok (slot_value decoder fpow rnd feats alpha EOS_idx t output_list slot).
Proof.
  intros HB Hnb Hi. destruct slot as [i [input [hidden cum_prob]]].
  unfold beam_slot, slot_value. cbn [fst snd] in *.
  destruct (decoder input hidden feats) as [output next_hidden].
  rewrite (path_column_ok B nb) by done. cbn [mbind result_bind fst snd].
  by destruct (slot_scores _ _ _ _ _ _ _).
Qed.

Lemma slot_scores_shape (B V : nat) (alpha : Q) (EOS_idx t : nat)
    (caption_list : list (list nat)) (output : list (list Q)) (cum_prob : list Q) :
  length caption_list = B → shape2 B V output → length cum_prob = B →
  shape2 B V (slot_scores fpow rnd alpha EOS_idx t caption_list output cum_prob).1
  ∧ shape2 B V (slot_scores fpow rnd alpha EOS_idx t caption_list output cum_prob).2.
Proof.
  intros Hcap Hout Hcum. unfold slot_scores. cbn [fst snd].
  assert (Hmasked : shape2 B V
            (zip_with (λ c (row : list Q), (λ x, rnd (x + c))%Q <$> row) cum_prob
               (zip_with (λ m (row : list Q), (λ x, rnd (m * x))%Q <$> row)
                  ((λ caption : list nat,
                      if bool_decide (EOS_idx ∈ caption) then 0%Q else 1%Q) <$> caption_list)
                  output))).
  { apply shape2_zip_with_rows; [intros; apply length_fmap | done |].
    apply shape2_zip_with_rows; [intros; apply length_fmap | by rewrite length_fmap | done]. }
  split; [done|].
  apply shape2_zip_with_rows; [intros; apply length_fmap | by rewrite !length_fmap | done].
Qed.


Lemma beam_inv_output (B nb t : nat) (st : beam_state Hidden) :
  beam_inv B nb t st →
  length (output_list st) = B ∧ Forall (λ ol, length ol = nb) (output_list st).
Proof.
  intros (_ & _ & _ & [HB Hrows]). split; [done|].
  eapply Forall_impl; [exact Hrows|]. by intros ol [? _].
Qed.

Lemma beam_inv_slots (B nb t : nat) (st : beam_state Hidden) i input hidden cum_prob :
  beam_inv B nb t st →
  zip (input_list st) (zip (hidden_list st) (cum_prob_list st)) !! i
  = Some (input, (hidden, cum_prob)) →
  i < nb ∧ length input = B ∧ length hidden = B ∧ length cum_prob = B.
Proof.
  intros (Hin & Hhid & Hcum & _) Hi.
  apply lookup_zip_with_Some in Hi as (x & yz & [= <- <-] & Hx & Hyz).
  apply lookup_zip_with_Some in Hyz as (y & z & [= <- <-] & Hy & Hz).
  split; [|split; [|split]].
  - apply lookup_lt_Some in Hx. by rewrite (shape2_length _ _ _ Hin) in Hx.
  - by eapply shape2_lookup.
  - by eapply shape2_lookup.
  - by eapply shape2_lookup.
Qed.

Lemma length_beam_slots (B nb t : nat) (st : beam_state Hidden) :
  beam_inv B nb t st →
  length (enumerate (zip (input_list st) (zip (hidden_list st) (cum_prob_list st)))) = nb.
Proof.
  intros (Hin & Hhid & Hcum & _).
  rewrite length_enumerate, !length_zip_with.
  rewrite (shape2_length _ _ _ Hin), (shape2_length _ _ _ Hhid), (shape2_length _ _ _ Hcum). lia.
Qed.

Lemma beam_slots_value (B nb t : nat) (feats : list Feat) (alpha : Q) (EOS_idx : nat)
    (st : beam_state Hidden) :
  beam_inv B nb t st →
  mapM (beam_slot decoder fpow rnd B feats alpha EOS_idx t (output_list st))
       (enumerate (zip (input_list st) (zip (hidden_list st) (cum_prob_list st))))
  = Ok (slot_value decoder fpow rnd feats alpha EOS_idx t (output_list st)
          <$> enumerate (zip (input_list st) (zip (hidden_list st) (cum_prob_list st)))).
Proof.
  intros Hinv. apply mapM_Ok. apply Forall_forall.
  intros [i [input [hidden cum_prob]]] Hin%elem_of_enumerate.
  destruct (beam_inv_output _ _ _ _ Hinv) as [HB Hnb].
  apply (beam_slot_value B nb); [done|done|].
  by destruct (beam_inv_slots _ _ _ _ _ _ _ _ Hinv Hin).
Qed.

Lemma beam_slots_shape (B V nb t : nat) (feats : list Feat) (alpha : Q) (EOS_idx : nat)
    (st : beam_state Hidden) :
  decoder_shape decoder V → length feats = B → beam_inv B nb t st →
  Forall (λ s : list (list Q) * list (list Q) * list Hidden,
            shape2 B V s.1.1 ∧ shape2 B V s.1.2 ∧ length s.2 = B)
    (slot_value decoder fpow rnd feats alpha EOS_idx t (output_list st)
       <$> enumerate (zip (input_list st) (zip (hidden_list st) (cum_prob_list st)))).
Proof.
  intros Hdec Hfeats Hinv. apply Forall_fmap, Forall_forall.
  intros [i [input [hidden cum_prob]]] Hin%elem_of_enumerate.
  destruct (beam_inv_slots _ _ _ _ _ _ _ _ Hinv Hin) as (Hi & Hinput & Hhidden & Hcum).
  destruct (beam_inv_output _ _ _ _ Hinv) as [HB Hnb].
  destruct (Hdec input hidden feats) as [Hout Hnext]; [congruence|congruence|].
  unfold slot_value. cbn [fst snd]. rewrite Hfeats in Hout, Hnext.
  destruct (slot_scores_shape B V alpha EOS_idx t (path_column (output_list st) i)
              (decoder input hidden feats).1 cum_prob) as [H1 H2]; try done.
  unfold path_column. by rewrite length_fmap.
Qed.

(** The selected flat indices: [width] per batch element, each below
    [V * nb]. *)
Lemma topk_shape (B M width : nat) (normalized : list (list Q)) :
  shape2 B M normalized → width ≤ M →
  shape2 B width ((λ row, take width (argsort_desc row)) <$> normalized)
  ∧ Forall (Forall (λ idx, idx < M)) ((λ row, take width (argsort_desc row)) <$> normalized).
Proof.
  intros [HB Hrows] Hw. split; [split|].
  - by rewrite length_fmap.
  - apply Forall_fmap. eapply Forall_impl; [exact Hrows|]. cbn. intros row Hrow.
    rewrite length_take, length_argsort_desc. lia.
  - apply Forall_fmap. eapply Forall_impl; [exact Hrows|]. cbn. intros row Hrow.
    apply Forall_take. rewrite <- Hrow. apply argsort_desc_bound.
Qed.

Lemma zip_fmap_same {A B C} (f : A → B) (g : A → C) (l : list A) :
  zip (f <$> l) (g <$> l) = (λ x, (f x, g x)) <$> l.
Proof. induction l as [|a l IH]; [done|]. cbn. by rewrite <- IH. Qed.

Lemma topk_output_list_value (width : nat) (topk_output_index : list (list nat)) :
  Forall (λ row, length row = width) topk_output_index →
  mapM (λ i, mapM (λ row : list nat, getitem row i) topk_output_index) (seq 0 width)
  = Ok ((λ i, (λ row : list nat, default 0 (row !! i)) <$> topk_output_index) <$> seq 0 width).
Proof.
  intros Hrows. apply mapM_Ok, Forall_forall. intros i Hi%elem_of_seq.
  apply mapM_Ok. eapply Forall_impl; [exact Hrows|]. cbn. intros row Hrow.
  apply getitem_default. lia.
Qed.

Lemma beam_gather_value (B V nb : nat)
    (beam_hidden_list : list (list Hidden)) (beam_output_list : list (list Q))
    (output_list : list (list (list nat))) (row : nat * (list nat * list nat)) :
  shape2 nb B beam_hidden_list → shape2 B (V * nb) beam_output_list →
  length output_list = B → Forall (λ ol, length ol = nb) output_list →
  row.1 < B →
  Forall (λ bo : nat * nat, bo.1 < nb ∧ V * bo.1 + bo.2 < V * nb) (zip row.2.1 row.2.2) →
  beam_gather V beam_hidden_list beam_output_list output_list row
  = Ok (gather_value zero_hidden V beam_hidden_list beam_output_list output_list row).
Proof.
  intros Hbh Hbo Hol Hnb Hi Hall. destruct row as [i [beam_index output_index]].
  unfold beam_gather, gather_value. cbn [fst snd] in *.
  apply mapM_Ok. eapply Forall_impl; [exact Hall|]. cbn. intros [bi oi] [Hbi Hoi]. cbn in *.
  destruct (lookup_lt_is_Some_2 beam_hidden_list bi) as [hb Hhb].
  { by rewrite (shape2_length _ _ _ Hbh). }
  rewrite (getitem_Ok _ _ _ Hhb), Hhb. cbn.
  rewrite (getitem_default zero_hidden) by by rewrite (shape2_lookup _ _ _ _ _ Hbh Hhb).
  cbn. destruct (lookup_lt_is_Some_2 beam_output_list i) as [r Hr].
  { by rewrite (shape2_length _ _ _ Hbo). }
  rewrite (getitem_Ok _ _ _ Hr), Hr. cbn.
  rewrite (getitem_default 0%Q) by by rewrite (shape2_lookup _ _ _ _ _ Hbo Hr).
  cbn. destruct (lookup_lt_is_Some_2 output_list i) as [ol Hol']; [lia|].
  rewrite (getitem_Ok _ _ _ Hol'), Hol'. cbn.
  rewrite Forall_lookup in Hnb.
  rewrite (getitem_default []) by by rewrite (Hnb _ _ Hol').
  done.
Qed.

Section BeamStep.

Variables (B V nb t width EOS_idx : nat) (feats : list Feat) (alpha : Q).
Variable st : beam_state Hidden.

Hypothesis Hdec : decoder_shape decoder V.
Hypothesis Hfeats : length feats = B.
Hypothesis Hinv : beam_inv B nb t st.
Hypothesis Hnb : 0 < nb.
Hypothesis HV : 0 < V.
Hypothesis Hwidth : width ≤ V * nb.

Let slots := slot_value decoder fpow rnd feats alpha EOS_idx t (output_list st)
               <$> enumerate (zip (input_list st) (zip (hidden_list st) (cum_prob_list st))).
Let beam_hidden_list := (λ s : list (list Q) * list (list Q) * list Hidden, s.2) <$> slots.
Let beam_output_list :=
  cat_value B ((λ s : list (list Q) * list (list Q) * list Hidden, s.1.1) <$> slots).
Let normalized :=
  cat_value B ((λ s : list (list Q) * list (list Q) * list Hidden, s.1.2) <$> slots).
Let topk := (λ row, take width (argsort_desc row)) <$> normalized.

Lemma beam_mid_facts :
  length slots = nb
  ∧ shape2 nb B beam_hidden_list
  ∧ shape2 B (V * nb) beam_output_list
  ∧ shape2 B (V * nb) normalized
  ∧ shape2 B width topk
  ∧ Forall (Forall (λ idx, idx < V * nb)) topk.
Proof.
  pose proof (beam_slots_shape B V nb t feats alpha EOS_idx st Hdec Hfeats Hinv) as Hshape.
  fold slots in Hshape.
  assert (Hlen : length slots = nb).
  { unfold slots. rewrite length_fmap. by eapply length_beam_slots. }
  assert (Hnz : shape2 B (V * nb) normalized).
  { unfold normalized. rewrite <- Hlen.
    rewrite <- (length_fmap (λ s : list (list Q) * list (list Q) * list Hidden, s.1.2) slots).
    apply shape2_cat_value. apply Forall_fmap.
    eapply Forall_impl; [exact Hshape|]. by intros s (_ & ? & _). }
  split; [done|]. split; [|split; [|split; [done|]]].
  - unfold beam_hidden_list. split; [by rewrite length_fmap|].
    apply Forall_fmap. eapply Forall_impl; [exact Hshape|]. by intros s (_ & _ & ?).
  - unfold beam_output_list. rewrite <- Hlen.
    rewrite <- (length_fmap (λ s : list (list Q) * list (list Q) * list Hidden, s.1.1) slots).
    apply shape2_cat_value. apply Forall_fmap.
    eapply Forall_impl; [exact Hshape|]. by intros s (? & _ & _).
  - by apply topk_shape.
Qed.

(** The two index tensors and the pairs the selection loop runs over. *)
Lemma topk_pairs (i : nat) (bis ois : list nat) :
  zip ((λ row : list nat, (λ x, x `div` V) <$> row) <$> topk)
      ((λ row : list nat, (λ x, x `mod` V) <$> row) <$> topk) !! i = Some (bis, ois) →
  ∃ row, topk !! i = Some row ∧ length row = width ∧ i < B
         ∧ Forall (λ idx, idx < V * nb) row
         ∧ zip bis ois = (λ x, (x `div` V, x `mod` V)) <$> row.
Proof.
  destruct beam_mid_facts as (_ & _ & _ & _ & Htopk & Hbound).
  rewrite zip_fmap_same, list_lookup_fmap.
  destruct (topk !! i) as [row|] eqn:Hrow; [|done]. cbn. intros [= <- <-].
  exists row. split; [done|]. split; [by eapply shape2_lookup|]. split.
  - apply lookup_lt_Some in Hrow. by rewrite (shape2_length _ _ _ Htopk) in Hrow.
  - split; [|apply zip_fmap_same].
    rewrite Forall_lookup in Hbound. by eapply Hbound.
Qed.

Lemma topk_pair_bounds (idx : nat) :
  idx < V * nb → idx `div` V < nb ∧ V * (idx `div` V) + idx `mod` V < V * nb.
Proof.
  intros Hidx. split.
  - by apply Nat.Div0.div_lt_upper_bound.
  - by rewrite <- Nat.div_mod_eq.
Qed.

Lemma beam_step_eq :
  beam_step decoder fpow rnd B V feats width alpha EOS_idx t st
  = Ok (beam_step_value decoder zero_hidden fpow rnd B V feats width alpha EOS_idx t st).
Proof.
  destruct beam_mid_facts as (Hlen & Hbh & Hbo & Hnz & Htopk & Hbound).
  destruct (beam_inv_output _ _ _ _ Hinv) as [HB Hol].
  destruct Hinv as (Hin & Hhid & Hcum & _).
  unfold beam_step, beam_step_value.
  rewrite (shape2_length _ _ _ Hin), (shape2_length _ _ _ Hhid), (shape2_length _ _ _ Hcum).
  rewrite !bool_decide_eq_true_2 by done. cbn [andb py_assert mbind result_bind].
  rewrite (beam_slots_value B nb t) by done. cbn [mbind result_bind].
  fold slots. 
  assert (Hne : slots ≠ []) by (intros Hs; rewrite Hs in Hlen; cbn in Hlen; lia).
  rewrite !cat_dim1_value by (by destruct slots).
  cbn [mbind result_bind]. fold beam_hidden_list beam_output_list normalized topk.
  rewrite topk_output_list_value; cycle 1.
  { apply Forall_fmap. destruct Htopk as [_ Hrows].
    eapply Forall_impl; [exact Hrows|]. cbn. intros row Hrow. by rewrite length_fmap. }
  cbn [mbind result_bind].
  rewrite (mapM_Ok _ (gather_value zero_hidden V beam_hidden_list beam_output_list
                        (output_list st))); [done|].
  apply Forall_forall. intros [i [bis ois]] Hin'%elem_of_enumerate.
  destruct (topk_pairs i bis ois Hin') as (row & Hrow & Hlrow & Hi & Hidx & Hzip).
  apply (beam_gather_value B V nb); try done. cbn [fst snd].
  rewrite Hzip. apply Forall_fmap. eapply Forall_impl; [exact Hidx|]. cbn.
  intros idx Hlt. by apply topk_pair_bounds.
Qed.


Let gathered :=
  gather_value zero_hidden V beam_hidden_list beam_output_list (output_list st)
    <$> enumerate (zip ((λ row : list nat, (λ x, x `div` V) <$> row) <$> topk)
                       ((λ row : list nat, (λ x, x `mod` V) <$> row) <$> topk)).


Lemma length_gathered : length gathered = B.
Proof.
  destruct beam_mid_facts as (_ & _ & _ & _ & Htopk & _).
  unfold gathered. rewrite length_fmap, length_enumerate, zip_fmap_same, length_fmap.
  by apply shape2_length in Htopk.
Qed.

Lemma gathered_rows (i : nat) (grow : list (Hidden * Q * list nat)) :
  gathered !! i = Some grow →
  length grow = width ∧ Forall (λ g, length g.2 = S t) grow.
Proof.
  destruct beam_mid_facts as (_ & _ & _ & _ & Htopk & Hbound).
  destruct Hinv as (_ & _ & _ & [HB Hpaths]).
  unfold gathered.
  rewrite list_lookup_fmap, lookup_enumerate, zip_fmap_same, list_lookup_fmap.
  destruct (topk !! i) as [row|] eqn:Hrow; [|done]. cbn. intros [= <-].
  unfold gather_value. cbn [fst snd]. rewrite zip_fmap_same.
  split.
  - rewrite !length_fmap. by eapply shape2_lookup.
  - apply Forall_fmap, Forall_fmap. rewrite Forall_lookup in Hbound.
    eapply Forall_impl; [exact (Hbound _ _ Hrow)|]. cbn. intros idx Hidx.
    rewrite length_app. cbn.
    destruct (lookup_lt_is_Some_2 (output_list st) i) as [ol Hol].
    { rewrite HB. apply lookup_lt_Some in Hrow.
      by rewrite (shape2_length _ _ _ Htopk) in Hrow. }
    rewrite Hol. cbn. rewrite Forall_lookup in Hpaths.
    destruct (Hpaths _ _ Hol) as [Hlen Hp].
    destruct (lookup_lt_is_Some_2 ol (idx `div` V)) as [p Hpl].
    { rewrite Hlen. by apply topk_pair_bounds. }
    rewrite Hpl. cbn. rewrite Forall_lookup in Hp. rewrite (Hp _ _ Hpl). lia.
Qed.

Lemma length_column {A} (proj : Hidden * Q * list nat → A) (k : nat) :
  k < width →
  length (omap (λ row : list (Hidden * Q * list nat), proj <$> row !! k) gathered) = B.
Proof.
  intros Hk. rewrite <- length_gathered.
  assert (Hrows : Forall (λ row : list (Hidden * Q * list nat), k < length row) gathered).
  { apply Forall_lookup. intros i grow Hi.
    destruct (gathered_rows i grow Hi) as [-> _]. done. }
  induction Hrows as [|grow gs Hgrow _ IH]; [done|]. cbn.
  destruct (lookup_lt_is_Some_2 grow k Hgrow) as [g ->]. cbn. by rewrite IH.
Qed.

Lemma beam_step_value_inv :
  beam_inv B width (S t)
    (beam_step_value decoder zero_hidden fpow rnd B V feats width alpha EOS_idx t st).
Proof.
  destruct beam_mid_facts as (_ & _ & _ & _ & Htopk & _).
  unfold beam_step_value. fold slots.
  fold beam_hidden_list beam_output_list normalized topk gathered.
  unfold beam_inv. cbn [input_list hidden_list cum_prob_list output_list].
  split; [|split; [|split]].
  - split; [by rewrite length_fmap, length_seq|].
    apply Forall_fmap, Forall_forall. intros i _. cbn.
    rewrite !length_fmap. by apply shape2_length in Htopk.
  - split; [by rewrite length_fmap, length_seq|].
    apply Forall_fmap, Forall_forall. intros k Hk%elem_of_seq. cbn.
    apply length_column. lia.
  - split; [by rewrite length_fmap, length_seq|].
    apply Forall_fmap, Forall_forall. intros k Hk%elem_of_seq. cbn.
    apply length_column. lia.
  - split; [by rewrite length_fmap, length_gathered|].
    apply Forall_fmap, Forall_lookup. intros i grow Hi. cbn.
    destruct (gathered_rows i grow Hi) as [Hlen Hp].
    split; [by rewrite length_fmap|]. by apply Forall_fmap.
Qed.


End BeamStep.

Lemma beam_init_inv (B SOS_idx : nat) :
  beam_inv B 1 0 (beam_init zero_hidden B SOS_idx).
Proof.
  unfold beam_inv, beam_init, get_rnn_init_hidden. cbn.
  split; [|split; [|split]].
  - split; [done|]. constructor; [apply length_replicate|done].
  - split; [done|]. constructor; [apply length_replicate|done].
  - split; [done|]. constructor; [apply length_replicate|done].
  - split; [apply length_replicate|].
    apply Forall_forall. intros ol ->%elem_of_replicate_inv.
    split; [done|]. by constructor.
Qed.



Variable output_size : nat.
Variable max_caption_len : nat.
Variable vocab : Vocab.


Section WidthOne.

(** Rounding to nearest keeps the order of the exact results
    ([round_f32_mono] for single precision). *)
Hypothesis rnd_mono : ∀ x y, (x <= y)%Q → (rnd x <= rnd y)%Q.




Section OneStep.

Variables (B V t EOS_idx : nat) (feats : list Feat) (alpha : Q).
Variables (st : beam_state Hidden) (input : list nat) (hidden : list Hidden).
Variable cum_prob : list Q.
Hypothesis Hdec : decoder_shape decoder V.
Hypothesis Hfeats : length feats = B.
Hypothesis HV : 0 < V.
Hypothesis Hinv : beam_inv B 1 t st.
Hypothesis Hin : input_list st = [input].
Hypothesis Hhid : hidden_list st = [hidden].
Hypothesis Hcum : cum_prob_list st = [cum_prob].





End OneStep.




End WidthOne.

End BeamFacts.

(** ** The example decoder *)

Lemma example_decoder_shape : decoder_shape example_decoder 4.
Proof.
  intros input hidden feats Hin Hhid. cbn. split; [|done].
  split; [by rewrite length_fmap|].
  apply Forall_fmap, Forall_forall. intros token _. cbn.
  by destruct token as [|[|[|]]].
Qed.






(** In single precision the score of a path without [<EOS>] can hide the
    order of the log-probabilities: at the second step the sums of the
    cumulative score with the two close entries of [close_row] round to the
    same number, and the token chosen is index 0 although index 1 has the
    greater log-probability. *)
Lemma width_one_rounding_collision :
  describe close_decoder 4 tt 1 example_vocab fpow_zero round_f32 [tt] 1 0%Q = Ok [[1; 1; 0]]
  ∧ greedy_decode close_decoder tt 1 example_vocab [tt] = Ok [[1; 1; 1]]
  ∧ ¬ is_argmax close_row 0
  ∧ round_f32 (- (11629081 # 16777216) + - (11629080 # 16777216))
    = round_f32 (- (11629080 # 16777216) + - (11629080 # 16777216)).
Proof.
  split; [by vm_compute|]. split; [by vm_compute|]. split; [|by vm_compute].
  intros (v & Hv & Hmax). cbn in Hv. injection Hv as <-.
  specialize (Hmax 1 (- (11629080 # 16777216))%Q eq_refl). by apply Hmax.
Qed.

(** * Further properties *)

(** ** [LossChecker]: [update] and the edges of [mean] *)

Section LossCheckerEdges.

Import LossChecker.

Lemma update_loop_spec (loss_vals : list Q) :
  ∀ i ls, i + length loss_vals ≤ length ls →
    update_loop i loss_vals ls
    = Ok (take i ls ++ zip_with (λ l v, l ++ [v]) (drop i ls) loss_vals
          ++ drop (i + length loss_vals) ls).
Proof.
  induction loss_vals as [|v vs IH]; intros i ls Hlen; cbn.
  - rewrite zip_with_nil_r, Nat.add_0_r. cbn. by rewrite take_drop.
  - destruct (getitem_lt ls i) as (l & Hl & ->); [cbn in Hlen; lia|]. cbn.
    cbn in Hlen.
    rewrite IH by (rewrite length_insert; lia). f_equal.
    rewrite (take_S_r _ i (l ++ [v])) by (apply list_lookup_insert_eq; lia).
    rewrite take_insert_ge by lia. rewrite <- app_assoc. f_equal.
    rewrite (drop_S ls l i Hl). cbn.
    rewrite !drop_insert_lt by lia.
    by replace (S (i + length vs)) with (i + S (length vs)) by lia.
Qed.

(** X1. [update] refuses a call that does not give one value per
    component; otherwise it appends each value to the history of its own
    component and changes nothing else. *)
Theorem X1_update_appends (lc : t) (loss_vals : list Q) :
  wf lc →
  update lc loss_vals
  = if bool_decide (length loss_vals = num_losses lc)
    then Ok (mk (num_losses lc) (zip_with (λ l v, l ++ [v]) (losses lc) loss_vals))
    else Raise AssertionError.
Proof.
  intros Hwf. unfold update, wf in *. case_bool_decide as Hn; [|done].
  cbn [py_assert mbind result_bind].
  rewrite update_loop_spec by lia. cbn [mbind result_bind take app drop Nat.add].
  rewrite (drop_ge (losses lc) (length loss_vals)) by lia.
  by rewrite take_0, drop_0, app_nil_r.
Qed.

Lemma X1_update_appends_witness :
  update (init 2) [1; 10]%Q = Ok (mk 2 [[1%Q]; [10%Q]])
  ∧ update (init 2) [1]%Q = Raise AssertionError.
Proof.
  split.
  - apply (X1_update_appends (init 2) [1; 10]%Q). apply wf_init.
  - apply (X1_update_appends (init 2) [1]%Q). apply wf_init.
Defined.

Lemma py_slice_from_nil {A} (start : Z) : py_slice_from start (@nil A) = [].
Proof. unfold py_slice_from. by rewrite drop_nil. Qed.

Lemma mean_loop_empty_component (last : Z) (ls : list (list Q)) :
  [] ∈ ls → ∀ i mean_losses, i + length ls ≤ length mean_losses →
  mean_loop last i ls mean_losses = Raise ZeroDivisionError.
Proof.
  induction ls as [|loss ls IH]; intros Hin i ml Hlen; [by apply elem_of_nil in Hin|].
  cbn. unfold mean_of.
  destruct (py_slice_from (- last) loss) as [|x w] eqn:Hw; [done|]. cbn.
  destruct (getitem_lt ml i) as (y & _ & ->); [cbn in Hlen; lia|]. cbn.
  apply IH.
  - apply elem_of_cons in Hin as [<-|Hin]; [|done].
    by rewrite py_slice_from_nil in Hw.
  - rewrite length_insert. cbn in Hlen. lia.
Qed.

(** X2. [mean] raises [ZeroDivisionError] as soon as one component has no
    recorded value, whatever [last] is; in particular on a checker that
    was never updated. *)
Theorem X2_mean_without_values (lc : t) (last : Z) :
  wf lc → [] ∈ losses lc → mean lc last = Raise ZeroDivisionError.
Proof.
  intros Hwf Hin. unfold mean. apply mean_loop_empty_component; [done|].
  rewrite length_replicate. unfold wf in Hwf. lia.
Qed.

Lemma X2_mean_without_values_witness : mean (init 3) 10 = Raise ZeroDivisionError.
Proof.
  apply (X2_mean_without_values (init 3) 10); [apply wf_init|].
  cbn. apply elem_of_cons. by left.
Defined.

Lemma mean_loop_ext (last1 last2 : Z) (ls : list (list Q)) :
  Forall (λ loss, py_slice_from (- last1) loss = py_slice_from (- last2) loss) ls →
  ∀ i mean_losses, mean_loop last1 i ls mean_losses = mean_loop last2 i ls mean_losses.
Proof.
  induction 1 as [|loss ls Hloss _ IH]; intros i ml; [done|].
  cbn. rewrite Hloss. destruct (mean_of _); [|done]. cbn.
  destruct (getitem ml i); [|done]. cbn. apply IH.
Qed.

(** X3. A window at least as long as every history is the whole history:
    [mean(last)] is then [mean()]. *)
Theorem X3_mean_window_saturates (lc : t) (last : nat) :
  Forall (λ loss, length loss ≤ last) (losses lc) →
  mean lc (Z.of_nat last) = mean lc 0.
Proof.
  intros Hall. unfold mean. apply mean_loop_ext.
  eapply Forall_impl; [exact Hall|]. cbn. intros loss Hlen.
  rewrite py_slice_from_window. change (- 0)%Z with (- Z.of_nat 0)%Z.
  rewrite py_slice_from_window. unfold spec_window.
  destruct last as [|n]; [done|]. by replace (length loss - S n) with 0 by lia.
Qed.

Lemma X3_mean_window_saturates_witness :
  mean (mk 2 [[1; 2; 3]; [10; 20; 30]]%Q) 10 = mean (mk 2 [[1; 2; 3]; [10; 20; 30]]%Q) 0.
Proof.
  apply (X3_mean_window_saturates (mk 2 [[1; 2; 3]; [10; 20; 30]]%Q) 10).
  repeat constructor; cbn; lia.
Defined.

Lemma py_slice_from_negative_last {A} (k : nat) (l : list A) :
  py_slice_from (- - Z.of_nat k) l = drop k l.
Proof.
  unfold py_slice_from. rewrite Z.opp_involutive.
  replace (Z.of_nat k <? 0)%Z with false by (symmetry; apply Z.ltb_ge; lia).
  destruct (decide (k ≤ length l)).
  - f_equal. lia.
  - rewrite Z.min_r by lia. rewrite Nat2Z.id. by rewrite !drop_ge by lia.
Qed.

Lemma mean_loop_windows (last : Z) (ls : list (list Q)) :
  Forall (λ loss, py_slice_from (- last) loss ≠ []) ls →
  ∀ i mean_losses, length mean_losses = i + length ls →
    mean_loop last i ls mean_losses
    = Ok (take i mean_losses
          ++ ((λ loss, py_sum (py_slice_from (- last) loss)
                       / inject_Z (Z.of_nat (length (py_slice_from (- last) loss))))%Q
                <$> ls)).
Proof.
  induction 1 as [|loss ls Hloss _ IH]; intros i ml Hlen; cbn.
  - rewrite take_ge by (cbn in Hlen; lia). by rewrite app_nil_r.
  - rewrite mean_of_nonempty by done. cbn.
    cbn in Hlen.
    destruct (getitem_lt ml i) as (x & Hx & ->); [lia|]. cbn.
    rewrite IH by (rewrite length_insert; lia). f_equal.
    erewrite take_S_r by (apply list_lookup_insert_eq; lia).
    rewrite take_insert_ge by lia. by rewrite <- app_assoc.
Qed.

(** X4. A negative [last] does not fail and does not select the most
    recent values: [mean(last=-k)] drops the [k] oldest values of every
    component and is the mean of the rest. *)
Theorem X4_mean_negative_last (lc : t) (k : nat) :
  wf lc → Forall (λ loss, k < length loss) (losses lc) →
  mean lc (- Z.of_nat k)
  = Ok ((λ loss, py_sum (drop k loss) / inject_Z (Z.of_nat (length loss - k)))%Q
          <$> losses lc).
Proof.
  intros Hwf Hall. unfold mean.
  rewrite mean_loop_windows.
  - cbn [take app]. f_equal. apply list_fmap_ext. intros _ loss _.
    by rewrite py_slice_from_negative_last, length_drop.
  - eapply Forall_impl; [exact Hall|]. cbn. intros loss Hlen.
    rewrite py_slice_from_negative_last. intros Hnil.
    apply (f_equal length) in Hnil. rewrite length_drop in Hnil. cbn in Hnil. lia.
  - rewrite length_replicate. unfold wf in Hwf. lia.
Qed.

Lemma X4_mean_negative_last_witness :
  mean (mk 1 [[1; 2; 3]]%Q) (- 1) = Ok [((0 + 2 + 3) / 2)%Q].
Proof.
  apply (X4_mean_negative_last (mk 1 [[1; 2; 3]]%Q) 1); [done|].
  repeat constructor.
Defined.

End LossCheckerEdges.

(** ** [train] and [test] on their iterators *)

Section TrainTestEdges.

Context {Model Optimizer Stream Feat : Type}.
Variable torch_cat_dim2 : list Stream → list Feat.
Variable forward : Model → list Feat → list (list nat) → Q → list (list (list Q)).
Variable nll_loss : list (list Q) → list nat → nat → Q.
Variable softmax_dim1 log_softmax_dim1 : list (list (list Q)) → list (list (list Q)).
Variable zero_grad : Optimizer → Optimizer.
Variable backward_step : Model → Optimizer → Q → option Q → Model * Optimizer.

(** X5. [test] never returns its dictionary of losses: without [<PAD>] in
    the vocabulary it raises [KeyError], on an empty iterator the means are
    taken over empty histories and it raises [ZeroDivisionError], and on
    the first batch of a non-empty iterator it raises [NameError], the name
    [losses] not being bound in [utils.py] (the forward pass and the
    cross-entropy are taken to return). *)
Theorem X5_test_never_returns (model : Model) (val_iter : list (Batch Stream))
    (vocab : Vocab) (reg_lambda : Q) :
  test torch_cat_dim2 forward nll_loss softmax_dim1 log_softmax_dim1
    model val_iter vocab reg_lambda
  = match word2idx vocab !! "<PAD>", val_iter with
    | None, _ => Raise KeyError
    | Some _, [] => Raise ZeroDivisionError
    | Some _, _ :: _ => Raise (NameError "losses")
    end.
Proof.
  unfold test, dict_get. destruct (word2idx vocab !! "<PAD>") as [PAD_idx|]; [|done].
  destruct val_iter as [|batch rest]; [done|].
  cbn [mbind result_bind test_loop]. unfold test_batch.
  by destruct (parse_batch torch_cat_dim2 batch) as [[vids feats] captions].
Qed.

(** X6. On an empty iterator [train] does not return zero losses: the
    means are taken over empty histories and it raises
    [ZeroDivisionError] (a [KeyError] when the vocabulary has no [<PAD>]). *)
Theorem X6_train_empty_iterator (e : nat) (model : Model) (optimizer : Optimizer)
    (vocab : Vocab) (teacher_forcing_ratio reg_lambda : Q) (gradient_clip : option Q) :
  train torch_cat_dim2 forward nll_loss softmax_dim1 log_softmax_dim1 zero_grad backward_step
    e model optimizer [] vocab teacher_forcing_ratio reg_lambda gradient_clip
  = match word2idx vocab !! "<PAD>" with
    | Some _ => Raise ZeroDivisionError
    | None => Raise KeyError
    end.
Proof.
  unfold train, dict_get. by destruct (word2idx vocab !! "<PAD>").
Qed.

End TrainTestEdges.

(** ** The teacher-forced rollout *)

Section RolloutFacts.

Context {Hidden Feat : Type}.
Variable decoder : list nat → list Hidden → list Feat → list (list Q) * list Hidden.
Variable output_size : nat.
Variable zero_hidden : Hidden.
Variable max_caption_len : nat.
Variable vocab : Vocab.

Lemma forward_decoder_loop_no_teacher (ratio : Q) (rand : nat → Q) (feats : list Feat)
    (captions : option (list (list nat))) (ts : list nat) :
  Forall (λ t, Qlt_bool (rand t) ratio = false) ts →
  ∀ outputs output hidden,
    forward_decoder_loop decoder ts feats captions ratio rand outputs output hidden
    = forward_decoder_loop decoder ts feats None ratio rand outputs output hidden.
Proof.
  induction 1 as [|t ts Ht _ IH]; intros outputs output hidden; [done|].
  cbn. destruct (decoder output hidden feats) as [out hidden'].
  destruct (getitem outputs t); [|done]. cbn. rewrite Ht.
  destruct (mapM argmax out); [|done]. cbn. apply IH.
Qed.

(** X7. When no draw falls below the teacher-forcing ratio (as with the
    default ratio 0), the rollout never reads the captions: [forward] gives
    the same result for any captions, and for none. *)
Theorem X7_forward_ignores_captions (feats : list Feat)
    (captions captions' : option (list (list nat))) (ratio : Q) (rand : nat → Q) :
  (∀ t, (ratio <= rand t)%Q) →
  forward decoder output_size zero_hidden max_caption_len vocab feats captions ratio rand
  = forward decoder output_size zero_hidden max_caption_len vocab feats captions' ratio rand.
Proof.
  intros Hno. unfold forward, forward_decoder.
  destruct (dict_get (word2idx vocab) "<SOS>") as [SOS_idx|]; [|done]. cbn.
  assert (Hall : Forall (λ t, Qlt_bool (rand t) ratio = false) (seq 1 (max_caption_len + 1))).
  { apply Forall_forall. intros t _. unfold Qlt_bool.
    apply negb_false_iff, Qle_bool_iff, Hno. }
  rewrite (forward_decoder_loop_no_teacher _ _ _ captions) by done.
  by rewrite (forward_decoder_loop_no_teacher _ _ _ captions') by done.
Qed.

Lemma argmax_nonempty (row : list Q) : row ≠ [] → ∃ tok, argmax row = Ok tok.
Proof. destruct row; [done|]. by eexists. Qed.

Lemma mapM_argmax_shape (B V : nat) (out : list (list Q)) :
  0 < V → shape2 B V out → ∃ top1, mapM argmax out = Ok top1 ∧ length top1 = B.
Proof.
  intros HV [HB Hrows].
  destruct (mapM_Ok_ex argmax out) as [top1 Htop].
  - eapply Forall_impl; [exact Hrows|]. cbn. intros row Hrow.
    apply argmax_nonempty. intros ->. cbn in Hrow. lia.
  - exists top1. split; [done|]. apply mapM_Ok_length in Htop. lia.
Qed.

Lemma shape3_insert {A} (T B V t : nat) (outputs : list (list (list A))) (out : list (list A)) :
  shape3 T B V outputs → shape2 B V out → shape3 T B V (<[t := out]> outputs).
Proof.
  intros [HT Hrows] Hout. split; [by rewrite length_insert|].
  by apply Forall_insert.
Qed.

Section Rollout.

Variables (T B V : nat) (feats : list Feat).
Variables (captions : option (list (list nat))) (ratio : Q) (rand : nat → Q).
Hypothesis Hdec : decoder_shape decoder V.
Hypothesis HV : 0 < V.
Hypothesis Hfeats : length feats = B.

Lemma forward_decoder_loop_shape (ts : list nat) :
  Forall (λ t, t < T ∧ teacher_row_available B captions ratio rand t) ts →
  ∀ outputs output hidden,
    shape3 T B V outputs → length output = B → length hidden = B →
    ∃ outputs',
      forward_decoder_loop decoder ts feats captions ratio rand outputs output hidden
      = Ok outputs'
      ∧ shape3 T B V outputs'
      ∧ ∀ t, t ∉ ts → outputs' !! t = outputs !! t.
Proof.
  induction 1 as [|t ts [Ht Hrow] _ IH]; intros outputs output hidden Hout Hlo Hlh.
  - by exists outputs.
  - cbn. destruct (Hdec output hidden feats) as [Hshape Hnext]; [congruence|congruence|].
    destruct (decoder output hidden feats) as [out hidden']. cbn in Hshape, Hnext.
    rewrite Hfeats in Hshape, Hnext.
    destruct (getitem_lt outputs t) as (o & _ & ->); [destruct Hout; lia|]. cbn.
    destruct (mapM_argmax_shape B V out HV Hshape) as (top1 & -> & Htop). cbn.
    assert (Hnext_input : ∃ output',
              (if Qlt_bool (rand t) ratio
               then match captions with
                    | Some c => getitem c t
                    | None => Raise (AttributeError "NoneType" "data")
                    end
               else Ok top1) = Ok output' ∧ length output' = B).
    { destruct (Qlt_bool (rand t) ratio) eqn:Hteach; [|by exists top1].
      destruct (Hrow Hteach) as (c & row & -> & Hc & Hlen).
      exists row. by rewrite (getitem_Ok _ _ _ Hc). }
    destruct Hnext_input as (output' & -> & Hlo'). cbn.
    destruct (IH (<[t := out]> outputs) output' hidden') as (outputs' & -> & Hsh & Hkeep);
      [by apply shape3_insert | done | done |].
    exists outputs'. split; [done|]. split; [done|].
    intros t' Ht'. apply not_elem_of_cons in Ht' as [Hne Ht'].
    rewrite Hkeep by done. by rewrite list_lookup_insert_ne.
Qed.

Lemma forward_decoder_loop_no_captions (ts : list nat) :
  captions = None →
  Forall (λ t, t < T) ts →
  Exists (λ t, Qlt_bool (rand t) ratio = true) ts →
  ∀ outputs output hidden,
    shape3 T B V outputs → length output = B → length hidden = B →
    forward_decoder_loop decoder ts feats captions ratio rand outputs output hidden
    = Raise (AttributeError "NoneType" "data").
Proof.
  intros ->. induction ts as [|t ts IH]; intros Hts Hex outputs output hidden Hout Hlo Hlh.
  - by apply Exists_nil in Hex.
  - apply Forall_cons in Hts as [Ht Hts].
    cbn. destruct (Hdec output hidden feats) as [Hshape Hnext]; [congruence|congruence|].
    destruct (decoder output hidden feats) as [out hidden']. cbn in Hshape, Hnext.
    rewrite Hfeats in Hshape, Hnext.
    destruct (getitem_lt outputs t) as (o & _ & ->); [destruct Hout; lia|]. cbn.
    destruct (mapM_argmax_shape B V out HV Hshape) as (top1 & -> & Htop). cbn.
    destruct (Qlt_bool (rand t) ratio) eqn:Hteach; [done|]. cbn.
    apply Exists_cons in Hex as [Hex|Hex]; [congruence|].
    apply IH; [done|done|by apply shape3_insert|done|done].
Qed.

End Rollout.

Lemma shape3_zeros (T B V : nat) :
  shape3 T B V (replicate T (replicate B (replicate V 0%Q))).
Proof.
  split; [apply length_replicate|].
  apply Forall_forall. intros x ->%elem_of_replicate_inv.
  split; [apply length_replicate|].
  apply Forall_forall. intros y ->%elem_of_replicate_inv. apply length_replicate.
Qed.

(** X8. [forward] returns a buffer of shape
    ([max_caption_len + 2], batch, vocabulary) whose time index 0 is left
    at zero, provided the captions have a row of the width of the batch at
    every step where teacher forcing fires. *)
Theorem X8_forward_buffer (feats : list Feat) (captions : option (list (list nat)))
    (ratio : Q) (rand : nat → Q) (SOS_idx : nat) :
  decoder_shape decoder output_size → 0 < output_size →
  word2idx vocab !! "<SOS>" = Some SOS_idx →
  (∀ t, 1 ≤ t ≤ max_caption_len + 1 →
        teacher_row_available (length feats) captions ratio rand t) →
  ∃ outputs,
    forward decoder output_size zero_hidden max_caption_len vocab feats captions ratio rand
    = Ok outputs
    ∧ shape3 (max_caption_len + 2) (length feats) output_size outputs
    ∧ outputs !! 0 = Some (replicate (length feats) (replicate output_size 0%Q)).
Proof.
  intros Hdec HV HSOS Hrows. unfold forward, forward_decoder, dict_get. rewrite HSOS.
  cbn [mbind result_bind].
  destruct (forward_decoder_loop_shape (max_caption_len + 2) (length feats) output_size
              feats captions ratio rand Hdec HV eq_refl (seq 1 (max_caption_len + 1)))
    with (outputs := replicate (max_caption_len + 2)
                       (replicate (length feats) (replicate output_size 0%Q)))
         (output := replicate (length feats) SOS_idx)
         (hidden := get_rnn_init_hidden zero_hidden (length feats))
    as (outputs & -> & Hshape & Hkeep).
  - apply Forall_forall. intros t Ht%elem_of_seq. split; [lia|]. apply Hrows. lia.
  - apply shape3_zeros.
  - apply length_replicate.
  - apply length_replicate.
  - exists outputs. split; [done|]. split; [done|].
    rewrite Hkeep by (intros Hin%elem_of_seq; lia).
    apply lookup_replicate_2. lia.
Qed.

(** X9. With the default [captions = None], [forward] raises
    [AttributeError] as soon as teacher forcing fires at one step: the
    rollout then reads [captions.data]. *)
Theorem X9_forward_teacher_without_captions (feats : list Feat) (ratio : Q) (rand : nat → Q)
    (SOS_idx t : nat) :
  decoder_shape decoder output_size → 0 < output_size →
  word2idx vocab !! "<SOS>" = Some SOS_idx →
  1 ≤ t ≤ max_caption_len + 1 → (rand t < ratio)%Q →
  forward decoder output_size zero_hidden max_caption_len vocab feats None ratio rand
  = Raise (AttributeError "NoneType" "data").
Proof.
  intros Hdec HV HSOS Ht Hfire. unfold forward, forward_decoder, dict_get. rewrite HSOS.
  cbn [mbind result_bind].
  apply (forward_decoder_loop_no_captions (max_caption_len + 2) (length feats) output_size
           feats None ratio rand Hdec HV eq_refl).
  - done.
  - apply Forall_forall. intros t' Ht'%elem_of_seq. lia.
  - apply Exists_exists. exists t. split; [apply elem_of_seq; lia|].
    unfold Qlt_bool. apply negb_true_iff. apply not_true_iff_false.
    intros Hle%Qle_bool_iff. by apply Qle_not_lt in Hle.
  - apply shape3_zeros.
  - apply length_replicate.
  - apply length_replicate.
Qed.

End RolloutFacts.

(** X7 at a concrete input: the default ratio 0, with and without captions. *)
Lemma X7_forward_ignores_captions_witness :
  forward example_decoder 4 tt 2 example_vocab [tt; tt] None 0%Q (λ _, 1 # 2)%Q
  = forward example_decoder 4 tt 2 example_vocab [tt; tt] (Some [[1; 1]]) 0%Q (λ _, 1 # 2)%Q.
Proof.
  apply (X7_forward_ignores_captions example_decoder 4 tt 2 example_vocab [tt; tt]
           None (Some [[1; 1]]) 0%Q (λ _, 1 # 2)%Q).
  intros t. vm_compute. discriminate.
Defined.

(** X8 at a concrete input: teacher forcing at every step, on captions of
    [2 + 2] rows for a batch of two. *)
Lemma X8_forward_buffer_witness :
  ∃ outputs,
    forward example_decoder 4 tt 2 example_vocab [tt; tt]
      (Some [[1; 1]; [3; 3]; [3; 2]; [2; 0]]) 1%Q (λ _, 1 # 2)%Q = Ok outputs
    ∧ shape3 (2 + 2) 2 4 outputs
    ∧ outputs !! 0 = Some (replicate 2 (replicate 4 0%Q)).
Proof.
  apply (X8_forward_buffer example_decoder 4 tt 2 example_vocab [tt; tt]
           (Some [[1; 1]; [3; 3]; [3; 2]; [2; 0]]) 1%Q (λ _, 1 # 2)%Q 1).
  - exact example_decoder_shape.
  - lia.
  - reflexivity.
  - intros t Ht _. exists [[1; 1]; [3; 3]; [3; 2]; [2; 0]].
    destruct t as [|[|[|[|t]]]]; cbn in Ht; try lia; by eexists.
Defined.

(** X9 at a concrete input: teacher forcing fires at the first step. *)
Lemma X9_forward_teacher_without_captions_witness :
  forward example_decoder 4 tt 2 example_vocab [tt; tt] None 1%Q (λ _, 1 # 2)%Q
  = Raise (AttributeError "NoneType" "data").
Proof.
  apply (X9_forward_teacher_without_captions example_decoder 4 tt 2 example_vocab [tt; tt]
           1%Q (λ _, 1 # 2)%Q 1 1).
  - exact example_decoder_shape.
  - lia.
  - reflexivity.
  - cbn. lia.
  - reflexivity.
Defined.

(** ** The tokens of a beam search *)

Section BeamTokens.

Context {Hidden Feat : Type}.
Variable decoder : list nat → list Hidden → list Feat → list (list Q) * list Hidden.
Variable zero_hidden : Hidden.
Variable fpow : Q → Q → Q.
Variable rnd : Q → Q.



Variable output_size : nat.
Variable max_caption_len : nat.
Variable vocab : Vocab.





(** X11. A beam width of 0 is not rejected: the first step keeps no
    candidate, and [describe] fails later, in [torch.cat] on the empty list
    of slot outputs at the second step, or, when there is no second step,
    in [o[0]] on the empty list of paths. *)
Theorem X11_describe_width_zero (feats : list Feat) (beam_alpha : Q) (SOS_idx EOS_idx : nat) :
  decoder_shape decoder output_size → 0 < output_size →
  word2idx vocab !! "<SOS>" = Some SOS_idx →
  word2idx vocab !! "<EOS>" = Some EOS_idx →
  1 ≤ length feats →
  describe decoder output_size zero_hidden max_caption_len vocab fpow rnd feats 0 beam_alpha
  = Raise (match max_caption_len with
           | 0 => IndexError
           | S _ => ValueError "torch.cat(): expected a non-empty list of Tensors"
           end).
Proof.
  intros Hdec HV HSOS HEOS HB.
  unfold describe, beam_search, dict_get. rewrite HSOS, HEOS.
  cbn [mbind result_bind].
  replace (max_caption_len + 1) with (S max_caption_len) by lia.
  cbn [seq beam_loop].
  pose proof (beam_init_inv zero_hidden (length feats) SOS_idx) as Hinit.
  rewrite (beam_step_eq decoder zero_hidden fpow rnd (length feats) output_size 1 0 0 EOS_idx
             feats beam_alpha _ Hdec eq_refl Hinit) by lia.
  cbn [mbind result_bind].
  pose proof (beam_step_value_inv decoder zero_hidden fpow rnd (length feats) output_size 1 0 0
                EOS_idx feats beam_alpha _ Hdec eq_refl Hinit ltac:(lia) HV ltac:(lia))
    as ([Hin _] & [Hhid _] & [Hcum _] & [Hlen Hpaths]).
  destruct (beam_step_value _ _ _ _ _ _ _ _ _ _ _) as [il hl cl ol].
  cbn [input_list hidden_list cum_prob_list output_list] in *.
  apply nil_length_inv in Hin, Hhid, Hcum. subst il hl cl.
  destruct max_caption_len as [|L]; cbn [seq beam_loop mbind result_bind].
  - destruct ol as [|o ol]; [cbn in Hlen; lia|].
    apply Forall_cons in Hpaths as [[Ho _] _]. apply nil_length_inv in Ho. subst o.
    done.
  - done.
Qed.

End BeamTokens.


(** X11 at a concrete input: a batch of two, [max_caption_len = 2]. *)
Lemma X11_describe_width_zero_witness :
  describe example_decoder 4 tt 2 example_vocab fpow_zero round_f32 [tt; tt] 0 0%Q
  = Raise (ValueError "torch.cat(): expected a non-empty list of Tensors").
Proof.
  apply (X11_describe_width_zero example_decoder tt fpow_zero round_f32 4 2 example_vocab
           [tt; tt] 0%Q 1 2).
  - exact example_decoder_shape.
  - lia.
  - reflexivity.
  - reflexivity.
  - cbn. lia.
Defined.


(** ** [idxs_to_sentence] *)

Section SentenceFacts.

Variable idx2word : gmap nat string.
Variable EOS_idx : nat.

(** X12. The sentence depends only on the indices strictly between the
    first one and the first [EOS_idx]: the first index is skipped and
    nothing from an [EOS_idx] on is read, not even looked up. *)
Theorem X12_sentence_ends_at_EOS (first first' : nat) (body tail : list nat) :
  idxs_to_sentence (first :: body ++ EOS_idx :: tail) idx2word EOS_idx
  = idxs_to_sentence (first' :: body) idx2word EOS_idx.
Proof.
  unfold idxs_to_sentence. cbn [skipn]. rewrite ?drop_0.
  assert (Hcut : idxs_words (body ++ EOS_idx :: tail) idx2word EOS_idx
                 = idxs_words body idx2word EOS_idx); [|by rewrite Hcut].
  clear first first'. induction body as [|idx body IH]; cbn.
  - by rewrite bool_decide_eq_true_2.
  - destruct (bool_decide (idx = EOS_idx)); [done|]. by rewrite IH.
Qed.

(** X13. When no index before the end is [EOS_idx] and each of them has a
    word, the sentence is these words, in order, joined by single spaces. *)
Theorem X13_sentence_words (first : nat) (body : list nat) (words : list string) :
  EOS_idx ∉ body → (idx2word !!.) <$> body = Some <$> words →
  idxs_to_sentence (first :: body) idx2word EOS_idx = Ok (String.concat " " words).
Proof.
  intros Hno Hwords. unfold idxs_to_sentence. cbn [skipn]. rewrite ?drop_0.
  assert (Hloop : idxs_words body idx2word EOS_idx = Ok words); [|by rewrite Hloop].
  clear first. revert words Hwords.
  induction body as [|idx body IH]; intros words Hwords.
  - by destruct words.
  - destruct words as [|word words]; [done|]. cbn in Hwords.
    injection Hwords as Hword Hwords.
    apply not_elem_of_cons in Hno as [Hne Hno]. cbn.
    rewrite bool_decide_eq_false_2 by done. unfold dict_get. rewrite Hword.
    cbn. by rewrite (IH Hno words).
Qed.

(** X14. An index without a word raises [KeyError] when it comes before
    the first [EOS_idx]; there is no fallback word. *)
Theorem X14_sentence_unknown_index (first idx : nat) (body tail : list nat) :
  EOS_idx ∉ body → idx ≠ EOS_idx → idx2word !! idx = None →
  idxs_to_sentence (first :: body ++ idx :: tail) idx2word EOS_idx = Raise KeyError.
Proof.
  intros Hno Hne Hidx. unfold idxs_to_sentence. cbn [skipn]. rewrite ?drop_0.
  assert (Hraise : idxs_words (body ++ idx :: tail) idx2word EOS_idx = Raise KeyError);
    [|by rewrite Hraise].
  clear first. induction body as [|idx' body IH]; cbn.
  - rewrite bool_decide_eq_false_2 by done. unfold dict_get. by rewrite Hidx.
  - apply not_elem_of_cons in Hno as [Hne' Hno].
    rewrite bool_decide_eq_false_2 by done. unfold dict_get.
    destruct (idx2word !! idx') as [word|]; [|done]. cbn. by rewrite IH.
Qed.

End SentenceFacts.

(** X13 at a concrete input: the caption [<SOS> a a]. *)
Lemma X13_sentence_words_witness :
  idxs_to_sentence [1; 3; 3] (idx2word example_vocab) 2 = Ok "a a".
Proof.
  apply (X13_sentence_words (idx2word example_vocab) 2 1 [3; 3] ["a"; "a"]).
  - apply (bool_decide_unpack _). reflexivity.
  - reflexivity.
Defined.

(** X14 at a concrete input: the index 7 is not in the vocabulary. *)
Lemma X14_sentence_unknown_index_witness :
  idxs_to_sentence ([1; 3] ++ 7 :: [2]) (idx2word example_vocab) 2 = Raise KeyError.
Proof.
  apply (X14_sentence_unknown_index (idx2word example_vocab) 2 1 7 [3] [2]).
  - apply (bool_decide_unpack _). reflexivity.
  - lia.
  - reflexivity.
Defined.

(** ** The deduplicated dataset *)

Section PyDictOrder.

Context {K : Type} `{EqDecision K} {V : Type}.

Lemma pd_set_new (d : list (K * V)) (k : K) (v : V) :
  k ∉ d.*1 → pd_set d k v = d ++ [(k, v)].
Proof.
  induction d as [|[k' v'] d IH]; cbn; [done|].
  intros [Hne Hk]%not_elem_of_cons. rewrite decide_False by done. by rewrite IH.
Qed.

Lemma pd_get_set (d : list (K * V)) (k k0 : K) (v : V) :
  pd_get (pd_set d k v) k0 = if decide (k0 = k) then Ok v else pd_get d k0.
Proof.
  induction d as [|[k' v'] d IH]; cbn.
  - by destruct (decide (k0 = k)).
  - destruct (decide (k = k')) as [->|Hne]; cbn.
    + by destruct (decide (k0 = k')).
    + destruct (decide (k0 = k')) as [->|Hne'].
      * by rewrite decide_False by done.
      * apply IH.
Qed.

End PyDictOrder.

Section DatasetFacts.

Context {Stream Feat : Type}.
Variable torch_cat_dim2 : list Stream → list Feat.

Lemma onlyonce_add_first_seen (l : list (string * Feat)) :
  ∀ d0, NoDup d0.*1 →
    ∃ d', fold_left onlyonce_add l d0 = d0 ++ d'
          ∧ d' `sublist_of` l
          ∧ NoDup (d0 ++ d').*1
          ∧ ∀ vid feat, (vid, feat) ∈ d' ↔
              (vid ∉ d0.*1) ∧ ∃ before after, l = before ++ (vid, feat) :: after
                                            ∧ vid ∉ before.*1.
Proof.
  induction l as [|[k v] l IH]; intros d0 Hd0.
  - exists []. rewrite app_nil_r. split; [done|]. split; [done|]. split; [done|].
    intros vid feat. split; [by intros ?%elem_of_nil|].
    intros (_ & before & after & Heq & _). by destruct before.
  - cbn [fold_left]. unfold onlyonce_add at 2. cbn [fst snd]. unfold pd_contains.
    destruct (decide (k ∈ d0.*1)) as [Hk|Hk].
    + rewrite bool_decide_eq_true_2 by done.
      destruct (IH d0 Hd0) as (d' & Hfold & Hsub & Hnd & Hiff).
      exists d'. split; [done|]. split; [by apply sublist_cons|]. split; [done|].
      intros vid feat. rewrite Hiff. split.
      * intros (Hvid & before & after & -> & Hbefore). split; [done|].
        exists ((k, v) :: before), after. split; [done|].
        cbn. apply not_elem_of_cons. split; [congruence|done].
      * intros (Hvid & before & after & Heq & Hbefore). split; [done|].
        destruct before as [|kv before]; cbn in Heq.
        { injection Heq as -> -> ->. done. }
        injection Heq as <- ->. exists before, after. split; [done|].
        cbn in Hbefore. by apply not_elem_of_cons in Hbefore as [_ ?].
    + rewrite bool_decide_eq_false_2 by done. rewrite pd_set_new by done.
      destruct (IH (d0 ++ [(k, v)])) as (d' & Hfold & Hsub & Hnd & Hiff).
      { rewrite fmap_app. apply NoDup_app. split; [done|]. split.
        - intros x Hx. cbn. intros ->%list_elem_of_singleton. done.
        - cbn. apply NoDup_singleton. }
      exists ((k, v) :: d'). rewrite Hfold, <- app_assoc. split; [done|].
      split; [by apply sublist_skip|].
      split; [by rewrite <- app_assoc in Hnd|].
      intros vid feat. rewrite elem_of_cons, Hiff, fmap_app, not_elem_of_app. cbn.
      rewrite list_elem_of_singleton. split.
      * intros [[= -> ->]|((Hvid & Hne) & before & after & -> & Hbefore)].
        { split; [done|]. exists [], l. split; [done|]. cbn. apply not_elem_of_nil. }
        split; [done|]. exists ((k, v) :: before), after. split; [done|].
        cbn. apply not_elem_of_cons. done.
      * intros (Hvid & before & after & Heq & Hbefore).
        destruct before as [|kv before]; cbn in Heq.
        { injection Heq as -> -> ->. by left. }
        injection Heq as <- ->. right. cbn in Hbefore.
        apply not_elem_of_cons in Hbefore as [Hne Hbefore].
        split; [done|]. by exists before, after.
Qed.

Lemma build_onlyonce_dataset_pairs (data_iter : list (Batch Stream)) :
  ∀ d0, fold_left (onlyonce_add_batch torch_cat_dim2) data_iter d0
        = fold_left onlyonce_add (video_pairs torch_cat_dim2 data_iter) d0.
Proof.
  unfold video_pairs. induction data_iter as [|batch rest IH]; intros d0; [done|].
  cbn [fold_left fmap list_fmap concat]. rewrite fold_left_app, IH.
  unfold onlyonce_add_batch.
  by destruct (parse_batch torch_cat_dim2 batch) as [[vids feats] captions].
Qed.

(** X15. The dataset built by [build_onlyonce_iter] holds every video id
    once, in the order of first appearance, with the feature tensor of its
    first appearance: an entry is in the dataset exactly when it is a pair
    of the stream whose id does not occur earlier in the stream. *)
Theorem X15_onlyonce_dataset_first_seen (data_iter : list (Batch Stream)) :
  NoDup (build_onlyonce_dataset torch_cat_dim2 data_iter).*1
  ∧ build_onlyonce_dataset torch_cat_dim2 data_iter
      `sublist_of` video_pairs torch_cat_dim2 data_iter
  ∧ ∀ vid feat,
      (vid, feat) ∈ build_onlyonce_dataset torch_cat_dim2 data_iter ↔
      ∃ before after,
        video_pairs torch_cat_dim2 data_iter = before ++ (vid, feat) :: after
        ∧ vid ∉ before.*1.
Proof.
  unfold build_onlyonce_dataset. rewrite build_onlyonce_dataset_pairs.
  destruct (onlyonce_add_first_seen (video_pairs torch_cat_dim2 data_iter) [])
    as (d' & -> & Hsub & Hnd & Hiff); [constructor|].
  cbn [app] in *. split; [done|]. split; [done|].
  intros vid feat. rewrite Hiff. cbn. split.
  - by intros [_ ?].
  - intros ?. split; [apply not_elem_of_nil|done].
Qed.

(** ** The reference captions *)

Lemma mapM_cons_Ok {A C} (f : A → result C) (a : A) (l : list A) (k : list C) :
  mapM f (a :: l) = Ok k → ∃ b bs, f a = Ok b ∧ mapM f l = Ok bs ∧ k = b :: bs.
Proof.
  cbn. destruct (f a) as [b|]; [|done]. cbn.
  destruct (mapM f l) as [bs|]; [|done]. cbn. intros [= <-]. by exists b, bs.
Qed.

Lemma groundtruth_batch_grouping (vocab : Vocab) (EOS_idx : nat)
    (pairs : list (string * list nat)) :
  ∀ sentences d0,
    mapM (λ caption, idxs_to_sentence caption (idx2word vocab) EOS_idx) pairs.*2
    = Ok sentences →
    ∃ d, groundtruth_batch vocab EOS_idx pairs d0 = Ok d
         ∧ (∀ vid, vid ∈ d.*1 ↔ vid ∈ d0.*1 ∨ vid ∈ pairs.*1)
         ∧ ∀ vid, pd_get_list d vid
                  = pd_get_list d0 vid
                    ++ (filter (λ vs, vs.1 = vid) (zip pairs.*1 sentences)).*2.
Proof.
  induction pairs as [|[vid0 caption] pairs IH]; intros sentences d0 Hsent.
  - exists d0. split; [done|]. split.
    + intros vid. cbn. rewrite elem_of_nil. tauto.
    + intros vid. cbn. by rewrite app_nil_r.
  - apply mapM_cons_Ok in Hsent as (s & ss & Hs & Hss & ->). cbn [snd] in Hs.
    cbn [groundtruth_batch]. rewrite Hs. cbn [mbind result_bind].
    set (d1 := if pd_contains d0 vid0 then d0 else pd_set d0 vid0 []).
    assert (Hget : pd_get d1 vid0 = Ok (pd_get_list d0 vid0)).
    { unfold d1, pd_contains, pd_get_list.
      destruct (decide (vid0 ∈ d0.*1)) as [Hin|Hin].
      - rewrite bool_decide_eq_true_2 by done.
        by destruct (pd_get_elem_of d0 vid0 Hin) as [g ->].
      - rewrite bool_decide_eq_false_2 by done.
        rewrite pd_get_set, decide_True by done.
        by rewrite (pd_get_not_elem_of d0 vid0 Hin). }
    assert (Hkeys1 : ∀ vid, vid ∈ d1.*1 ↔ vid = vid0 ∨ vid ∈ d0.*1).
    { intros vid. unfold d1, pd_contains.
      destruct (decide (vid0 ∈ d0.*1)) as [Hin|Hin].
      - rewrite bool_decide_eq_true_2 by done. split; [tauto|]. by intros [->|?].
      - rewrite bool_decide_eq_false_2 by done. apply elem_of_pd_set. }
    assert (Hother : ∀ vid, vid ≠ vid0 → pd_get_list d1 vid = pd_get_list d0 vid).
    { intros vid Hne. unfold d1, pd_get_list. destruct (pd_contains d0 vid0); [done|].
      by rewrite pd_get_set, decide_False by done. }
    rewrite Hget. cbn [mbind result_bind].
    destruct (IH ss (pd_set d1 vid0 (pd_get_list d0 vid0 ++ [s])) Hss)
      as (d & -> & Hkeys & Hlists).
    exists d. split; [done|]. split.
    + intros vid. rewrite Hkeys, elem_of_pd_set, Hkeys1. cbn. rewrite elem_of_cons. tauto.
    + intros vid. rewrite Hlists. cbn [fmap list_fmap fst zip zip_with].
      rewrite filter_cons. cbn [fst]. unfold pd_get_list at 1. rewrite pd_get_set.
      destruct (decide (vid = vid0)) as [->|Hne].
      * rewrite decide_True by done. cbn. by rewrite <- app_assoc.
      * rewrite decide_False by congruence. by rewrite <- (Hother vid Hne).
Qed.

Lemma groundtruth_batch_app (vocab : Vocab) (EOS_idx : nat)
    (l1 l2 : list (string * list nat)) :
  ∀ d, groundtruth_batch vocab EOS_idx (l1 ++ l2) d
       = d' ← groundtruth_batch vocab EOS_idx l1 d; groundtruth_batch vocab EOS_idx l2 d'.
Proof.
  induction l1 as [|[vid caption] l1 IH]; intros d; [done|].
  cbn [app groundtruth_batch].
  destruct (idxs_to_sentence caption (idx2word vocab) EOS_idx) as [s|]; [|done].
  cbn [mbind result_bind].
  destruct (pd_get _ vid) as [GTs|]; [|done]. cbn [mbind result_bind]. apply IH.
Qed.

Lemma groundtruth_loop_pairs (vocab : Vocab) (EOS_idx : nat) (data_iter : list (Batch Stream)) :
  ∀ d, groundtruth_loop torch_cat_dim2 vocab EOS_idx data_iter d
       = groundtruth_batch vocab EOS_idx (caption_pairs torch_cat_dim2 data_iter) d.
Proof.
  unfold caption_pairs. induction data_iter as [|batch rest IH]; intros d; [done|].
  cbn [groundtruth_loop fmap list_fmap concat]. rewrite groundtruth_batch_app.
  destruct (parse_batch torch_cat_dim2 batch) as [[vids feats] captions].
  destruct (groundtruth_batch vocab EOS_idx (zip vids (transpose captions)) d) as [d'|];
    [|done].
  cbn [mbind result_bind]. apply IH.
Qed.

(** X16. [get_groundtruth_captions] groups the reference sentences by
    video.  On batches with at least one feature stream and a caption
    tensor of at least one time step, when every caption of the stream
    converts to a sentence, the result has exactly the video ids of the
    stream as keys, and under each id the sentences of its captions, in
    the order of the stream, repeated ones included. *)
Theorem X16_groundtruth_grouping (data_iter : list (Batch Stream)) (vocab : Vocab)
    (EOS_idx : nat) (sentences : list string) :
  Forall batch_wf data_iter →
  word2idx vocab !! "<EOS>" = Some EOS_idx →
  mapM (λ caption, idxs_to_sentence caption (idx2word vocab) EOS_idx)
       (caption_pairs torch_cat_dim2 data_iter).*2 = Ok sentences →
  ∃ vid2GTs,
    get_groundtruth_captions torch_cat_dim2 data_iter vocab = Ok vid2GTs
    ∧ (∀ vid, vid ∈ vid2GTs.*1 ↔ vid ∈ (caption_pairs torch_cat_dim2 data_iter).*1)
    ∧ ∀ vid, vid ∈ (caption_pairs torch_cat_dim2 data_iter).*1 →
        pd_get vid2GTs vid
        = Ok (filter (λ vs, vs.1 = vid)
                (zip (caption_pairs torch_cat_dim2 data_iter).*1 sentences)).*2.
Proof.
  intros _ HEOS Hsent. unfold get_groundtruth_captions, dict_get. rewrite HEOS.
  cbn [mbind result_bind]. rewrite groundtruth_loop_pairs.
  destruct (groundtruth_batch_grouping vocab EOS_idx _ sentences [] Hsent)
    as (d & -> & Hkeys & Hlists).
  exists d. split; [done|]. split.
  - intros vid. rewrite Hkeys. cbn. rewrite elem_of_nil. tauto.
  - intros vid Hvid. specialize (Hlists vid). cbn in Hlists.
    destruct (pd_get_elem_of d vid) as [GTs HGTs]; [apply Hkeys; by right|].
    unfold pd_get_list in Hlists. rewrite HGTs in Hlists. by rewrite HGTs, Hlists.
Qed.

End DatasetFacts.

(** X16 at a concrete input: two batches with one feature stream each, the
    video ["v1"] in both. *)
Lemma X16_groundtruth_grouping_witness :
  ∃ vid2GTs,
    get_groundtruth_captions (λ streams : list (list nat), concat streams)
      [mkBatch ["v1"; "v2"] [[10; 20]] [[1; 1]; [3; 2]; [2; 0]];
       mkBatch ["v1"] [[30]] [[1]; [3]; [3]; [2]]] example_vocab = Ok vid2GTs
    ∧ (∀ vid, vid ∈ vid2GTs.*1 ↔ vid ∈ ["v1"; "v2"; "v1"])
    ∧ ∀ vid, vid ∈ ["v1"; "v2"; "v1"] →
        pd_get vid2GTs vid
        = Ok (filter (λ vs, vs.1 = vid) (zip ["v1"; "v2"; "v1"] ["a"; ""; "a a"])).*2.
Proof.
  apply (X16_groundtruth_grouping (λ streams : list (list nat), concat streams)
           [mkBatch ["v1"; "v2"] [[10; 20]] [[1; 1]; [3; 2]; [2; 0]];
            mkBatch ["v1"] [[30]] [[1]; [3]; [3]; [2]]] example_vocab 2 ["a"; ""; "a a"]).
  - repeat constructor; try done.
    + exists 2. by repeat constructor.
    + exists 1. by repeat constructor.
  - reflexivity.
  - reflexivity.
Defined.

(** ** The pairing made by [score] *)

Section PyDictUnique.

Context {K : Type} `{EqDecision K} {V : Type}.

Lemma pd_update_unique (l : list (K * V)) :
  ∀ d, NoDup (d ++ l).*1 → pd_update d l = d ++ l.
Proof.
  unfold pd_update. induction l as [|[k v] l IH]; intros d Hnd; cbn [fold_left fst snd].
  - by rewrite app_nil_r.
  - rewrite pd_set_new.
    + rewrite IH; [by rewrite <- app_assoc|]. by rewrite <- app_assoc.
    + rewrite fmap_app in Hnd. apply NoDup_app in Hnd as (_ & Hdisj & _).
      intros Hk. apply (Hdisj k Hk). cbn. apply elem_of_cons. by left.
Qed.

Lemma pd_of_list_unique (l : list (K * V)) : NoDup l.*1 → pd_of_list l = l.
Proof. intros Hnd. unfold pd_of_list. by rewrite pd_update_unique. Qed.

Lemma pd_get_unique (d : list (K * V)) (k : K) (v : V) :
  NoDup d.*1 → (k, v) ∈ d → pd_get d k = Ok v.
Proof.
  induction d as [|[k' v'] d IH]; cbn; [by intros _ ?%elem_of_nil|].
  intros [Hk' Hnd]%NoDup_cons [[= -> ->]|Hin]%elem_of_cons.
  - by rewrite decide_True.
  - rewrite decide_False; [by apply IH|].
    intros ->. apply Hk'. apply list_elem_of_fmap. by exists (k', v).
Qed.

End PyDictUnique.

Lemma mapM_imap {A C} (f : A → result C) (l : list A) :
  ∀ g : nat → A → C,
    (∀ i a, l !! i = Some a → f a = Ok (g i a)) → mapM f l = Ok (imap g l).
Proof.
  induction l as [|a l IH]; intros g Hg; [done|].
  cbn. rewrite (Hg 0 a eq_refl). cbn.
  rewrite (IH (g ∘ S)); [done|]. intros i a' Hi. by apply (Hg (S i)).
Qed.

Lemma imap_keys {A C} (g : A → C) (l : list A) :
  (imap (λ i a, (i, g a)) l).*1 = seq 0 (length l).
Proof.
  rewrite fmap_imap. rewrite (imap_ext _ (λ j _, j)) by done.
  rewrite (imap_seq_0 l (λ j, j)). apply list_fmap_id.
Qed.

Section PyDictLookup.

Context {K : Type} `{EqDecision K} {V : Type}.

Lemma pd_get_Ok_elem (d : list (K * V)) (k : K) (v : V) :
  pd_get d k = Ok v → (k, v) ∈ d.
Proof.
  induction d as [|[k' v'] d IH]; cbn; [done|].
  destruct (decide (k = k')) as [->|Hne].
  - intros [= ->]. apply elem_of_cons. by left.
  - intros Hget. apply elem_of_cons. right. by apply IH.
Qed.

End PyDictLookup.

(** The dense index given to the video ids: the position among the keys
    of the predictions. *)
Lemma vid2idx_index (keys : list string) (i : nat) (vid : string) :
  NoDup keys → keys !! i = Some vid →
  pd_get (pd_of_list ((λ iv : nat * string, (iv.2, iv.1)) <$> enumerate keys)) vid = Ok i.
Proof.
  intros Hnd Hi. rewrite pd_of_list_unique by (by rewrite enumerate_swap_keys).
  apply pd_get_unique; [by rewrite enumerate_swap_keys|].
  apply list_elem_of_fmap. exists (i, vid). split; [done|]. by apply elem_of_enumerate.
Qed.

Section ScoreFacts.

Variable Bleu_compute_score :
  list (nat * list string) → list (nat * list string) → list Q.

(** X17. [score] pairs every prediction with the references of the same
    video.  The video ids are replaced by their positions among the keys of
    the predictions; under position [i] the scorer receives the one
    prediction for the [i]-th video and the reference sentences stored for
    that video, whatever the order of the keys of the reference map. *)
Theorem X17_score_pairs_by_video (vid2pred : list (string * string))
    (vid2GTs : list (string * list string)) :
  NoDup vid2pred.*1 → NoDup vid2GTs.*1 →
  key_set vid2pred = key_set vid2GTs →
  ∃ refs hypos,
    score Bleu_compute_score vid2pred vid2GTs
    = Ok (calc_scores Bleu_compute_score refs hypos)
    ∧ hypos.*1 = seq 0 (length vid2pred)
    ∧ refs.*1 ≡ₚ seq 0 (length vid2pred)
    ∧ ∀ i vid pred, vid2pred !! i = Some (vid, pred) →
        pd_get hypos i = Ok [pred] ∧ pd_get refs i = pd_get vid2GTs vid.
Proof.
  intros Hnd1 Hnd2 Heq. unfold score. rewrite bool_decide_eq_true_2 by done.
  cbn [py_assert mbind result_bind pd_keys pyseq_iter].
  set (vid2idx := pd_of_list _).
  set (idx := λ vid, match pd_get vid2idx vid with Ok i => i | Raise _ => 0 end).
  assert (Hidx : ∀ i vid, vid2pred.*1 !! i = Some vid →
            pd_get vid2idx vid = Ok i ∧ idx vid = i).
  { intros i vid Hi. unfold idx, vid2idx. by rewrite (vid2idx_index _ i vid Hnd1 Hi). }
  assert (Hboth : ∀ vid, vid ∈ vid2GTs.*1 ↔ vid ∈ vid2pred.*1).
  { intros vid. by rewrite <- !elem_of_key_set, Heq. }
  rewrite (mapM_Ok _ (λ item : string * list string, (idx item.1, item.2))).
  2:{ apply Forall_forall. intros [vid GTs] Hin. cbn [fst snd].
      assert (Hvid : vid ∈ vid2pred.*1).
      { apply Hboth, list_elem_of_fmap. by exists (vid, GTs). }
      apply list_elem_of_lookup in Hvid as [i Hi].
      destruct (Hidx i vid Hi) as [-> ->]. done. }
  cbn [mbind result_bind].
  rewrite (mapM_imap _ _ (λ i (item : string * string), (i, [item.2]))).
  2:{ intros i [vid pred] Hi. cbn [fst snd].
      destruct (Hidx i vid) as [-> _]; [|done].
      by rewrite list_lookup_fmap, Hi. }
  cbn [mbind result_bind].
  set (refs := (λ item : string * list string, (idx item.1, item.2)) <$> vid2GTs).
  set (hypos := imap (λ i (item : string * string), (i, [item.2])) vid2pred).
  assert (Hhk : hypos.*1 = seq 0 (length vid2pred)) by apply imap_keys.
  assert (Hseq : idx <$> vid2pred.*1 = seq 0 (length vid2pred)).
  { apply list_eq. intros i. rewrite list_lookup_fmap.
    destruct (vid2pred.*1 !! i) as [vid|] eqn:Hi; cbn.
    - destruct (Hidx i vid Hi) as [_ ->]. symmetry. apply lookup_seq.
      split; [done|]. apply lookup_lt_Some in Hi. by rewrite length_fmap in Hi.
    - symmetry. apply lookup_seq_ge. apply lookup_ge_None in Hi.
      by rewrite length_fmap in Hi. }
  assert (Hrk : refs.*1 ≡ₚ seq 0 (length vid2pred)).
  { unfold refs. rewrite <- list_fmap_compose.
    change (fst ∘ _) with (idx ∘ (fst : string * list string → string)).
    rewrite list_fmap_compose, <- Hseq. apply fmap_Permutation.
    apply NoDup_Permutation; done. }
  assert (Hnr : NoDup refs.*1) by (rewrite Hrk; apply NoDup_seq).
  assert (Hnh : NoDup hypos.*1) by (rewrite Hhk; apply NoDup_seq).
  exists refs, hypos. rewrite !pd_of_list_unique by done.
  split; [done|]. split; [done|]. split; [done|].
  intros i vid pred Hi.
  assert (Hkey : vid2pred.*1 !! i = Some vid) by (by rewrite list_lookup_fmap, Hi).
  split.
  - apply pd_get_unique; [done|]. unfold hypos. apply elem_of_lookup_imap.
    by exists i, (vid, pred).
  - destruct (pd_get_elem_of vid2GTs vid) as [GTs HGTs].
    { apply Hboth. by eapply list_elem_of_lookup_2. }
    rewrite HGTs. apply pd_get_unique; [done|]. unfold refs.
    apply list_elem_of_fmap. exists (vid, GTs). cbn [fst snd].
    destruct (Hidx i vid Hkey) as [_ ->]. split; [done|]. by apply pd_get_Ok_elem.
Qed.

End ScoreFacts.

(** X17 at a concrete input: two videos, the reference map keyed in the
    other order. *)
Lemma X17_score_pairs_by_video_witness :
  ∃ refs hypos,
    score (λ _ _, [1; 1; 1; 1]%Q) [("v1", "a"); ("v2", "a a")]
      [("v2", ["a a"; "a"]); ("v1", ["a"])]
    = Ok (calc_scores (λ _ _, [1; 1; 1; 1]%Q) refs hypos)
    ∧ hypos.*1 = seq 0 2
    ∧ refs.*1 ≡ₚ seq 0 2
    ∧ ∀ i vid pred, [("v1", "a"); ("v2", "a a")] !! i = Some (vid, pred) →
        pd_get hypos i = Ok [pred]
        ∧ pd_get refs i = pd_get [("v2", ["a a"; "a"]); ("v1", ["a"])] vid.
Proof.
  apply (X17_score_pairs_by_video (λ _ _, [1; 1; 1; 1]%Q) [("v1", "a"); ("v2", "a a")]
           [("v2", ["a a"; "a"]); ("v1", ["a"])]).
  - apply (bool_decide_unpack _). reflexivity.
  - apply (bool_decide_unpack _). reflexivity.
  - apply (bool_decide_unpack _). vm_compute. reflexivity.
Defined.

(** ** Failures of [dict_to_cls] *)

Lemma map_mapM_Raise_inv {A B} (f : string → A → result B) (m : gmap string A) (e : exn) :
  map_mapM f m = Raise e → ∃ k a, m !! k = Some a ∧ f k a = Raise e.
Proof.
  unfold map_mapM.
  apply (map_fold_weak_ind
    (λ (r : result (gmap string B)) (m : gmap string A),
       r = Raise e → ∃ k a, m !! k = Some a ∧ f k a = Raise e)).
  - done.
  - intros i x m0 r Hi IH Hr.
    destruct r as [m'|e0]; cbn in Hr.
    + destruct (f i x) as [b|e1] eqn:Hf; [done|]. injection Hr as ->.
      exists i, x. by rewrite lookup_insert_eq.
    + injection Hr as ->. destruct IH as (k & a & Hk & Hf); [done|].
      exists k, a. split; [|done]. rewrite lookup_insert_ne; [done|]. congruence.
Qed.

Lemma map_mapM_Ok_inv {A B} (f : string → A → result B) (m : gmap string A)
    (m' : gmap string B) :
  map_mapM f m = Ok m' → ∀ k a, m !! k = Some a → ∃ b, f k a = Ok b.
Proof.
  unfold map_mapM. revert m'.
  apply (map_fold_weak_ind
    (λ (r : result (gmap string B)) (m : gmap string A),
       ∀ m', r = Ok m' → ∀ k a, m !! k = Some a → ∃ b, f k a = Ok b)).
  - intros m' _ k a. by rewrite lookup_empty.
  - intros i x m0 r Hi IH m' Hr k a Hk.
    destruct r as [m1|e0]; [|done]. cbn in Hr.
    destruct (f i x) as [b|e1] eqn:Hf; [|done].
    destruct (decide (i = k)) as [->|Hne].
    + rewrite lookup_insert_eq in Hk. injection Hk as <-. by exists b.
    + rewrite lookup_insert_ne in Hk by done. by apply (IH m1).
Qed.

Lemma map_mapM_Raise {A B} (f : string → A → result B) (m : gmap string A) (e : exn)
    (k : string) (a : A) :
  m !! k = Some a → f k a = Raise e →
  (∀ k' a' e', m !! k' = Some a' → f k' a' = Raise e' → e' = e) →
  map_mapM f m = Raise e.
Proof.
  intros Hk Hf Honly.
  destruct (map_mapM f m) as [m'|e'] eqn:Hm.
  - destruct (map_mapM_Ok_inv f m m' Hm k a Hk) as [b Hb]. congruence.
  - apply map_mapM_Raise_inv in Hm as (k' & a' & Hk' & Hf').
    by rewrite (Honly k' a' e' Hk' Hf').
Qed.

Lemma has_self_class (attrs : gmap string value) :
  has_self (VClass attrs) = true →
  is_Some (attrs !! "self")
  ∨ ∃ p v, attrs !! p = Some v ∧ dunder p = false ∧ p ≠ "was_class" ∧ has_self v = true.
Proof.
  cbn [has_self]. intros [Hself|Hnested]%orb_true_iff.
  { left. by apply bool_decide_eq_true in Hself. }
  right. revert Hnested.
  apply (map_fold_weak_ind
    (λ (r : bool) (m : gmap string value),
       r = true → ∃ p v, m !! p = Some v ∧ dunder p = false ∧ p ≠ "was_class"
                         ∧ has_self v = true)).
  - done.
  - intros i x m0 r Hi IH [Hx|Hr]%orb_true_iff.
    + apply andb_true_iff in Hx as [[Hd Hw]%andb_true_iff Hx].
      exists i, x. rewrite lookup_insert_eq. split; [done|].
      split; [by apply negb_true_iff|]. split; [|done].
      apply negb_true_iff in Hw. by apply bool_decide_eq_false in Hw.
    + destruct (IH Hr) as (p & v & Hp & Hrest). exists p, v. split; [|done].
      rewrite lookup_insert_ne; [done|]. congruence.
Qed.

Lemma dict_to_cls_value_error (n : nat) :
  ∀ v e, value_size v < n → dict_to_cls_value v = Raise e → e = Struct_TypeError.
Proof.
  induction n as [|n IH]; intros v e Hsize Hraise; [lia|].
  destruct v as [| | | | |d|attrs|attrs]; try done.
  cbn [dict_to_cls_value] in Hraise.
  destruct (d !! "was_class") as [w|]; [|done].
  destruct (truthy w); [|done].
  unfold Struct in Hraise. destruct (d !! "self"); cbn in Hraise; [by injection Hraise as <-|].
  destruct (map_mapM _ d) as [cls|e'] eqn:Hm; [done|]. cbn in Hraise.
  injection Hraise as ->.
  apply map_mapM_Raise_inv in Hm as (k & a & Hk & Hf).
  destruct (dunder k); [done|].
  apply (IH a e); [|done]. pose proof (value_size_lookup d k a Hk). cbn in Hsize. lia.
Qed.

Lemma some_visited_true (g : value → bool) (d : gmap string value) :
  some_visited g d = true ↔ ∃ p v, d !! p = Some v ∧ dunder p = false ∧ g v = true.
Proof.
  unfold some_visited.
  apply (map_fold_weak_ind
    (λ (r : bool) (m : gmap string value),
       r = true ↔ ∃ p v, m !! p = Some v ∧ dunder p = false ∧ g v = true)).
  - split; [done|]. intros (p & v & Hp & _). by rewrite lookup_empty in Hp.
  - intros i x m r Hi IH. rewrite orb_true_iff, andb_true_iff, negb_true_iff, IH. split.
    + intros [[Hd Hx]|(p & v & Hp & Hrest)].
      * exists i, x. by rewrite lookup_insert_eq.
      * exists p, v. split; [|done]. rewrite lookup_insert_ne; [done|]. congruence.
    + intros (p & v & Hp & Hd & Hv). destruct (decide (i = p)) as [->|Hne].
      * rewrite lookup_insert_eq in Hp. injection Hp as ->. by left.
      * rewrite lookup_insert_ne in Hp by done. right. by exists p, v.
Qed.

Lemma some_visited_false (g : value → bool) (d : gmap string value) :
  some_visited g d = false ↔ ∀ p v, d !! p = Some v → dunder p = false → g v = false.
Proof.
  rewrite <- not_true_iff_false, some_visited_true. split.
  - intros Hno p v Hp Hd. apply not_true_iff_false. intros Hv. apply Hno. by exists p, v.
  - intros Hall (p & v & Hp & Hd & Hv). by rewrite (Hall p v Hp Hd) in Hv.
Qed.

Lemma dict_has_self_marked (d : gmap string value) :
  dict_has_self (VDict d)
  = match d !! "was_class" with
    | Some w => truthy w && (bool_decide (is_Some (d !! "self")) || some_visited dict_has_self d)
    | None => false
    end.
Proof. done. Qed.

(** The entries visited by [dict_to_cls] on a dictionary without an entry
    [self]. *)
Lemma dict_to_cls_entries (n : nat) :
  ∀ v, value_size v < n →
    if dict_has_self v then dict_to_cls_value v = Raise Struct_TypeError
    else ∃ v', dict_to_cls_value v = Ok v'.
Proof.
  induction n as [|n IH]; intros v Hsize; [lia|].
  destruct v as [| | | | |d|attrs|attrs]; try (by eexists).
  rewrite dict_has_self_marked. cbn [dict_to_cls_value].
  destruct (d !! "was_class") as [w|]; [|by eexists].
  destruct (truthy w); [|by eexists]. cbn [andb].
  unfold Struct. destruct (d !! "self") as [s|] eqn:Hs.
  { by rewrite bool_decide_eq_true_2. }
  rewrite bool_decide_eq_false_2 by (by intros [? ?]). cbn [orb mbind result_bind].
  assert (Hsmall : ∀ k a, d !! k = Some a → value_size a < n).
  { intros k a Hk. pose proof (value_size_lookup d k a Hk). cbn in Hsize. lia. }
  destruct (some_visited dict_has_self d) eqn:Hvis.
  - apply some_visited_true in Hvis as (p & v & Hp & Hd & Hv).
    rewrite (map_mapM_Raise _ _ Struct_TypeError p v); [done|done| |].
    + rewrite Hd. pose proof (IH v (Hsmall p v Hp)) as Hv'. by rewrite Hv in Hv'.
    + intros k' a' e' _ Hf. destruct (dunder k'); [done|].
      by apply (dict_to_cls_value_error (S (value_size a')) a' e'); [lia|].
  - rewrite some_visited_false in Hvis.
    destruct (map_mapM_lookup (λ p v', if dunder p then Ok v' else dict_to_cls_value v') d)
      as (m' & -> & _); [|by eexists].
    intros k a Hk. destruct (dunder k) eqn:Hd; [by eexists|].
    pose proof (IH a (Hsmall k a Hk)) as Ha. by rewrite (Hvis k a Hk Hd) in Ha.
Qed.

(** X19. On a dictionary with string keys and no cycle, [dict_to_cls]
    raises the [TypeError] of [Struct] exactly when the dictionary, or a
    marked dictionary reached from it through the entries it visits, has
    an entry [self]; otherwise it returns an object with the same
    attribute names. *)
Theorem X19_dict_to_cls_self_entries (d : gmap string value) :
  if self_entry d then dict_to_cls d = Raise Struct_TypeError
  else ∃ s, dict_to_cls d = Ok (VStruct s) ∧ ∀ p, is_Some (s !! p) ↔ is_Some (d !! p).
Proof.
  unfold self_entry, dict_to_cls, Struct. destruct (d !! "self") as [s|] eqn:Hs.
  { by rewrite bool_decide_eq_true_2. }
  rewrite bool_decide_eq_false_2 by (by intros [? ?]). cbn [orb mbind result_bind].
  destruct (some_visited dict_has_self d) eqn:Hvis.
  - apply some_visited_true in Hvis as (p & v & Hp & Hd & Hv).
    rewrite (map_mapM_Raise _ _ Struct_TypeError p v); [done|done| |].
    + rewrite Hd. pose proof (dict_to_cls_entries (S (value_size v)) v ltac:(lia)) as Hv'.
      by rewrite Hv in Hv'.
    + intros k' a' e' _ Hf. destruct (dunder k'); [done|].
      by apply (dict_to_cls_value_error (S (value_size a')) a' e'); [lia|].
  - rewrite some_visited_false in Hvis.
    assert (Hall : ∀ k a, d !! k = Some a →
              ∃ b, (if dunder k then Ok a else dict_to_cls_value a) = Ok b).
    { intros k a Hk. destruct (dunder k) eqn:Hd; [by eexists|].
      pose proof (dict_to_cls_entries (S (value_size a)) a ltac:(lia)) as Ha.
      by rewrite (Hvis k a Hk Hd) in Ha. }
    destruct (map_mapM_lookup (λ p v', if dunder p then Ok v' else dict_to_cls_value v') d Hall)
      as (m' & -> & Hm'). cbn [mbind result_bind].
    exists m'. split; [done|]. intros p. rewrite Hm'.
    destruct (d !! p) as [a|] eqn:Hp; cbn.
    + destruct (Hall p a Hp) as [b ->]. cbn. split; by eexists.
    + done.
Qed.

Lemma self_roundtrip_value (n : nat) :
  ∀ v, value_size v < n → has_self v = true →
    dict_to_cls_value (cls_to_dict_value v) = Raise Struct_TypeError.
Proof.
  induction n as [|n IH]; intros v Hsize Hself; [lia|].
  destruct v as [| | | | |d|attrs|attrs]; try done.
  cbn [cls_to_dict_value dict_to_cls_value].
  rewrite lookup_insert_eq. cbn [truthy]. unfold Struct.
  rewrite lookup_insert_ne by done. rewrite lookup_over_properties, dunder_self.
  apply has_self_class in Hself as [[s Hs]|(p & v & Hp & Hd & Hw & Hv)].
  { by rewrite Hs. }
  destruct (attrs !! "self"); [done|]. cbn [fmap option_fmap option_map mbind result_bind].
  rewrite (map_mapM_Raise _ _ Struct_TypeError p (cls_to_dict_value v)); [done| | |].
  - rewrite lookup_insert_ne by done. by rewrite lookup_over_properties, Hd, Hp.
  - rewrite Hd. apply IH; [|done].
    pose proof (value_size_lookup attrs p v Hp). cbn in Hsize. lia.
  - intros k' a' e' _ Hf. destruct (dunder k'); [done|].
    by apply (dict_to_cls_value_error (S (value_size a')) a' e'); [lia|].
Qed.

(** X20. A class with an attribute named [self], at the top or in a
    nested class, is saved by [cls_to_dict] but cannot be rebuilt:
    [dict_to_cls] raises [TypeError] on the saved dictionary. *)
Theorem X20_self_attribute_not_rebuilt (cls : gmap string value) :
  is_Some (cls !! "self")
  ∨ (∃ p v, cls !! p = Some v ∧ dunder p = false ∧ has_self v = true) →
  dict_to_cls (cls_to_dict cls) = Raise Struct_TypeError.
Proof.
  intros Hself. unfold dict_to_cls, cls_to_dict, Struct.
  rewrite lookup_over_properties, dunder_self.
  destruct Hself as [[s Hs]|(p & v & Hp & Hd & Hv)].
  { by rewrite Hs. }
  destruct (cls !! "self"); [done|]. cbn [fmap option_fmap option_map mbind result_bind].
  rewrite (map_mapM_Raise _ _ Struct_TypeError p (cls_to_dict_value v)); [done| | |].
  - by rewrite lookup_over_properties, Hd, Hp.
  - rewrite Hd. by apply (self_roundtrip_value (S (value_size v))); [lia|].
  - intros k' a' e' _ Hf. destruct (dunder k'); [done|].
    by apply (dict_to_cls_value_error (S (value_size a')) a' e'); [lia|].
Qed.

(** X20 at a concrete input: a nested class with an attribute [self]. *)
Lemma X20_self_attribute_not_rebuilt_witness :
  dict_to_cls (cls_to_dict {[ "lr" := VFloat (1 # 1000);
                              "decoder" := VClass {[ "self" := VInt 1 ]} ]})
  = Raise Struct_TypeError.
Proof.
  apply (X20_self_attribute_not_rebuilt
           {[ "lr" := VFloat (1 # 1000); "decoder" := VClass {[ "self" := VInt 1 ]} ]}).
  right. exists "decoder", (VClass {[ "self" := VInt 1 ]}).
  split; [reflexivity|]. split; reflexivity.
Defined.

(** ** The sign of [entropy_loss] and the shape of its mask *)

Lemma Forall_zip_with_both {A B C} (P : A → Prop) (R : B → Prop) (S : C → Prop)
    (f : A → B → C) (a : list A) (b : list B) :
  (∀ x y, P x → R y → S (f x y)) →
  Forall P a → Forall R b → Forall S (zip_with f a b).
Proof.
  intros Hf Ha. revert b. induction Ha as [|x a Hx _ IH]; intros b Hb; [done|].
  destruct Hb as [|y b Hy Hb]; [done|]. cbn. constructor; [by apply Hf|by apply IH].
Qed.

Lemma Qmult_nonneg_nonpos (p l : Q) : (0 <= p)%Q → (l <= 0)%Q → (p * l <= 0)%Q.
Proof.
  intros Hp Hl. rewrite Qmult_comm, <- (Qmult_0_l p). by apply Qmult_le_compat_r.
Qed.

Lemma py_sum_nonpos (l : list Q) : Forall (λ v, (v <= 0)%Q) l → (py_sum l <= 0)%Q.
Proof.
  unfold py_sum. intros Hl.
  enough (Hacc : ∀ acc, (acc <= 0)%Q → (fold_left Qplus l acc <= 0)%Q)
    by (apply Hacc, Qle_refl).
  induction Hl as [|v l Hv _ IH]; intros acc Hacc; [done|].
  cbn. apply IH. rewrite <- (Qplus_0_r 0). by apply Qplus_le_compat.
Qed.

Lemma sum_dim0_nonpos (n : nat) (b : list (list Q)) :
  Forall (Forall (λ v, (v <= 0)%Q)) b → Forall (λ v, (v <= 0)%Q) (sum_dim0 n b).
Proof.
  unfold sum_dim0. intros Hb.
  enough (Hacc : ∀ acc, Forall (λ v, (v <= 0)%Q) acc →
            Forall (λ v, (v <= 0)%Q) (fold_left (zip_with Qplus) b acc)).
  { apply Hacc. apply Forall_forall. intros v ->%elem_of_replicate_inv. apply Qle_refl. }
  induction Hb as [|row b Hrow _ IH]; intros acc Hacc; [done|].
  cbn. apply IH.
  apply (Forall_zip_with_both (λ v, (v <= 0)%Q) (λ v, (v <= 0)%Q)); [|done|done].
  intros x y Hx Hy. rewrite <- (Qplus_0_r 0). by apply Qplus_le_compat.
Qed.

Lemma tensor_mean_nonpos (v : list Q) :
  Forall (λ v, (v <= 0)%Q) v → (tensor_mean v <= 0)%Q.
Proof.
  intros Hv. unfold tensor_mean, Qdiv.
  set (n := inject_Z (Z.of_nat (length v))).
  assert (Hn : (0 <= / n)%Q).
  { apply Qinv_le_0_compat. unfold n. rewrite <- (Zle_Qle 0). lia. }
  pose proof (py_sum_nonpos v Hv) as Hs.
  rewrite <- (Qmult_0_l (/ n)). by apply Qmult_le_compat_r.
Qed.

Section EntropyEdges.

Variable softmax_dim1 log_softmax_dim1 : list (list (list Q)) → list (list (list Q)).

Hypothesis softmax_shape :
  ∀ T B V x, shape3 T B V x → shape3 T B V (softmax_dim1 x).
Hypothesis log_softmax_shape :
  ∀ T B V x, shape3 T B V x → shape3 T B V (log_softmax_dim1 x).

(** X21. A mask whose shape is not that of the first two axes of [x]
    makes [entropy_loss] raise [IndexError], at [b[ignore_mask] = 0]. *)
Theorem X21_entropy_loss_mask_shape (T B V T' B' : nat)
    (x : list (list (list Q))) (ignore_mask : list (list bool)) :
  shape3 T B V x → shape2 T' B' ignore_mask →
  0 < T → 0 < T' → T ≠ T' ∨ B ≠ B' →
  entropy_loss softmax_dim1 log_softmax_dim1 x ignore_mask = Raise IndexError.
Proof.
  intros Hx Hm HT HT' Hne. unfold entropy_loss, masked_zero, same_shape2.
  pose proof (shape2_sum_mul T B V _ _ (softmax_shape T B V x Hx)
                (log_softmax_shape T B V x Hx)) as Hb.
  rewrite (shape2_lengths _ _ _ Hb), (shape2_lengths _ _ _ Hm).
  rewrite bool_decide_eq_false_2; [done|].
  intros Heq. pose proof (f_equal length Heq) as Hlen.
  rewrite !length_replicate in Hlen. subst T'.
  destruct T as [|T]; [lia|]. cbn in Heq. injection Heq as HB _.
  destruct Hne; done.
Qed.

(** The values of a softmax are probabilities, their logarithms are not
    positive. *)
Hypothesis softmax_nonneg : ∀ x, entries3 (λ p, (0 <= p)%Q) (softmax_dim1 x).
Hypothesis log_softmax_nonpos : ∀ x, entries3 (λ l, (l <= 0)%Q) (log_softmax_dim1 x).

(** X22. On a batch that is not empty, with a mask of the shape of the
    first two axes of [x], [entropy_loss] returns, and its value is never
    negative: every product [p * log p] is at most 0, the mask only
    replaces sums by 0, and the sign is flipped at the end.  (On an empty
    batch the mean is not a number.) *)
Theorem X22_entropy_loss_nonneg (T B V : nat)
    (x : list (list (list Q))) (ignore_mask : list (list bool)) :
  0 < B →
  shape3 T B V x → shape2 T B ignore_mask →
  ∃ r, entropy_loss softmax_dim1 log_softmax_dim1 x ignore_mask = Ok r ∧ (0 <= r)%Q.
Proof.
  intros _ Hx Hm. unfold entropy_loss, masked_zero, same_shape2.
  pose proof (shape2_sum_mul T B V _ _ (softmax_shape T B V x Hx)
                (log_softmax_shape T B V x Hx)) as Hb.
  rewrite (shape2_lengths _ _ _ Hb), (shape2_lengths _ _ _ Hm).
  rewrite bool_decide_eq_true_2 by done. cbn [mbind result_bind].
  eexists. split; [done|].
  assert (Hsums : Forall (Forall (λ v, (v <= 0)%Q))
            (sum_dim2 (mul3 (softmax_dim1 x) (log_softmax_dim1 x)))).
  { unfold sum_dim2, mul3. apply Forall_fmap.
    apply (Forall_zip_with_both (Forall (Forall (λ p, (0 <= p)%Q)))
             (Forall (Forall (λ l, (l <= 0)%Q))));
      [|apply softmax_nonneg|apply log_softmax_nonpos].
    intros a b Ha Hb'. cbn. apply Forall_fmap.
    apply (Forall_zip_with_both (Forall (λ p, (0 <= p)%Q)) (Forall (λ l, (l <= 0)%Q)));
      [|done|done].
    intros ra rb Hra Hrb. cbn. apply py_sum_nonpos.
    apply (Forall_zip_with_both (λ p, (0 <= p)%Q) (λ l, (l <= 0)%Q)); [|done|done].
    intros p l Hp Hl. by apply Qmult_nonneg_nonpos. }
  assert (Hmasked : Forall (Forall (λ v, (v <= 0)%Q))
            (zip_with (zip_with (λ (m : bool) v, if m then 0%Q else v)) ignore_mask
               (sum_dim2 (mul3 (softmax_dim1 x) (log_softmax_dim1 x))))).
  { apply (Forall_zip_with_both (λ _, True) (Forall (λ v, (v <= 0)%Q)));
      [|by apply Forall_true|done].
    intros rm rv _ Hrv.
    apply (Forall_zip_with_both (λ _, True) (λ v, (v <= 0)%Q)); [|by apply Forall_true|done].
    intros m v _ Hv. destruct m; [apply Qle_refl|done]. }
  pose proof (tensor_mean_nonpos _ (sum_dim0_nonpos (length (hd [] x)) _ Hmasked)) as Hmean.
  set (mean := tensor_mean _) in *.
  assert (Heq : (- (1) * mean == - mean)%Q) by ring.
  rewrite Heq. by apply (Qopp_le_compat mean 0).
Qed.

End EntropyEdges.

Lemma constant_entries_shape (c : Q) (T B V : nat) (x : list (list (list Q))) :
  shape3 T B V x → shape3 T B V (constant_entries c x).
Proof.
  intros [HT Hx]. unfold constant_entries. split; [by rewrite length_fmap|].
  apply Forall_fmap. eapply Forall_impl; [exact Hx|]. cbn. intros m [HB Hm].
  split; [by rewrite length_fmap|].
  apply Forall_fmap. eapply Forall_impl; [exact Hm|]. cbn. intros row Hrow.
  by rewrite length_fmap.
Qed.

Lemma constant_entries_all (P : Q → Prop) (c : Q) (x : list (list (list Q))) :
  P c → entries3 P (constant_entries c x).
Proof.
  intros Hc. unfold entries3, constant_entries.
  apply Forall_fmap, Forall_true. intros m. cbn.
  apply Forall_fmap, Forall_true. intros row. cbn.
  apply Forall_fmap, Forall_true. intros v. exact Hc.
Qed.

(** X21 at a concrete input: a mask for three time steps on two. *)
Lemma X21_entropy_loss_mask_shape_witness :
  entropy_loss id id [[[1; 2; 3]; [4; 5; 6]]; [[7; 8; 9]; [1; 1; 1]]]%Q
    [[true; false]; [false; false]; [true; true]] = Raise IndexError.
Proof.
  apply (X21_entropy_loss_mask_shape id id (λ _ _ _ _ H, H) (λ _ _ _ _ H, H) 2 2 3 3 2).
  - split; [done|]. repeat constructor.
  - split; [done|]. repeat constructor.
  - lia.
  - lia.
  - left. lia.
Defined.

(** X22 at a concrete input: probabilities 1/2 with logarithm -1, one
    position of four masked. *)
Lemma X22_entropy_loss_nonneg_witness :
  ∃ r, entropy_loss (constant_entries (1 # 2)) (constant_entries (- (1)))
         [[[1; 2; 3]; [4; 5; 6]]; [[7; 8; 9]; [1; 1; 1]]]%Q
         [[false; false]; [true; false]] = Ok r ∧ (0 <= r)%Q.
Proof.
  apply (X22_entropy_loss_nonneg (constant_entries (1 # 2)) (constant_entries (- (1)))
           (constant_entries_shape (1 # 2)) (constant_entries_shape (- (1)))
           (λ x, constant_entries_all (λ p, (0 <= p)%Q) (1 # 2) x ltac:(discriminate))
           (λ x, constant_entries_all (λ l, (l <= 0)%Q) (- (1)) x ltac:(discriminate))
           2 2 3).
  - lia.
  - split; [done|]. repeat constructor.
  - split; [done|]. repeat constructor.
Defined.

(** ** [Decoder.get_last_hidden] *)

Lemma length_bind_seq {A} (f : nat → list A) (M n : nat) :
  ∀ s, (∀ l, length (f l) = M) → length (seq s n ≫= f) = n * M.
Proof.
  induction n as [|n IH]; intros s Hf; [done|].
  cbn. rewrite length_app, Hf. f_equal. by apply IH.
Qed.

Lemma lookup_bind_seq {A} (f : nat → list A) (M n : nat) :
  (∀ l, length (f l) = M) →
  ∀ s i j, i < n → j < M → (seq s n ≫= f) !! (i * M + j) = f (s + i) !! j.
Proof.
  intros Hf. induction n as [|n IH]; intros s i j Hi Hj; [lia|].
  cbn. destruct i as [|i].
  - rewrite lookup_app_l by (rewrite Hf; lia). by rewrite Nat.add_0_r.
  - rewrite lookup_app_r by (rewrite Hf; lia). rewrite Hf.
    replace (S i * M + j - M) with (i * M + j) by (cbn; lia).
    rewrite IH by lia. by replace (S s + i) with (s + S i) by lia.
Qed.

Lemma flat_index_bound (N M i j : nat) : i < N → j < M → i * M + j < N * M.
Proof. nia. Qed.

Section LastHidden.

Variables (L D B H : nat) (x : Tensor.t).

Let transposed : list Q :=
  l ← seq 0 L; b ← seq 0 B; d ← seq 0 D; h ← seq 0 H;
  [default 0%Q (Tensor.data x !! (((l * D + d) * B + b) * H + h))].

Lemma length_transposed : length transposed = L * (B * (D * H)).
Proof.
  unfold transposed.
  apply length_bind_seq. intros l. apply length_bind_seq. intros b.
  apply length_bind_seq. intros d.
  rewrite (length_bind_seq _ 1); [lia|done].
Qed.

Lemma lookup_transposed (l b d h : nat) :
  l < L → b < B → d < D → h < H →
  transposed !! (l * (B * (D * H)) + (b * (D * H) + (d * H + h)))
  = Some (default 0%Q (Tensor.data x !! (((l * D + d) * B + b) * H + h))).
Proof.
  intros Hl Hb Hd Hh. unfold transposed.
  assert (Hin2 : d * H + h < D * H) by (by apply flat_index_bound).
  assert (Hin1 : b * (D * H) + (d * H + h) < B * (D * H)) by (by apply flat_index_bound).
  rewrite (lookup_bind_seq _ (B * (D * H))); [| |done|done].
  2:{ intros l'. apply length_bind_seq. intros b'. apply length_bind_seq. intros d'.
      rewrite (length_bind_seq _ 1); [lia|done]. }
  rewrite (lookup_bind_seq _ (D * H)); [| |done|done].
  2:{ intros b'. apply length_bind_seq. intros d'.
      rewrite (length_bind_seq _ 1); [lia|done]. }
  rewrite (lookup_bind_seq _ H); [| |done|done].
  2:{ intros d'. rewrite (length_bind_seq _ 1); [lia|done]. }
  replace h with (h * 1 + 0) at 1 by lia.
  rewrite (lookup_bind_seq _ 1); [done|done|done|lia].
Qed.

End LastHidden.

(** X23. For a decoder with [num_layers = L >= 1] and
    [num_directions = D], and a state of shape ([L * D], B, H),
    [get_last_hidden] returns a tensor of shape (B, [D * H]): row [b] holds
    the states of the last layer for batch element [b], one direction after
    the other.  Of an LSTM pair only the first component is read. *)
Theorem X23_get_last_hidden_last_layer (self : module_obj) (hidden : rnn_hidden)
    (h : Tensor.t) (L D B H : nat) :
  attrs self !! "num_layers" = Some (AInt L) →
  attrs self !! "num_directions" = Some (AInt D) →
  hidden = HiddenTensor h ∨ (∃ c, hidden = HiddenTuple h c) →
  Tensor.wf h → Tensor.shape h = [L * D; B; H] → 0 < L →
  ∃ r, get_last_hidden self hidden = Ok r
       ∧ Tensor.shape r = [B; D * H]
       ∧ Tensor.wf r
       ∧ ∀ b d k, b < B → d < D → k < H →
           is_Some (Tensor.entry2 r b (d * H + k))
           ∧ Tensor.entry2 r b (d * H + k) = Tensor.entry3 h ((L - 1) * D + d) b k.
Proof.
  intros HL HD Hhidden Hwf Hshape HLpos.
  assert (Hlast : match hidden with HiddenTuple h' _ => h' | HiddenTensor h' => h' end = h).
  { by destruct Hhidden as [->|[c ->]]. }
  unfold get_last_hidden. rewrite Hlast. clear Hlast Hhidden hidden.
  unfold getattr. rewrite HL, HD. cbn [mbind result_bind as_int].
  unfold Tensor.size. rewrite Hshape. cbn [getitem lookup list_lookup mbind result_bind].
  unfold Tensor.view at 2. rewrite Hshape.
  rewrite bool_decide_eq_true_2 by (cbn; lia). cbn [mbind result_bind].
  unfold Tensor.transpose_2_1. cbn [Tensor.shape Tensor.data].
  cbn [getitem lookup list_lookup mbind result_bind].
  unfold Tensor.view. cbn [Tensor.shape Tensor.data].
  rewrite bool_decide_eq_true_2 by (cbn; lia). cbn [mbind result_bind].
  unfold Tensor.last_slice. cbn [Tensor.shape Tensor.data].
  rewrite bool_decide_eq_false_2 by lia.
  eexists. split; [done|]. split; [done|].
  pose proof (length_transposed L D B H h) as Hlen. cbn zeta in Hlen.
  split.
  - unfold Tensor.wf. cbn [Tensor.shape Tensor.data].
    rewrite length_take, length_drop, Hlen. cbn. nia.
  - intros b d k Hb Hd Hk. unfold Tensor.entry2, Tensor.entry3.
    cbn [Tensor.shape Tensor.data]. rewrite Hshape.
    assert (Hin2 : d * H + k < D * H) by (by apply flat_index_bound).
    assert (Hin1 : b * (D * H) + (d * H + k) < B * (D * H)) by (by apply flat_index_bound).
    rewrite lookup_take_lt by (cbn; lia). rewrite lookup_drop.
    replace ((L - 1) * Tensor.numel [B; D * H] + (b * (D * H) + (d * H + k)))
      with ((L - 1) * (B * (D * H)) + (b * (D * H) + (d * H + k))) by (cbn; lia).
    pose proof (lookup_transposed L D B H h (L - 1) b d k ltac:(lia) Hb Hd Hk) as Hlook.
    cbn zeta in Hlook. rewrite Hlook.
    destruct (lookup_lt_is_Some_2 (Tensor.data h) ((((L - 1) * D + d) * B + b) * H + k))
      as [v Hv].
    { rewrite Hwf, Hshape. cbn. rewrite Nat.mul_1_r.
      replace (L * D * (B * H)) with (L * D * B * H) by lia.
      apply flat_index_bound; [|done]. apply flat_index_bound; [|done].
      replace (L * D) with ((L - 1) * D + D) by nia. lia. }
    rewrite Hv. cbn. split; [by eexists|done].
Qed.

(** X24. A state whose first axis is not [num_layers * num_directions]
    (the other two axes not empty) is refused: the first [view] raises
    [RuntimeError]. *)
Theorem X24_get_last_hidden_wrong_layers (self : module_obj) (h : Tensor.t)
    (L D N B H : nat) :
  attrs self !! "num_layers" = Some (AInt L) →
  attrs self !! "num_directions" = Some (AInt D) →
  Tensor.shape h = [N; B; H] → 0 < B → 0 < H → N ≠ L * D →
  get_last_hidden self (HiddenTensor h)
  = Raise (RuntimeError "shape is invalid for input size").
Proof.
  intros HL HD Hshape HB HH HN. unfold get_last_hidden, getattr. rewrite HL, HD.
  cbn [mbind result_bind as_int].
  unfold Tensor.size. rewrite Hshape. cbn [getitem lookup list_lookup mbind result_bind].
  unfold Tensor.view at 2. rewrite Hshape.
  rewrite bool_decide_eq_false_2; [done|]. cbn. rewrite Nat.mul_1_r.
  intros Heq. apply HN. symmetry.
  apply (Nat.mul_cancel_r _ _ (B * H)); lia.
Qed.

(** X23 at a concrete input: two layers, two directions, a batch of two,
    states of size one. *)
Lemma X23_get_last_hidden_last_layer_witness :
  ∃ r, get_last_hidden
         (mkModule "Decoder" true {[ "num_layers" := AInt 2; "num_directions" := AInt 2 ]})
         (HiddenTuple (Tensor.mk [2 * 2; 2; 1] [1; 2; 3; 4; 5; 6; 7; 8]%Q)
                      (Tensor.mk [2 * 2; 2; 1] [0; 0; 0; 0; 0; 0; 0; 0]%Q)) = Ok r
       ∧ Tensor.shape r = [2; 2 * 1]
       ∧ Tensor.wf r
       ∧ ∀ b d k, b < 2 → d < 2 → k < 1 →
           is_Some (Tensor.entry2 r b (d * 1 + k))
           ∧ Tensor.entry2 r b (d * 1 + k)
             = Tensor.entry3 (Tensor.mk [2 * 2; 2; 1] [1; 2; 3; 4; 5; 6; 7; 8]%Q)
                 ((2 - 1) * 2 + d) b k.
Proof.
  apply (X23_get_last_hidden_last_layer
           (mkModule "Decoder" true {[ "num_layers" := AInt 2; "num_directions" := AInt 2 ]})
           (HiddenTuple (Tensor.mk [2 * 2; 2; 1] [1; 2; 3; 4; 5; 6; 7; 8]%Q)
                        (Tensor.mk [2 * 2; 2; 1] [0; 0; 0; 0; 0; 0; 0; 0]%Q))
           (Tensor.mk [2 * 2; 2; 1] [1; 2; 3; 4; 5; 6; 7; 8]%Q) 2 2 2 1).
  - reflexivity.
  - reflexivity.
  - right. by eexists.
  - reflexivity.
  - reflexivity.
  - lia.
Defined.

(** X24 at a concrete input: a state of three layers for a decoder of two. *)
Lemma X24_get_last_hidden_wrong_layers_witness :
  get_last_hidden
    (mkModule "Decoder" true {[ "num_layers" := AInt 2; "num_directions" := AInt 1 ]})
    (HiddenTensor (Tensor.mk [3; 1; 1] [1; 2; 3]%Q))
  = Raise (RuntimeError "shape is invalid for input size").
Proof.
  apply (X24_get_last_hidden_wrong_layers
           (mkModule "Decoder" true {[ "num_layers" := AInt 2; "num_directions" := AInt 1 ]})
           (Tensor.mk [3; 1; 1] [1; 2; 3]%Q) 2 1 3 1 1).
  - reflexivity.
  - reflexivity.
  - reflexivity.
  - lia.
  - lia.
  - lia.
Defined.
